(** * Verification of the mp4_2_mp3 job tracker

    A shallow embedding of [src/web_app.py] and [src/mp4_2_mp3.py]:
    the path sanitizer, the job store, the progress logger, the conversion
    worker, the download endpoint and the folder converter.

    Python values are modelled as follows: [int] is [Z], [float] is the
    kernel's binary64 [float], [str] is [string], [pathlib.Path] (POSIX
    flavour) is the record [Path], the [jobs] dict is a [gmap] keyed by the
    job id.  The third-party libraries (moviepy, proglog, zipfile, flask) are
    collaborators: what they hand to the code is an input of the model. *)

From Stdlib Require Import ZArith Lia Bool Ascii String List Sorted.
From Stdlib Require Import PrimFloat SpecFloat FloatOps.
From stdpp Require Import base decidable option list strings gmap.

Local Open Scope Z_scope.
Local Open Scope string_scope.
Local Open Scope list_scope.

(** ** Strings *)

Module Str.

(** [s.split("/")]: the fields between slashes, at least one. *)
Fixpoint split_slash (s : string) : list string :=
  match s with
  | EmptyString => [EmptyString]
  | String c r =>
      if Ascii.eqb c "/" then EmptyString :: split_slash r
      else match split_slash r with
           | [] => [String c EmptyString]
           | x :: xs => String c x :: xs
           end
  end.

(** ["/".join(l)] *)
Fixpoint join_slash (l : list string) : string :=
  match l with
  | [] => EmptyString
  | [x] => x
  | x :: xs => x +:+ "/" +:+ join_slash xs
  end.

(** ["\n".join(l)] *)
Fixpoint join_lines (l : list string) : string :=
  match l with
  | [] => EmptyString
  | [x] => x
  | x :: xs => x +:+ String "010" (join_lines xs)
  end.

(** Number of leading ["/"] characters, [len(s) - len(s.lstrip("/"))]. *)
Fixpoint leading_slashes (s : string) : nat :=
  match s with
  | String c r => if Ascii.eqb c "/" then S (leading_slashes r) else O
  | EmptyString => O
  end.

(** [s.rfind(".")], with [None] for Python's [-1]. *)
Fixpoint rfind_dot (s : string) : option nat :=
  match s with
  | EmptyString => None
  | String c r =>
      match rfind_dot r with
      | Some i => Some (S i)
      | None => if Ascii.eqb c "." then Some O else None
      end
  end.

Fixpoint contains_slash (s : string) : bool :=
  match s with
  | EmptyString => false
  | String c r => Ascii.eqb c "/" || contains_slash r
  end.

Definition starts_with_dot (s : string) : bool :=
  match s with
  | String c _ => Ascii.eqb c "."
  | EmptyString => false
  end.

(** [s.lower()] on the ASCII letters. *)
Definition lower_ascii (c : ascii) : ascii :=
  let n := nat_of_ascii c in
  if (Nat.leb 65 n && Nat.leb n 90)%bool then ascii_of_nat (n + 32) else c.

Fixpoint lower (s : string) : string :=
  match s with
  | EmptyString => EmptyString
  | String c r => String (lower_ascii c) (lower r)
  end.

(** [s[i:]] and [s[:i]] *)
Definition from (i : nat) (s : string) : string :=
  substring i (String.length s - i) s.
Definition upto (i : nat) (s : string) : string := substring 0 i s.

Fixpoint ends_with (sfx s : string) : bool :=
  if String.eqb sfx s then true
  else match s with
       | EmptyString => false
       | String _ r => ends_with sfx r
       end.

End Str.

(** ** Paths: [pathlib.PurePosixPath] *)

(** A parsed path: the root ([""], ["/"] or ["//"]) and the components after
    it.  Python's [parts] puts the root, when there is one, in front of the
    components. *)
Record Path : Type := mkPath { root : string; names : list string }.

#[global] Instance Path_eq_dec : EqDecision Path.
Proof. solve_decision. Defined.

Module PurePath.

Definition keep_component (x : string) : bool :=
  negb (String.eqb x "" || String.eqb x ".").

(** [Path(s)]: exactly two leading slashes give the root ["//"], any other
    positive number the root ["/"]; empty and ["."] components are dropped. *)
Definition parse (s : string) : Path :=
  {| root := match Str.leading_slashes s with
             | O => ""
             | 2%nat => "//"
             | _ => "/"
             end;
     names := List.filter keep_component (Str.split_slash s) |}.

Definition is_absolute (p : Path) : bool := negb (String.eqb (root p) "").

(** [p / q]: an absolute right operand replaces the left one. *)
Definition joinpath (p q : Path) : Path :=
  if is_absolute q then q
  else {| root := root p; names := names p ++ names q |}.

(** [Path( *args )] *)
Definition of_args (args : list string) : Path :=
  fold_left joinpath (List.map parse args) {| root := ""; names := [] |}.

Definition parts (p : Path) : list string :=
  if is_absolute p then root p :: names p else names p.

(** [p.name]: the last component, [""] when there is none. *)
Definition name (p : Path) : string := List.last (names p) "".

(** [str(p)] and [p.as_posix()], which agree for the POSIX flavour. *)
Definition as_posix (p : Path) : string :=
  match root p, names p with
  | EmptyString, [] => "."
  | r, l => r +:+ Str.join_slash l
  end.

Definition suffix_of_name (n : string) : string :=
  match Str.rfind_dot n with
  | Some i =>
      if (Nat.ltb 0 i && Nat.ltb i (String.length n - 1))%bool
      then Str.from i n else ""
  | None => ""
  end.

(** [p.suffix] *)
Definition suffix (p : Path) : string := suffix_of_name (name p).

(** [p.stem] *)
Definition stem (p : Path) : string :=
  let n := name p in
  match Str.rfind_dot n with
  | Some i =>
      if (Nat.ltb 0 i && Nat.ltb i (String.length n - 1))%bool
      then Str.upto i n else n
  | None => n
  end.

(** [p.with_suffix(sfx)]; [None] is Python's [ValueError] (an invalid
    suffix, or a path with an empty name). *)
Definition with_suffix (p : Path) (sfx : string) : option Path :=
  if Str.contains_slash sfx then None
  else if (negb (String.eqb sfx "") && negb (Str.starts_with_dot sfx)
           || String.eqb sfx ".")%bool then None
  else
    let n := name p in
    if String.eqb n "" then None
    else
      let old := suffix p in
      let n' := if String.eqb old "" then n +:+ sfx
                else Str.upto (String.length n - String.length old) n +:+ sfx in
      Some {| root := root p; names := List.removelast (names p) ++ [n'] |}.

Fixpoint strip_prefix (pre l : list string) : option (list string) :=
  match pre, l with
  | [], _ => Some l
  | x :: pre', y :: l' => if String.eqb x y then strip_prefix pre' l' else None
  | _ :: _, [] => None
  end.

(** [p.relative_to(other)]; [None] is Python's [ValueError]. *)
Definition relative_to (p other : Path) : option Path :=
  if String.eqb (root p) (root other) then
    match strip_prefix (names other) (names p) with
    | Some rest => Some {| root := ""; names := rest |}
    | None => None
    end
  else None.

(** [p.parent] *)
Definition parent (p : Path) : Path :=
  {| root := root p; names := List.removelast (names p) |}.

End PurePath.

Notation "p // q" := (PurePath.joinpath p q) (at level 40, left associativity).

(** ** [mp4_2_mp3.VIDEO_EXTENSIONS] and the upload helpers of [web_app] *)

Definition VIDEO_EXTENSIONS : list string :=
  [".mp4"; ".mkv"; ".avi"; ".mov"; ".flv"; ".wmv"; ".m4v"].

Definition ALLOWED_SUFFIXES : list string := List.map Str.lower VIDEO_EXTENSIONS.

Definition mem_string (x : string) (l : list string) : bool :=
  List.existsb (String.eqb x) l.

Definition _sanitize_relative_path (filename : string) : Path :=
  let candidate := PurePath.parse filename in
  let safe_parts :=
    List.filter (fun part => negb (mem_string part [""; "."; ".."]))
                (PurePath.parts candidate) in
  match safe_parts with
  | [] => PurePath.parse (if String.eqb (PurePath.name candidate) ""
                          then "uploaded_file" else PurePath.name candidate)
  | _ => PurePath.of_args safe_parts
  end.

Definition _filter_supported (files : list Path) : list Path :=
  List.filter (fun path => mem_string (Str.lower (PurePath.suffix path)) ALLOWED_SUFFIXES)
              files.

(** ** Exceptions *)

Inductive exn_class : Type :=
| ModuleNotFoundError | ValueError | OverflowError | OSError | OtherError.

(** A raised exception, all of them subclasses of [Exception]; [str(exc)] is
    its message. *)
Record exn : Type := Raise { exn_kind : exn_class; str_exn : string }.

Definition is_ModuleNotFoundError (e : exn) : bool :=
  match exn_kind e with ModuleNotFoundError => true | _ => false end.

(** ** Python numbers as the progress logger meets them *)

Inductive pyval : Type :=
| PNone
| PInt (z : Z)
| PFloat (f : float).

Module Py.

Definition hundred : float := 100%float.

(** Truth value of a number or [None]; a NaN is true, both zeros are false. *)
Definition truthy (v : pyval) : bool :=
  match v with
  | PNone => false
  | PInt z => negb (Z.eqb z 0)
  | PFloat f => negb (PrimFloat.eqb f PrimFloat.zero)
  end.

(** [a or b] *)
Definition or_ (a b : pyval) : pyval := if truthy a then a else b.

Definition is_None (v : pyval) : bool :=
  match v with PNone => true | _ => false end.

Definition finite_or_overflow (msg : string) (x : spec_float) : exn + float :=
  match x with
  | S754_infinity _ | S754_nan => inl (Raise OverflowError msg)
  | _ => inr (SF2Prim x)
  end.

(** [float(z)] for an int: the nearest binary64 value, ties to even. *)
Definition float_of_int (z : Z) : exn + float :=
  finite_or_overflow "int too large to convert to float"
                     (binary_normalize prec emax z 0 false).

(** [float(v)] for a number. *)
Definition to_float (v : pyval) : exn + float :=
  match v with
  | PInt z => float_of_int z
  | PFloat f => inr f
  | PNone => inl (Raise OtherError "float() argument must be a string or a real number, not 'NoneType'")
  end.

(** [a / b] on two ints with [b <> 0]: the exact quotient rounded once to
    binary64. *)
Definition int_truediv (a b : Z) : exn + float :=
  let s := xorb (Z.ltb a 0) (Z.ltb b 0) in
  match Z.abs a with
  | Z0 => inr (SF2Prim (S754_zero (Z.ltb b 0)))
  | ma =>
      let '(mz, ez, lz) := SFdiv_core_binary prec emax ma 0 (Z.abs b) 0 in
      finite_or_overflow "integer division result too large for a float"
                         (binary_round_aux prec emax s mz ez lz)
  end.

(** [a / b] with [b] true (so no [ZeroDivisionError]). *)
Definition truediv (a b : pyval) : exn + float :=
  match a, b with
  | PInt x, PInt y => int_truediv x y
  | _, _ =>
      match to_float a with
      | inl e => inl e
      | inr x => match to_float b with
                 | inl e => inl e
                 | inr y => inr (PrimFloat.div x y)
                 end
      end
  end.

(** [round(x)] for a float: the nearest int, ties to the even one. *)
Definition round_half_even (x : float) : exn + Z :=
  match Prim2SF x with
  | S754_zero _ => inr 0
  | S754_nan => inl (Raise ValueError "cannot convert float NaN to integer")
  | S754_infinity _ =>
      inl (Raise OverflowError "cannot convert float infinity to integer")
  | S754_finite s m e =>
      let mag :=
        if Z.leb 0 e then Z.shiftl (Z.pos m) e
        else
          let q := Z.shiftr (Z.pos m) (- e) in
          let r := Z.pos m - Z.shiftl q (- e) in
          let half := Z.shiftl 1 (- e - 1) in
          if Z.ltb half r then q + 1
          else if Z.eqb half r then (if Z.even q then q else q + 1)
          else q in
      inr (if s then - mag else mag)
  end.

End Py.

(** ** [ConversionJob] and the [jobs] registry *)

Inductive Status : Type := pending | running | completed | failed.

#[global] Instance Status_eq_dec : EqDecision Status.
Proof. solve_decision. Defined.

Record ConversionJob : Type := mkJob {
  id : string;
  status : Status;
  total_files : Z;
  converted : Z;
  processed_files : Z;
  errors : list string;
  message : option string;
  download_path : option Path;
  temp_dir : option Path;
  generated_files : list string;
  unsupported_files : list string;
  current_file : option string;
  current_progress : Z
}.

(** One keyword argument of [_update_job]. *)
Inductive change : Type :=
| set_status (v : Status)
| set_message (v : option string)
| set_errors (v : list string)
| set_converted (v : Z)
| set_processed_files (v : Z)
| set_download_path (v : option Path)
| set_generated_files (v : list string)
| set_current_file (v : option string)
| set_current_progress (v : Z).

Definition setattr (job : ConversionJob) (c : change) : ConversionJob :=
  let '(mkJob i st tot conv proc errs msg dl tmp gen unsup cf cp) := job in
  match c with
  | set_status v => mkJob i v tot conv proc errs msg dl tmp gen unsup cf cp
  | set_message v => mkJob i st tot conv proc errs v dl tmp gen unsup cf cp
  | set_errors v => mkJob i st tot conv proc v msg dl tmp gen unsup cf cp
  | set_converted v => mkJob i st tot v proc errs msg dl tmp gen unsup cf cp
  | set_processed_files v => mkJob i st tot conv v errs msg dl tmp gen unsup cf cp
  | set_download_path v => mkJob i st tot conv proc errs msg v tmp gen unsup cf cp
  | set_generated_files v => mkJob i st tot conv proc errs msg dl tmp v unsup cf cp
  | set_current_file v => mkJob i st tot conv proc errs msg dl tmp gen unsup v cp
  | set_current_progress v => mkJob i st tot conv proc errs msg dl tmp gen unsup cf v
  end.

Definition Jobs : Type := gmap string ConversionJob.

(** The body of [_update_job], run under [jobs_lock]: a field merge into the
    record when the id is known, nothing otherwise. *)
Definition _update_job (jobs : Jobs) (job_id : string) (changes : list change) : Jobs :=
  match jobs !! job_id with
  | None => jobs
  | Some job => <[job_id := fold_left setattr changes job]> jobs
  end.

(** ** Effects of the worker and of the command-line converter *)

Inductive zip_source : Type :=
| from_file (p : Path)
| from_text (data : string).

Record zip_entry : Type := mkEntry { arcname : string; source : zip_source }.

Inductive effect : Type :=
| Update (job_id : string) (changes : list change)
| OpenClip (video : string)
| WriteAudio (audio : string)
| WriteZip (zip_path : Path) (entries : list zip_entry)
| Print (line : string).

(** A computation: the effects it performed, in order, and how it ended. *)
Record M (A : Type) : Type := mkM { trace : list effect; outcome : exn + A }.
Arguments mkM {A} _ _.
Arguments trace {A} _.
Arguments outcome {A} _.

Definition ret {A} (a : A) : M A := mkM [] (inr a).
Definition raise {A} (e : exn) : M A := mkM [] (inl e).
Definition emit (e : effect) : M unit := mkM [e] (inr tt).

Definition bind {A B} (m : M A) (k : A -> M B) : M B :=
  match outcome m with
  | inl e => mkM (trace m) (inl e)
  | inr a => mkM (trace m ++ trace (k a)) (outcome (k a))
  end.

(** [try: m] with the exception, if any, handed to the continuation. *)
Definition attempt {A} (m : M A) : M (exn + A) := mkM (trace m) (inr (outcome m)).

Notation "x <- m ;; k" := (bind m (fun x => k))
  (at level 100, m at next level, right associativity).
Notation "m ;; k" := (bind m (fun _ => k))
  (at level 100, right associativity).

Fixpoint for_each {A} (f : A -> M unit) (l : list A) : M unit :=
  match l with
  | [] => ret tt
  | x :: xs => f x ;; for_each f xs
  end.

(** A call [_update_job(job_id, **changes)] made by the worker. *)
Definition call_update_job (job_id : string) (changes : list change) : M unit :=
  emit (Update job_id changes).

(** What an effect does to the registry. *)
Definition run_effect (jobs : Jobs) (e : effect) : Jobs :=
  match e with
  | Update job_id changes => _update_job jobs job_id changes
  | _ => jobs
  end.

Definition run (jobs : Jobs) (t : list effect) : Jobs := fold_left run_effect t jobs.

(** The registry states a reader holding [jobs_lock] can see while the trace
    [t] is performed: one after every prefix of [t]. *)
Definition observable (jobs : Jobs) (t : list effect) (seen : Jobs) : Prop :=
  exists k : nat, seen = run jobs (firstn k t).

(** ** [JobProgressLogger] *)

(** A proglog bar, a dict of its fields, and [self.bars]. *)
Definition Bar : Type := gmap string pyval.
Definition Bars : Type := gmap string Bar.

Definition bar_get (b : Bar) (key : string) : pyval := default PNone (b !! key).

(** [self.bars.get(key)] taken when it is true: a bar that is there and not
    an empty dict. *)
Definition true_bar (bars : Bars) (key : string) : option Bar :=
  match bars !! key with
  | Some b => if decide (b = ∅) then None else Some b
  | None => None
  end.

Fixpoint first_bar (bars : Bars) (keys : list string) : option Bar :=
  match keys with
  | [] => None
  | key :: rest =>
      match true_bar bars key with
      | Some b => Some b
      | None => first_bar bars rest
      end
  end.

(** The value of [fraction] when [callback] reaches its second
    [if fraction is None]. *)
Definition derived_fraction (b : Bar) : exn + pyval :=
  let fraction := bar_get b "fraction" in
  if Py.is_None fraction then
    let total := Py.or_ (Py.or_ (bar_get b "total") (bar_get b "n")) (PInt 0) in
    let completed := bar_get b "index" in
    let completed := if Py.is_None completed then bar_get b "value" else completed in
    let completed := if Py.is_None completed then bar_get b "current" else completed in
    if (Py.truthy total && negb (Py.is_None completed))%bool then
      match Py.truediv completed total with
      | inl e => inl e
      | inr q => inr (PFloat q)
      end
    else inr PNone
  else inr fraction.

(** [max(0, min(100, int(round(float(fraction) * 100))))] *)
Definition percent_of (fraction : pyval) : exn + Z :=
  match Py.to_float fraction with
  | inl e => inl e
  | inr f =>
      match Py.round_half_even (PrimFloat.mul f Py.hundred) with
      | inl e => inl e
      | inr r => inr (Z.max 0 (Z.min 100 r))
      end
  end.

Module JobProgressLogger.

(** [callback], called by proglog with [self.bars] already updated. *)
Definition callback (job_id : string) (bars : Bars) : M unit :=
  match first_bar bars ["chunk"; "chunks"; "t"] with
  | None => ret tt
  | Some b =>
      match derived_fraction b with
      | inl e => raise e
      | inr fraction =>
          if Py.is_None fraction then ret tt
          else match percent_of fraction with
               | inl e => raise e
               | inr percent =>
                   call_update_job job_id [set_current_progress percent]
               end
      end
  end.

End JobProgressLogger.

(** ** Entry names of [zipfile.ZipFile] *)

Module ZipFile.

Definition is_nil (l : list string) : bool :=
  match l with [] => true | _ => false end.

(** One turn of the loop of [posixpath.normpath] over the components. *)
Definition norm_step (initial_slashes : nat) (new_comps : list string)
    (comp : string) : list string :=
  if (String.eqb comp "" || String.eqb comp ".")%bool then new_comps
  else if (negb (String.eqb comp "..")
           || (Nat.eqb initial_slashes 0 && is_nil new_comps)
           || (negb (is_nil new_comps) && String.eqb (List.last new_comps "") ".."))%bool
       then new_comps ++ [comp]
       else List.removelast new_comps.

Fixpoint lstrip_slashes (s : string) : string :=
  match s with
  | String c r => if Ascii.eqb c "/" then lstrip_slashes r else s
  | EmptyString => EmptyString
  end.

Fixpoint slashes (n : nat) : string :=
  match n with O => "" | S k => String "/" (slashes k) end.

(** [posixpath.normpath(path)] *)
Definition normpath (path : string) : string :=
  if String.eqb path "" then "."
  else
    let initial_slashes :=
      match Str.leading_slashes path with
      | O => O
      | 2%nat => 2%nat
      | _ => 1%nat
      end in
    let comps := fold_left (norm_step initial_slashes) (Str.split_slash path) [] in
    let path := slashes initial_slashes +:+ Str.join_slash comps in
    if String.eqb path "" then "." else path.

(** The name [ZipFile.write(filename, arcname)] stores for a regular file:
    [ZipInfo.from_file] normalizes [arcname] and strips leading slashes. *)
Definition stored_name (arcname : string) : string :=
  lstrip_slashes (normpath arcname).

End ZipFile.

(** ** The file system, a collaborator *)

(** The two places where the web application writes to the file system
    outside any [try]: [convert] saves each upload, [_process_job] writes the
    archive.  For each the file system answers [None] when the calls return,
    and the exception when one of them raises. *)
Class FileSystem : Type := mkFileSystem {
  (** [destination.parent.mkdir(parents=True, exist_ok=True)] followed by
      [storage.save(destination)] *)
  save_upload : Path -> option exn;
  (** [zip_path.parent.mkdir(parents=True, exist_ok=True)] followed by the
      block [with ZipFile(zip_path, "w", compression=ZIP_DEFLATED)], which
      writes the [entries] *)
  write_archive : Path -> list zip_entry -> option exn
}.

(** ** The media library (moviepy), a collaborator *)

(** [audio.write_audiofile]: the states of [logger.bars] at the successive
    calls of [logger.callback], and the exception raised afterwards, if any. *)
Record audio_write : Type := mkWrite { progress : list Bars; raised : option exn }.

(** [VideoFileClip(path)]: it raises, or gives a clip whose [audio] is [None]
    or an audio track. *)
Inductive clip : Type :=
| clip_raises (e : exn)
| clip_opened (audio : option audio_write).

(** ** [mp4_2_mp3] *)

Section Converter.

(** The module global [VideoFileClip]: [None] when moviepy could not be
    imported. *)
Variable VideoFileClip : option (string -> clip).

(** The file system the worker writes the archive to. *)
Context {fs : FileSystem}.

Definition _require_moviepy : M unit :=
  match VideoFileClip with
  | None =>
      raise (Raise ModuleNotFoundError
        "moviepy is required to convert videos. Install it with `pip install moviepy`.")
  | Some _ => ret tt
  end.

(** [video.audio.write_audiofile(str(audio_path), logger=logger)]: the
    library writes the file, calls the logger's callback at each event, and
    may raise at the end.  An exception of the callback goes through the
    library to the caller. *)
Definition write_audiofile (w : audio_write) (audio_path : string)
    (logger : option (Bars -> M unit)) : M unit :=
  emit (WriteAudio audio_path) ;;
  match logger with
  | Some callback => for_each callback (progress w)
  | None => ret tt
  end ;;
  match raised w with
  | Some e => raise e
  | None => ret tt
  end.

(** [video_to_audio_file]; creating the parent directory of [audio_path] is
    taken to succeed and leaves no trace here. *)
Definition video_to_audio_file (video_path audio_path : Path)
    (logger : option (Bars -> M unit)) : M Path :=
  _require_moviepy ;;
  match VideoFileClip with
  | None => raise (Raise OtherError "'NoneType' object is not callable")
  | Some open =>
      emit (OpenClip (PurePath.as_posix video_path)) ;;
      match open (PurePath.as_posix video_path) with
      | clip_raises e => raise e
      | clip_opened None =>
          raise (Raise ValueError
                   ("Video '" +:+ PurePath.name video_path +:+ "' has no audio track"))
      | clip_opened (Some w) =>
          write_audiofile w (PurePath.as_posix audio_path) logger
      end
  end ;;
  ret audio_path.

(** [folder.iterdir()] is given as the listing: each entry with whether it
    is a regular file. *)
Definition _iter_video_files (listing : list (Path * bool)) (suffixes : list string)
  : list Path :=
  let suffixes := List.map Str.lower suffixes in
  List.map fst
    (List.filter
       (fun c => (snd c && mem_string (Str.lower (PurePath.suffix (fst c))) suffixes)%bool)
       listing).

Definition folder_step (output_folder_path : Path) (audio_format : string)
    (generated : list Path) (video_path : Path) : M (list Path) :=
  let audio_name := PurePath.stem video_path +:+ "." +:+ audio_format in
  let audio_path := output_folder_path // PurePath.parse audio_name in
  emit (Print ("Converting: " +:+ PurePath.name video_path +:+ " → " +:+ audio_name)) ;;
  r <- attempt (video_to_audio_file video_path audio_path None) ;;
  match r with
  | inr produced => ret (generated ++ [produced])
  | inl exc =>
      emit (Print ("Failed to convert " +:+ PurePath.name video_path +:+ ": " +:+ str_exn exc)) ;;
      ret generated
  end.

Fixpoint folder_loop (output_folder_path : Path) (audio_format : string)
    (generated : list Path) (videos : list Path) : M (list Path) :=
  match videos with
  | [] => ret generated
  | video_path :: rest =>
      generated <- folder_step output_folder_path audio_format generated video_path ;;
      folder_loop output_folder_path audio_format generated rest
  end.

Definition video_to_audio_folder (listing : list (Path * bool))
    (video_folder : string) (output_folder : option string) (audio_format : string)
  : M (list Path) :=
  _require_moviepy ;;
  let video_folder_path := PurePath.parse video_folder in
  let output_folder_path :=
    match output_folder with
    | Some o => if String.eqb o "" then video_folder_path else PurePath.parse o
    | None => video_folder_path
    end in
  generated <- folder_loop output_folder_path audio_format []
                 (_iter_video_files listing VIDEO_EXTENSIONS) ;;
  emit (Print (match generated with
               | [] => "ℹ️ No compatible video files found."
               | _ => "✅ Conversion completed!"
               end)) ;;
  ret generated.

(** ** [web_app._process_job] *)

(** How one turn of the [for] loop ends: with the locals it leaves for the
    next turn, or with the [return] of the function. *)
Inductive flow : Type :=
| next_file (errors : list string) (generated : list (Path * Path))
| returned.

Definition unwrap {A} (o : option A) (e : exn) : M A :=
  match o with Some a => ret a | None => raise e end.

(** The [finally] clause of the loop body. *)
Definition finally_clause (job_id : string) (errors : list string) (index : Z)
    (success : bool) : M unit :=
  call_update_job job_id
    [set_errors errors; set_processed_files index;
     set_current_progress (if success then 100 else 0)].

(** The body of the loop for the file number [index].  [relative_to] and
    [with_suffix] are outside the [try]: their [ValueError] leaves the worker
    (its message is used nowhere). *)
Definition process_file (job_id : string) (upload_dir output_dir : Path)
    (index : Z) (video_path : Path)
    (errors : list string) (generated : list (Path * Path)) : M flow :=
  relative <- unwrap (PurePath.relative_to video_path upload_dir)
                (Raise ValueError "path is not in the subpath of the upload directory") ;;
  audio_relative <- unwrap (PurePath.with_suffix relative ".mp3")
                      (Raise ValueError "path has an empty name") ;;
  let audio_path := output_dir // audio_relative in
  call_update_job job_id
    [set_current_file (Some (PurePath.as_posix relative));
     set_processed_files (index - 1);
     set_current_progress 0] ;;
  let logger := JobProgressLogger.callback job_id in
  r <- attempt (video_to_audio_file video_path audio_path (Some logger)) ;;
  match r with
  | inl exc =>
      if is_ModuleNotFoundError exc then
        let errors := errors ++ [str_exn exc] in
        call_update_job job_id
          [set_status failed; set_message (Some (str_exn exc)); set_errors errors;
           set_processed_files index; set_current_file None;
           set_current_progress 0] ;;
        finally_clause job_id errors index false ;;
        ret returned
      else
        let errors := errors ++ [PurePath.as_posix relative +:+ ": " +:+ str_exn exc] in
        finally_clause job_id errors index false ;;
        ret (next_file errors generated)
  | inr produced =>
      let generated := generated ++ [(produced, audio_relative)] in
      call_update_job job_id [set_converted (Z.of_nat (List.length generated))] ;;
      finally_clause job_id errors index true ;;
      ret (next_file errors generated)
  end.

(** The [for index, video_path in enumerate(supported_files, start=1)] loop,
    entered at [index] with the locals [errors] and [generated]. *)
Fixpoint process_files (job_id : string) (upload_dir output_dir : Path)
    (index : Z) (files : list Path)
    (errors : list string) (generated : list (Path * Path)) : M flow :=
  match files with
  | [] => ret (next_file errors generated)
  | video_path :: rest =>
      f <- process_file job_id upload_dir output_dir index video_path errors generated ;;
      match f with
      | returned => ret returned
      | next_file errors generated =>
          process_files job_id upload_dir output_dir (index + 1) rest errors generated
      end
  end.

(** The entries of the archive: one [zip_file.write(audio_path, arcname=str(arcname))]
    per generated file, then [zip_file.writestr] for the report. *)
Definition zip_entries (generated : list (Path * Path)) (errors : list string)
  : list zip_entry :=
  List.map (fun g => mkEntry (ZipFile.stored_name (PurePath.as_posix (snd g)))
                        (from_file (fst g))) generated
  ++ match errors with
     | [] => []
     | _ => [mkEntry "conversion_report.txt"
               (from_text ("Some files could not be converted:" +:+ String "010" (Str.join_lines errors)))]
     end.

(** [zip_path.parent.mkdir(...)] and the [with ZipFile(...)] block: the
    archive is written, or the exception of the file system leaves the
    block. *)
Definition write_zip (zip_path : Path) (entries : list zip_entry) : M unit :=
  match write_archive zip_path entries with
  | Some exc => raise exc
  | None => emit (WriteZip zip_path entries)
  end.

(** What follows the loop: the failure update when nothing was generated,
    else the archive and the completion update.  The archive is written
    outside any [try]: an exception there leaves the worker. *)
Definition package (job_id : string) (output_dir : Path)
    (errors : list string) (generated : list (Path * Path)) : M unit :=
  match generated with
  | [] =>
      let message :=
        match errors with
        | [] => "No audio files were generated."
        | _ => "Conversion failed for all uploaded videos."
        end in
      call_update_job job_id
        [set_status failed; set_message (Some message); set_current_file None;
         set_current_progress 0]
  | _ =>
      let zip_path := output_dir // PurePath.parse "converted_audio.zip" in
      write_zip zip_path (zip_entries generated errors) ;;
      let message :=
        match errors with
        | [] => "Conversion completed!"
        | _ => "Conversion completed with some errors."
        end in
      call_update_job job_id
        [set_status completed; set_message (Some message);
         set_download_path (Some zip_path);
         set_generated_files (List.map (fun g => PurePath.as_posix (snd g)) generated);
         set_current_file None; set_current_progress 100]
  end.

Definition _process_job (job_id : string) (upload_dir output_dir : Path)
    (supported_files : list Path) : M unit :=
  call_update_job job_id
    [set_status running; set_message (Some "Converting videos..."); set_errors [];
     set_current_progress 0] ;;
  f <- process_files job_id upload_dir output_dir 1 supported_files [] [] ;;
  match f with
  | returned => ret tt
  | next_file errors generated => package job_id output_dir errors generated
  end.

End Converter.

(** ** The request handlers of [web_app] *)

#[global] Instance Path_countable : Countable Path :=
  inj_countable' (fun p => (root p, names p)) (fun rn => mkPath (fst rn) (snd rn))
                 (fun p => match p with mkPath _ _ => eq_refl end).

(** The process-wide state: the [jobs] dict and the temporary directories
    that exist on disk. *)
Record Server : Type := mkServer { jobs : Jobs; temp_dirs : gset Path }.

Inductive response : Type :=
| json_error (code : Z) (error : string) (unsupported : option (list string))
| json_job_id (job_id : string)
| abort_404
| send_file (path : Path) (download_name : string).

(** The arguments of the worker thread started by [convert]. *)
Record worker_args : Type := mkArgs {
  arg_job_id : string;
  arg_upload_dir : Path;
  arg_output_dir : Path;
  arg_supported_files : list Path
}.

Fixpoint insert_sorted (x : string) (l : list string) : list string :=
  match l with
  | [] => [x]
  | y :: ys => if String.leb x y then x :: l else y :: insert_sorted x ys
  end.

(** [sorted(l)] on strings *)
Definition sorted (l : list string) : list string := fold_right insert_sorted [] l.

(** [path.relative_to(upload_dir).as_posix() for path in paths]; [None] when
    one [relative_to] raises. *)
Fixpoint relative_names (upload_dir : Path) (paths : list Path) : option (list string) :=
  match paths with
  | [] => Some []
  | p :: ps =>
      match PurePath.relative_to p upload_dir, relative_names upload_dir ps with
      | Some r, Some rs => Some (PurePath.as_posix r :: rs)
      | _, _ => None
      end
  end.

Definition not_in_upload_dir : exn :=
  Raise ValueError "path is not in the subpath of the upload directory".

(** The [for storage in uploads] loop of [convert] on the file system: the
    first upload that cannot be saved raises. *)
Fixpoint save_uploads {fs : FileSystem} (destinations : list Path) : option exn :=
  match destinations with
  | [] => None
  | destination :: rest =>
      match save_upload destination with
      | Some exc => Some exc
      | None => save_uploads rest
      end
  end.

(** [convert], given the directory [tempfile.mkdtemp] creates and the id
    [uuid4] draws; [uploads] are the file names of the request.  It ends with
    an exception (a server error) and the state it leaves, or with a
    response, the new state and the worker it started.  On the rejections the
    temporary directory is created and removed again, so the state is
    unchanged; an exception leaves the handler before any [rmtree], so the
    temporary directory stays. *)
Definition convert {fs : FileSystem} (temp_dir : Path) (uuid : string)
    (uploads : list string) (s : Server)
  : (exn * Server) + (response * Server * option worker_args) :=
  if (match uploads with [] => true | _ => false end
      || List.forallb (fun f => String.eqb f "") uploads)%bool then
    inr (json_error 400 "Please choose at least one video file or folder." None, s, None)
  else
    let upload_dir := temp_dir // PurePath.parse "uploads" in
    let output_dir := temp_dir // PurePath.parse "outputs" in
    let saved_files :=
      List.map (fun f => upload_dir // _sanitize_relative_path f)
               (List.filter (fun f => negb (String.eqb f "")) uploads) in
    let abandoned := {| jobs := jobs s; temp_dirs := temp_dirs s ∪ {[temp_dir]} |} in
    match save_uploads saved_files with
    | Some exc => inl (exc, abandoned)
    | None =>
    match saved_files with
    | [] => inr (json_error 400 "No files were uploaded." None, s, None)
    | _ =>
        let supported_files := _filter_supported saved_files in
        match supported_files with
        | [] =>
            match relative_names upload_dir saved_files with
            | None => inl (not_in_upload_dir, abandoned)
            | Some unsupported =>
                inr (json_error 400 "No supported video files were uploaded."
                                (Some (sorted unsupported)), s, None)
            end
        | _ =>
            match relative_names upload_dir
                    (List.filter (fun p => negb (bool_decide (p ∈ supported_files)))
                                 saved_files) with
            | None => inl (not_in_upload_dir, abandoned)
            | Some unsupported =>
                let job :=
                  {| id := uuid; status := pending;
                     total_files := Z.of_nat (List.length supported_files);
                     converted := 0; processed_files := 0; errors := [];
                     message := Some "Preparing conversion...";
                     download_path := None; temp_dir := Some temp_dir;
                     generated_files := []; unsupported_files := sorted unsupported;
                     current_file := None; current_progress := 0 |} in
                inr (json_job_id uuid,
                     {| jobs := <[uuid := job]> (jobs s);
                        temp_dirs := temp_dirs s ∪ {[temp_dir]} |},
                     Some (mkArgs uuid upload_dir output_dir supported_files))
            end
        end
    end
    end.

(** [status]: the projection of the job, with a download link once there is
    something to download. *)
Definition status_payload (s : Server) (job_id : string)
  : option (ConversionJob * option string) :=
  match jobs s !! job_id with
  | None => None
  | Some job =>
      Some (job,
            match status job, download_path job with
            | completed, Some _ => Some ("/download/" +:+ id job)
            | _, _ => None
            end)
  end.

(** [download] with its [_cleanup] hook, which runs once the response is
    made. *)
Definition download (s : Server) (job_id : string) : response * Server :=
  match jobs s !! job_id with
  | None => (abort_404, s)
  | Some job =>
      match status job, download_path job with
      | completed, Some path =>
          (send_file path (PurePath.name path),
           {| jobs := delete job_id (jobs s);
              temp_dirs := match temp_dir job with
                           | Some d => temp_dirs s ∖ {[d]}
                           | None => temp_dirs s
                           end |})
      | _, _ => (abort_404, s)
      end
  end.

(** ** File systems for the examples *)

(** [str(exc)] of the [IsADirectoryError] the operating system raises for
    [path]. *)
Definition is_a_directory (path : Path) : exn :=
  Raise OSError ("[Errno 21] Is a directory: '" +:+ PurePath.as_posix path +:+ "'").

(** A file system on which every save and every archive succeeds. *)
Definition fs_ok : FileSystem :=
  {| save_upload := fun _ => None; write_archive := fun _ _ => None |}.

(** A file system on which the paths [dirs] are directories: no upload can
    be saved over one of them and no archive can be opened at one of them;
    everything else succeeds. *)
Definition fs_with_dirs (dirs : list Path) : FileSystem :=
  {| save_upload := fun destination =>
       if bool_decide (destination ∈ dirs) then Some (is_a_directory destination)
       else None;
     write_archive := fun zip_path _ =>
       if bool_decide (zip_path ∈ dirs) then Some (is_a_directory zip_path)
       else None |}.

(** ** Concrete inputs used by the examples below *)

Definition upload_dir_example : Path := PurePath.parse "/tmp/convert_job_ab12/uploads".

Definition output_dir_example : Path := PurePath.parse "/tmp/convert_job_ab12/outputs".

Definition temp_dir_example : Path := PurePath.parse "/tmp/convert_job_ab12".

Definition zip_path_example : Path := output_dir_example // PurePath.parse "converted_audio.zip".

Definition job_done_example : ConversionJob :=
  {| id := "job-1"; status := completed; total_files := 1; converted := 1;
   processed_files := 1; errors := []; message := Some "Conversion completed!";
   download_path := Some zip_path_example; temp_dir := Some temp_dir_example;
   generated_files := ["a.mp3"]; unsupported_files := [];
   current_file := None; current_progress := 100 |}.

Definition server_example : Server :=
  {| jobs := {[ "job-1" := job_done_example ]}; temp_dirs := {[ temp_dir_example ]} |}.

(** ** Reading the traces *)

(** The job record after the trace [t], for the job [job_id]. *)
Definition job_step (job_id : string) (job : ConversionJob) (e : effect) : ConversionJob :=
  match e with
  | Update i changes => if String.eqb i job_id then fold_left setattr changes job else job
  | _ => job
  end.

Definition job_after (job_id : string) (job : ConversionJob) (t : list effect)
  : ConversionJob :=
  fold_left (job_step job_id) t job.

(** The values written to [current_progress] along a trace, in order. *)
Definition progress_written (changes : list change) : list Z :=
  flat_map (fun c => match c with set_current_progress p => [p] | _ => [] end) changes.

Definition published (t : list effect) : list Z :=
  flat_map (fun e => match e with Update _ changes => progress_written changes | _ => [] end) t.

(** ** The normalization policy in the words of the specification *)

Definition clamp_percent (r : Z) : Z := Z.max 0 (Z.min 100 r).

(** The total an event reports, under the field names [total] or [n]. *)
Definition reported_total (b : Bar) : pyval :=
  Py.or_ (Py.or_ (bar_get b "total") (bar_get b "n")) (PInt 0).

(** The completed count an event reports, under the field names [index],
    [value] or [current]. *)
Definition reported_completed (b : Bar) : pyval :=
  match bar_get b "index", bar_get b "value" with
  | PNone, PNone => bar_get b "current"
  | PNone, v => v
  | v, _ => v
  end.

Definition logger_keys : list string := ["chunk"; "chunks"; "t"].

(** "Every event that carries a direct fraction publishes a percentage". *)
Definition every_fraction_is_published : Prop :=
  forall (job_id : string) (bars : Bars) (b : Bar),
    first_bar bars logger_keys = Some b ->
    bar_get b "fraction" <> PNone ->
    exists p : Z, 0 <= p <= 100
      /\ JobProgressLogger.callback job_id bars
         = call_update_job job_id [set_current_progress p].


(** An event whose fraction is the finite number 2^1020. *)
Definition bars_huge_fraction : Bars :=
  {[ "chunk" := {[ "fraction" := PFloat 0x1p+1020%float ]} ]}.

Definition bars_fraction (f : float) : Bars :=
  {[ "chunk" := {[ "fraction" := PFloat f ]} ]}.

Definition bars_index (index total : Z) : Bars :=
  {[ "chunk" := {[ "index" := PInt index; "total" := PInt total ]} ]}.

(** A bar with a title and nothing to derive a fraction from. *)
Definition bars_untouched : Bars := {[ "chunk" := {[ "message" := PNone; "indent" := PInt 0 ]} ]}.


(** A media library whose audio writer reports 0, 2 and 4 of 4 chunks. *)
Definition lib_regular (path : string) : clip :=
  clip_opened (Some (mkWrite [bars_index (-1) 4; bars_index 0 4; bars_index 2 4;
                              bars_index 4 4] None)).

(** The effects of a conversion seen from the registry: apart from the media
    library's own work, single writes of a percentage in [0, 100] to the
    [current_progress] of the job. *)
Definition progress_effect (job_id : string) (e : effect) : Prop :=
  match e with
  | Update i changes =>
      i = job_id /\ exists p, changes = [set_current_progress p] /\ 0 <= p <= 100
  | _ => True
  end.



(** The record with its [current_progress] forgotten. *)
Definition forget_progress (job : ConversionJob) : ConversionJob :=
  setattr job (set_current_progress 0).


Definition video_a_example : Path := upload_dir_example // PurePath.parse "a.mp4".
Definition video_b_example : Path := upload_dir_example // PurePath.parse "b.mp4".
Definition video_c_example : Path := upload_dir_example // PurePath.parse "c.mp4".
Definition audio_a_example : Path := output_dir_example // PurePath.parse "a.mp3".

(** The record [convert] registers for a request with [n] supported files. *)
Definition job_pending_example (n : Z) : ConversionJob :=
  {| id := "job-1"; status := pending; total_files := n; converted := 0;
     processed_files := 0; errors := []; message := Some "Preparing conversion...";
     download_path := None; temp_dir := Some temp_dir_example;
     generated_files := []; unsupported_files := [];
     current_file := None; current_progress := 0 |}.

Definition jobs_example (n : Z) : Jobs := {[ "job-1" := job_pending_example n ]}.

(** ** The worker, turn by turn *)

Definition initial_update (job_id : string) : effect :=
  Update job_id [set_status running; set_message (Some "Converting videos...");
                 set_errors []; set_current_progress 0].

Definition start_update (job_id : string) (relative : Path) (index : Z) : effect :=
  Update job_id [set_current_file (Some (PurePath.as_posix relative));
                 set_processed_files (index - 1); set_current_progress 0].

Definition fatal_update (job_id : string) (msg : string) (errors : list string)
    (index : Z) : effect :=
  Update job_id [set_status failed; set_message (Some msg); set_errors errors;
                 set_processed_files index; set_current_file None;
                 set_current_progress 0].

Definition finally_update (job_id : string) (errors : list string) (index : Z)
    (success : bool) : effect :=
  Update job_id [set_errors errors; set_processed_files index;
                 set_current_progress (if success then 100 else 0)].

Definition converted_update (job_id : string) (generated : list (Path * Path)) : effect :=
  Update job_id [set_converted (Z.of_nat (List.length generated))].

(** The effects of a turn after the conversion ended with [r], and how the
    turn ends. *)
Definition after_conversion (job_id : string) (index : Z) (relative audio_relative : Path)
    (errors : list string) (generated : list (Path * Path)) (r : exn + Path)
  : list effect * flow :=
  match r with
  | inl exc =>
      if is_ModuleNotFoundError exc then
        ([fatal_update job_id (str_exn exc) (errors ++ [str_exn exc]) index;
          finally_update job_id (errors ++ [str_exn exc]) index false],
         returned)
      else
        let errors := errors ++ [PurePath.as_posix relative +:+ ": " +:+ str_exn exc] in
        ([finally_update job_id errors index false], next_file errors generated)
  | inr produced =>
      let generated := generated ++ [(produced, audio_relative)] in
      ([converted_update job_id generated; finally_update job_id errors index true],
       next_file errors generated)
  end.

(** The conversion a turn of the worker runs. *)
Definition conversion (lib : option (string -> clip)) (job_id : string)
    (output_dir video_path audio_relative : Path) : M Path :=
  video_to_audio_file lib video_path (output_dir // audio_relative)
                      (Some (JobProgressLogger.callback job_id)).

(** The worker up to the end of the turns for the files [done]. *)
Definition loop_entry (lib : option (string -> clip)) (job_id : string)
    (upload_dir output_dir : Path) (done : list Path) : M flow :=
  emit (initial_update job_id) ;;
  process_files lib job_id upload_dir output_dir 1 done [] [].

(** What [convert] guarantees of the record it registers for the files it
    hands to the worker. *)
Definition newly_created (job : ConversionJob) (supported_files : list Path) : Prop :=
  status job = pending
  /\ total_files job = Z.of_nat (List.length supported_files)
  /\ converted job = 0
  /\ processed_files job = 0.

(** The invariant of the worker's loop at the entry of the turn [index]. *)
Definition loop_invariant (index : Z) (errs : list string)
    (generated : list (Path * Path)) (job : ConversionJob) : Prop :=
  processed_files job = index - 1
  /\ converted job = Z.of_nat (List.length generated)
  /\ Z.of_nat (List.length generated) <= index - 1
  /\ errors job = errs.

(** The net change a turn makes to the job record. *)
Definition turn_changes (index : Z) (relative audio_relative : Path)
    (errs : list string) (generated : list (Path * Path)) (r : exn + Path)
  : list change :=
  match r with
  | inl exc =>
      if is_ModuleNotFoundError exc then
        [set_status failed; set_message (Some (str_exn exc));
         set_errors (errs ++ [str_exn exc]); set_processed_files index;
         set_current_file None; set_current_progress 0]
      else
        [set_current_file (Some (PurePath.as_posix relative));
         set_errors (errs ++ [PurePath.as_posix relative +:+ ": " +:+ str_exn exc]);
         set_processed_files index; set_current_progress 0]
  | inr produced =>
      [set_current_file (Some (PurePath.as_posix relative));
       set_converted (Z.of_nat (List.length (generated ++ [(produced, audio_relative)])));
       set_errors errs; set_processed_files index; set_current_progress 100]
  end.

(** A media library for which [a.mp4] converts, [b.mp4] has no audio track
    and opening anything else fails on a missing module. *)
Definition lib_example (path : string) : clip :=
  if String.eqb path "/tmp/convert_job_ab12/uploads/a.mp4" then
    clip_opened (Some (mkWrite [bars_index (-1) 4; bars_index 0 4; bars_index 2 4;
                                bars_index 4 4] None))
  else if String.eqb path "/tmp/convert_job_ab12/uploads/b.mp4" then clip_opened None
  else clip_raises (Raise ModuleNotFoundError "No module named 'imageio_ffmpeg'").

(** ** The counters of a job *)

(** The ordering of the counters stated in the data model. *)
Definition counters_ordered (job : ConversionJob) : Prop :=
  0 <= processed_files job <= total_files job
  /\ 0 <= converted job <= processed_files job.

(** The ordering that holds at every moment: [converted] may be one ahead of
    [processed_files]. *)
Definition counters_bounded (job : ConversionJob) : Prop :=
  0 <= processed_files job <= total_files job
  /\ 0 <= converted job <= processed_files job + 1
  /\ converted job <= total_files job.

(** "Every state of a job a reader can observe has ordered counters". *)
Definition counters_always_ordered : Prop :=
  forall (fs : FileSystem) (lib : option (string -> clip)) (job_id : string)
         (upload_dir output_dir : Path) (files : list Path) (jobs : Jobs)
         (job : ConversionJob) (seen : Jobs),
    jobs !! job_id = Some job ->
    newly_created job files ->
    observable jobs (trace (_process_job lib job_id upload_dir output_dir files)) seen ->
    exists j, seen !! job_id = Some j /\ counters_ordered j.

(** [P] holds of the job after every prefix of the trace. *)
Definition always (P : ConversionJob -> Prop) (job_id : string) (job : ConversionJob)
    (t : list effect) : Prop :=
  forall k : nat, P (job_after job_id job (firstn k t)).

(** ** The folder converter, in the words of the specification *)




(** ** Safe path components *)

Definition bad_components : list string := [""; "."; ".."].

(** A component that is neither empty, ["."] nor [".."] and has no slash. *)
Definition safe_name (x : string) : bool :=
  (negb (mem_string x bad_components) && negb (Str.contains_slash x))%bool.

(** What the sanitizer guarantees of the components it returns. *)
Definition sanitized_names (l : list string) : Prop :=
  l = [".."] \/ Forall (fun x => safe_name x = true) l.

(** ** The archive, in the words of the specification *)

(** An entry of [generated] comes from one of the [files]: its archive name
    is the file's path relative to the upload directory with the extension
    replaced by [".mp3"]. *)
Definition generated_from (upload_dir : Path) (files : list Path) (g : Path * Path) : Prop :=
  exists video_path relative,
    In video_path files
    /\ PurePath.relative_to video_path upload_dir = Some relative
    /\ PurePath.with_suffix relative ".mp3" = Some (snd g).

(** The names of the entries of an archive, in order. *)
Definition entry_names (entries : list zip_entry) : list string :=
  List.map arcname entries.

(** The files [convert] saves are the sanitized upload names under the
    upload directory. *)
Definition saved_upload (upload_dir : Path) (video_path : Path) : Prop :=
  exists filename, video_path = upload_dir // _sanitize_relative_path filename.

(** A request with two videos and a text file, on an empty server. *)
Definition uploads_example : list string := ["a.mp4"; "b.mp4"; "notes.txt"].

Definition job_created_example : ConversionJob :=
  {| id := "job-1"; status := pending; total_files := 2; converted := 0;
     processed_files := 0; errors := []; message := Some "Preparing conversion...";
     download_path := None; temp_dir := Some temp_dir_example;
     generated_files := []; unsupported_files := ["notes.txt"];
     current_file := None; current_progress := 0 |}.

Definition server_started_example : Server :=
  {| jobs := <["job-1" := job_created_example]> ∅;
     temp_dirs := ∅ ∪ {[ temp_dir_example ]} |}.

Definition args_example : worker_args :=
  mkArgs "job-1" upload_dir_example output_dir_example [video_a_example; video_b_example].

Definition job_finished_example : ConversionJob :=
  job_after "job-1" job_created_example
    (trace (_process_job (fs := fs_ok) (Some lib_example) "job-1" upload_dir_example
              output_dir_example [video_a_example; video_b_example])).

(** ** Reading the traces: ownership, statuses, archives *)

(** An effect that writes to no job but [job_id]. *)
Definition own_effect (job_id : string) (e : effect) : Prop :=
  match e with
  | Update i _ => i = job_id
  | _ => True
  end.

(** The statuses a list of keyword arguments, and a trace, assign, in order. *)
Definition status_assigned (changes : list change) : list Status :=
  flat_map (fun c => match c with set_status v => [v] | _ => [] end) changes.

Definition status_written (t : list effect) : list Status :=
  flat_map (fun e => match e with Update _ changes => status_assigned changes | _ => [] end) t.

(** The archives a trace writes, in order. *)
Definition archives_written (t : list effect) : list (Path * list zip_entry) :=
  flat_map (fun e => match e with WriteZip z entries => [(z, entries)] | _ => [] end) t.

(** The order of the states of a job: [pending], then [running], then the
    two final states. *)
Definition status_rank (st : Status) : Z :=
  match st with
  | pending => 0
  | running => 1
  | completed => 2
  | failed => 2
  end.

Definition is_final (st : Status) : bool :=
  match st with completed | failed => true | _ => false end.

(** The fields of a record that only the completion update writes. *)
Definition same_outputs (a b : ConversionJob) : Prop :=
  download_path a = download_path b /\ generated_files a = generated_files b.

(** An effect that writes no archive. *)
Definition no_archive (e : effect) : Prop :=
  match e with
  | WriteZip _ _ => False
  | _ => True
  end.

(** The final message of a job whose worker went through all the files. *)
Definition final_message (converted_count : Z) (errs : list string) : string :=
  if Z.eqb converted_count 0 then
    match errs with
    | [] => "No audio files were generated."
    | _ => "Conversion failed for all uploaded videos."
    end
  else
    match errs with
    | [] => "Conversion completed!"
    | _ => "Conversion completed with some errors."
    end.

(** Every record is registered under its own id. *)
Definition ids_agree (jobs : Jobs) : Prop :=
  forall (key : string) (job : ConversionJob), jobs !! key = Some job -> id job = key.

(** A saved upload with a relative file name can be handled by the worker. *)
Definition convertible (upload_dir : Path) (video_path : Path) : Prop :=
  exists relative audio_relative,
    PurePath.relative_to video_path upload_dir = Some relative
    /\ PurePath.with_suffix relative ".mp3" = Some audio_relative.

(** ** Reading the traces: the values written to a field *)

(** The values a list of keyword arguments, and a trace, assign to the field
    that [sel] selects, in order. *)
Definition assigned {A} (sel : change -> option A) (changes : list change) : list A :=
  flat_map (fun c => match sel c with Some v => [v] | None => [] end) changes.

Definition written {A} (sel : change -> option A) (t : list effect) : list A :=
  flat_map (fun e => match e with Update _ changes => assigned sel changes | _ => [] end) t.

Definition sel_processed_files (c : change) : option Z :=
  match c with set_processed_files v => Some v | _ => None end.

Definition sel_converted (c : change) : option Z :=
  match c with set_converted v => Some v | _ => None end.

Definition sel_errors (c : change) : option (list string) :=
  match c with set_errors v => Some v | _ => None end.

Definition sel_current_progress (c : change) : option Z :=
  match c with set_current_progress v => Some v | _ => None end.

(** Each value of [l] is related by [R] to the one before it, the first one
    to [lo]. *)
Fixpoint rises {A} (R : A -> A -> Prop) (lo : A) (l : list A) : Prop :=
  match l with
  | [] => True
  | x :: l' => R lo x /\ rises R x l'
  end.

(** ** The archive of a job *)

(** The archive of the job can be written: none is due, or the file system
    raises nothing when [_process_job] writes it. *)
Definition archive_ok {fs : FileSystem} (output_dir : Path) (errs : list string)
    (generated : list (Path * Path)) : Prop :=
  generated = []
  \/ write_archive (output_dir // PurePath.parse "converted_audio.zip")
                   (zip_entries generated errs) = None.

(** * Properties *)

(** ** Sanity checks of the embedding on concrete values *)

Example sanitize_plain :
  _sanitize_relative_path "album/./clip.MP4" = mkPath "" ["album"; "clip.MP4"].
Proof. reflexivity. Qed.

Example sanitize_dotdot :
  _sanitize_relative_path "../a/../b.mp4" = mkPath "" ["a"; "b.mp4"].
Proof. reflexivity. Qed.

Example sanitize_dot :
  _sanitize_relative_path "." = mkPath "" ["uploaded_file"].
Proof. reflexivity. Qed.

Example with_suffix_mp3 :
  PurePath.with_suffix (mkPath "" ["a"; "b.tar.mp4"]) ".mp3"
  = Some (mkPath "" ["a"; "b.tar.mp3"]).
Proof. reflexivity. Qed.

Example suffix_hidden : PurePath.suffix (mkPath "" [".bashrc"]) = "".
Proof. reflexivity. Qed.

Example round_half_even_ties :
  Py.round_half_even 0.5%float = inr 0 /\ Py.round_half_even 1.5%float = inr 2
  /\ Py.round_half_even 2.5%float = inr 2 /\ Py.round_half_even (-2.5)%float = inr (-2)
  /\ Py.round_half_even 0x1.cbfffffffffffp+5%float = inr 57
  /\ Py.round_half_even 0x1p+60%float = inr (2 ^ 60).
Proof. vm_compute. repeat split; reflexivity. Qed.

Example int_truediv_3_12 : Py.int_truediv 3 12 = inr 0.25%float.
Proof. vm_compute. reflexivity. Qed.

Example int_truediv_1_3 : Py.int_truediv 1 3 = inr (PrimFloat.div 1%float 3%float).
Proof. vm_compute. reflexivity. Qed.

Example int_truediv_big :
  Py.int_truediv (10 ^ 30) (3 * 10 ^ 29)
  = inr (PrimFloat.div 10%float 3%float).
Proof. vm_compute. reflexivity. Qed.

Example normpath_examples :
  ZipFile.normpath "a/./b//c.mp3" = "a/b/c.mp3" /\ ZipFile.normpath "a/../b.mp3" = "b.mp3"
  /\ ZipFile.normpath "../x" = "../x" /\ ZipFile.normpath "/../x" = "/x"
  /\ ZipFile.normpath "//a/" = "//a" /\ ZipFile.normpath "///a" = "/a"
  /\ ZipFile.stored_name "/etc/x.mp3" = "etc/x.mp3".
Proof. repeat split; reflexivity. Qed.

Example callback_examples :
  JobProgressLogger.callback "job-1" (bars_index (-1) 4)
  = call_update_job "job-1" [set_current_progress 0]
  /\ JobProgressLogger.callback "job-1" (bars_index 23 40)
     = call_update_job "job-1" [set_current_progress 57]
  /\ JobProgressLogger.callback "job-1" (bars_index 1 8)
     = call_update_job "job-1" [set_current_progress 12]
  /\ JobProgressLogger.callback "job-1" (bars_index 3 8)
     = call_update_job "job-1" [set_current_progress 38]
  /\ JobProgressLogger.callback "job-1" (bars_fraction nan)
     = raise (Raise ValueError "cannot convert float NaN to integer")
  /\ JobProgressLogger.callback "job-1" {[ "t" := ∅; "frames" := {[ "index" := PInt 1 ]} ]}
     = ret tt.
Proof. repeat split; vm_compute; reflexivity. Qed.

Example worker_trace_example :
  trace (_process_job (fs := fs_ok) (Some lib_example) "job-1" upload_dir_example output_dir_example
           [video_a_example; video_b_example])
  = [Update "job-1" [set_status running; set_message (Some "Converting videos...");
                     set_errors []; set_current_progress 0];
     Update "job-1" [set_current_file (Some "a.mp4"); set_processed_files 0;
                     set_current_progress 0];
     OpenClip "/tmp/convert_job_ab12/uploads/a.mp4";
     WriteAudio "/tmp/convert_job_ab12/outputs/a.mp3";
     Update "job-1" [set_current_progress 0];
     Update "job-1" [set_current_progress 0];
     Update "job-1" [set_current_progress 50];
     Update "job-1" [set_current_progress 100];
     Update "job-1" [set_converted 1];
     Update "job-1" [set_errors []; set_processed_files 1; set_current_progress 100];
     Update "job-1" [set_current_file (Some "b.mp4"); set_processed_files 1;
                     set_current_progress 0];
     OpenClip "/tmp/convert_job_ab12/uploads/b.mp4";
     Update "job-1" [set_errors ["b.mp4: Video 'b.mp4' has no audio track"];
                     set_processed_files 2; set_current_progress 0];
     WriteZip zip_path_example
       [mkEntry "a.mp3" (from_file audio_a_example);
        mkEntry "conversion_report.txt"
          (from_text ("Some files could not be converted:"
                      +:+ String "010" "b.mp4: Video 'b.mp4' has no audio track"))];
     Update "job-1" [set_status completed;
                     set_message (Some "Conversion completed with some errors.");
                     set_download_path (Some zip_path_example);
                     set_generated_files ["a.mp3"]; set_current_file None;
                     set_current_progress 100]].
Proof. vm_compute. reflexivity. Qed.

Example worker_without_moviepy :
  trace (_process_job (fs := fs_ok) None "job-1" upload_dir_example output_dir_example
           [video_a_example; video_b_example])
  = [Update "job-1" [set_status running; set_message (Some "Converting videos...");
                     set_errors []; set_current_progress 0];
     Update "job-1" [set_current_file (Some "a.mp4"); set_processed_files 0;
                     set_current_progress 0];
     fatal_update "job-1"
       "moviepy is required to convert videos. Install it with `pip install moviepy`."
       ["moviepy is required to convert videos. Install it with `pip install moviepy`."] 1;
     finally_update "job-1"
       ["moviepy is required to convert videos. Install it with `pip install moviepy`."]
       1 false].
Proof. vm_compute. reflexivity. Qed.

Example folder_example :
  outcome (video_to_audio_folder (Some lib_example)
             [(video_a_example, true); (video_b_example, true);
              (upload_dir_example // PurePath.parse "A.MP4", true);
              (upload_dir_example // PurePath.parse "clips.mp4", false);
              (upload_dir_example // PurePath.parse "notes.txt", true)]
             "/tmp/convert_job_ab12/uploads" (Some "/tmp/out") "mp3")
  = inr [mkPath "/" ["tmp"; "out"; "a.mp3"]].
Proof. vm_compute. reflexivity. Qed.

Example convert_example :
  convert (fs := fs_ok) temp_dir_example "job-1" uploads_example (mkServer ∅ ∅)
  = inr (json_job_id "job-1", server_started_example, Some args_example).
Proof. vm_compute. reflexivity. Qed.

Example convert_rejects_unsupported :
  convert (fs := fs_ok) temp_dir_example "job-1" ["notes.txt"; "b/../a.doc"] (mkServer ∅ ∅)
  = inr (json_error 400 "No supported video files were uploaded."
                    (Some ["b/a.doc"; "notes.txt"]), mkServer ∅ ∅, None).
Proof. vm_compute. reflexivity. Qed.

(** ** The download endpoint *)

Lemma download_unknown (s : Server) (job_id : string) :
  jobs s !! job_id = None -> download s job_id = (abort_404, s).
Proof. intros H. unfold download. now rewrite H. Qed.

Lemma download_not_completed (s : Server) (job_id : string) (job : ConversionJob) :
  jobs s !! job_id = Some job -> status job <> completed ->
  download s job_id = (abort_404, s).
Proof.
  intros H Hst. unfold download. rewrite H.
  destruct (status job); try reflexivity. now contradict Hst.
Qed.

(** C8: a download answers not-found unless the job is registered and
    [completed]; the download of a completed job answers with its archive,
    removes the record from the registry and the job's temporary directory
    from the disk, and a second download of the same id answers not-found. *)
Theorem download_single_shot (s : Server) (job_id : string) :
  (fst (download s job_id) <> abort_404 ->
   exists job, jobs s !! job_id = Some job /\ status job = completed)
  /\ (forall job path,
        jobs s !! job_id = Some job -> status job = completed ->
        download_path job = Some path ->
        let s' := snd (download s job_id) in
        fst (download s job_id) = send_file path (PurePath.name path)
        /\ jobs s' !! job_id = None
        /\ (forall d, temp_dir job = Some d -> d ∉ temp_dirs s')
        /\ download s' job_id = (abort_404, s')).
Proof.
  split.
  - destruct (jobs s !! job_id) as [job|] eqn:Hjob.
    + destruct (decide (status job = completed)) as [Hc|Hc].
      * intros _. now exists job.
      * rewrite (download_not_completed _ _ _ Hjob Hc). intros H. exfalso. now apply H.
    + rewrite (download_unknown _ _ Hjob). intros H. exfalso. now apply H.
  - intros job path Hjob Hst Hdl. unfold download at 1 2. rewrite Hjob, Hst, Hdl.
    cbn [fst snd]. cbv zeta.
    assert (Hgone : delete job_id (jobs s) !! job_id = None)
      by apply lookup_delete_eq.
    repeat split.
    + exact Hgone.
    + intros d Hd. rewrite Hd. cbn.
      intros [_ Hn]%elem_of_difference. apply Hn. now apply elem_of_singleton.
    + apply download_unknown. exact Hgone.
Qed.

Lemma download_single_shot_witness :
  fst (download server_example "job-1")
  = send_file zip_path_example "converted_audio.zip"
  /\ jobs (snd (download server_example "job-1")) !! "job-1" = None
  /\ (temp_dir_example ∉ temp_dirs (snd (download server_example "job-1")))
  /\ fst (download (snd (download server_example "job-1")) "job-1") = abort_404.
Proof.
  destruct (download_single_shot server_example "job-1") as [_ H].
  destruct (H job_done_example zip_path_example eq_refl eq_refl eq_refl)
    as (Hresp & Hgone & Htmp & Hagain).
  split; [|split; [|split]].
  - rewrite Hresp. reflexivity.
  - exact Hgone.
  - apply Htmp. reflexivity.
  - rewrite Hagain. reflexivity.
Defined.

(** ** The upload path sanitizer *)

(** C9: on the file name ["/etc/passwd.mp4"] the sanitizer keeps the root and
    returns an absolute path, so the destination [upload_dir / relative_path]
    is ["/etc/passwd.mp4"], outside the upload directory; on [".."] its
    fallback to the bare name returns the path [".."], the parent of the
    upload directory. *)
Theorem sanitize_keeps_root_and_dotdot :
  _sanitize_relative_path "/etc/passwd.mp4" = mkPath "/" ["etc"; "passwd.mp4"]
  /\ upload_dir_example // _sanitize_relative_path "/etc/passwd.mp4"
     = mkPath "/" ["etc"; "passwd.mp4"]
  /\ PurePath.relative_to
       (upload_dir_example // _sanitize_relative_path "/etc/passwd.mp4")
       upload_dir_example = None
  /\ _sanitize_relative_path ".." = mkPath "" [".."]
  /\ PurePath.as_posix (upload_dir_example // _sanitize_relative_path "..")
     = "/tmp/convert_job_ab12/uploads/..".
Proof. repeat split; reflexivity. Qed.

(** ** The progress logger *)

Lemma clamp_percent_range (r : Z) : 0 <= clamp_percent r <= 100.
Proof. unfold clamp_percent. lia. Qed.

Lemma reported_completed_eq (b : Bar) :
  reported_completed b
  = let completed := bar_get b "index" in
    let completed := if Py.is_None completed then bar_get b "value" else completed in
    if Py.is_None completed then bar_get b "current" else completed.
Proof.
  unfold reported_completed.
  destruct (bar_get b "index"), (bar_get b "value"); reflexivity.
Qed.

Lemma is_None_true (v : pyval) : Py.is_None v = true <-> v = PNone.
Proof. destruct v; cbn; split; congruence. Qed.

Lemma is_None_false (v : pyval) : Py.is_None v = false <-> v <> PNone.
Proof. destruct v; cbn; split; congruence. Qed.

(** The fraction the callback works with, in terms of what the event
    reports. *)
Lemma derived_fraction_cases (b : Bar) :
  derived_fraction b
  = if Py.is_None (bar_get b "fraction") then
      if (Py.truthy (reported_total b) && negb (Py.is_None (reported_completed b)))%bool
      then match Py.truediv (reported_completed b) (reported_total b) with
           | inl e => inl e
           | inr q => inr (PFloat q)
           end
      else inr PNone
    else inr (bar_get b "fraction").
Proof.
  unfold derived_fraction. rewrite reported_completed_eq. reflexivity.
Qed.

(** The callback never writes anything but one [current_progress] in
    [0, 100] for its own job. *)
Lemma callback_trace (job_id : string) (bars : Bars) :
  trace (JobProgressLogger.callback job_id bars) = []
  \/ exists p, 0 <= p <= 100
       /\ JobProgressLogger.callback job_id bars
          = call_update_job job_id [set_current_progress p].
Proof.
  unfold JobProgressLogger.callback.
  destruct (first_bar bars _) as [b|]; [|now left].
  destruct (derived_fraction b) as [e|fraction]; [now left|].
  destruct (Py.is_None fraction); [now left|].
  unfold percent_of.
  destruct (Py.to_float fraction) as [e|f]; [now left|].
  destruct (Py.round_half_even _) as [e|r]; [now left|].
  right. exists (Z.max 0 (Z.min 100 r)). split; [lia|reflexivity].
Qed.

(** C3, the claim as stated, fails: the event [{fraction: 2^1020}] carries a
    direct fraction, a finite number, but [float(fraction) * 100] overflows
    to infinity and [round] raises [OverflowError]; nothing is published. *)
Lemma huge_fraction_is_not_published : ~ every_fraction_is_published.
Proof.
  intros H.
  destruct (H "job-1" bars_huge_fraction {[ "fraction" := PFloat 0x1p+1020%float ]})
    as (p & _ & Hp).
  - reflexivity.
  - discriminate.
  - apply (f_equal outcome) in Hp. vm_compute in Hp. discriminate.
Qed.

(** C3, amended: for the bar [b] the callback selects, (1) if [b] carries a
    direct fraction whose product with 100 is a finite float that rounds to
    [r], the callback publishes [r] clamped to [0, 100]; (2) otherwise, if it
    reports a true total and a completed count whose quotient times 100 is a
    finite float that rounds to [r], it publishes [r] clamped to [0, 100];
    (3) otherwise, and also when no bar is selected, it performs no update and
    raises nothing, so the registry keeps the last percentage.  [{fraction:
    0.5}] publishes 50, [{index: 3, total: 12}] publishes 25, an event with
    nothing to derive publishes nothing and [{fraction: 1.4}] publishes 100. *)
Theorem callback_normalizes (job_id : string) (bars : Bars) :
  (first_bar bars logger_keys = None -> JobProgressLogger.callback job_id bars = ret tt)
  /\ (forall b, first_bar bars logger_keys = Some b ->
        (forall f r,
            bar_get b "fraction" <> PNone ->
            Py.to_float (bar_get b "fraction") = inr f ->
            Py.round_half_even (PrimFloat.mul f Py.hundred) = inr r ->
            JobProgressLogger.callback job_id bars
            = call_update_job job_id [set_current_progress (clamp_percent r)])
        /\ (forall q r,
              bar_get b "fraction" = PNone ->
              Py.truthy (reported_total b) = true ->
              reported_completed b <> PNone ->
              Py.truediv (reported_completed b) (reported_total b) = inr q ->
              Py.round_half_even (PrimFloat.mul q Py.hundred) = inr r ->
              JobProgressLogger.callback job_id bars
              = call_update_job job_id [set_current_progress (clamp_percent r)])
        /\ (bar_get b "fraction" = PNone ->
            Py.truthy (reported_total b) = false \/ reported_completed b = PNone ->
            JobProgressLogger.callback job_id bars = ret tt))
  /\ (forall r, 0 <= clamp_percent r <= 100)
  /\ (forall jobs, JobProgressLogger.callback job_id bars = ret tt ->
        run jobs (trace (JobProgressLogger.callback job_id bars)) = jobs)
  /\ JobProgressLogger.callback job_id (bars_fraction 0.5%float)
     = call_update_job job_id [set_current_progress 50]
  /\ JobProgressLogger.callback job_id (bars_index 3 12)
     = call_update_job job_id [set_current_progress 25]
  /\ JobProgressLogger.callback job_id ∅ = ret tt
  /\ JobProgressLogger.callback job_id {[ "chunk" := ∅ ]} = ret tt
  /\ JobProgressLogger.callback job_id bars_untouched = ret tt
  /\ JobProgressLogger.callback job_id (bars_fraction 0x1.6666666666666p+0%float)
     = call_update_job job_id [set_current_progress 100].
Proof.
  split; [|split; [|split; [|split]]].
  - intros Hb. unfold JobProgressLogger.callback. fold logger_keys. now rewrite Hb.
  - intros b Hb. unfold JobProgressLogger.callback. fold logger_keys. rewrite Hb.
    rewrite derived_fraction_cases. split; [|split].
    + intros f r Hfr Hf Hr. apply is_None_false in Hfr. rewrite Hfr.
      cbv iota beta. rewrite Hfr.
      unfold percent_of. rewrite Hf, Hr. reflexivity.
    + intros q r Hfr Ht Hc Hq Hr. rewrite Hfr. cbn [Py.is_None].
      apply is_None_false in Hc. rewrite Ht, Hc, Hq. cbn [andb negb Py.is_None].
      unfold percent_of. cbn [Py.to_float]. rewrite Hr. reflexivity.
    + intros Hfr Hnone. rewrite Hfr. cbn [Py.is_None].
      destruct Hnone as [Ht|Hc].
      * rewrite Ht. reflexivity.
      * rewrite Hc. cbn [Py.is_None negb]. rewrite andb_false_r. reflexivity.
  - apply clamp_percent_range.
  - intros jobs Hdrop. rewrite Hdrop. reflexivity.
  - repeat split; vm_compute; reflexivity.
Qed.

Lemma callback_normalizes_witness :
  JobProgressLogger.callback "job-1" (bars_index 23 40)
  = call_update_job "job-1" [set_current_progress 57]
  /\ JobProgressLogger.callback "job-1" (bars_fraction 0.25%float)
     = call_update_job "job-1" [set_current_progress 25]
  /\ JobProgressLogger.callback "job-1" bars_untouched = ret tt.
Proof.
  destruct (callback_normalizes "job-1" (bars_index 23 40)) as (_ & H & _).
  destruct (H {[ "index" := PInt 23; "total" := PInt 40 ]} eq_refl) as (_ & Hratio & _).
  destruct (callback_normalizes "job-1" (bars_fraction 0.25%float)) as (_ & H' & _).
  destruct (H' {[ "fraction" := PFloat 0.25%float ]} eq_refl) as (Hfrac & _ & _).
  destruct (callback_normalizes "job-1" bars_untouched) as (_ & H'' & _).
  destruct (H'' {[ "message" := PNone; "indent" := PInt 0 ]} eq_refl) as (_ & _ & Hdrop).
  split; [|split].
  - apply (Hratio (PrimFloat.div 23%float 40%float) 57).
    + reflexivity.
    + reflexivity.
    + discriminate.
    + vm_compute. reflexivity.
    + vm_compute. reflexivity.
  - apply (Hfrac 0.25%float 25).
    + discriminate.
    + reflexivity.
    + vm_compute. reflexivity.
  - apply Hdrop.
    + reflexivity.
    + left. reflexivity.
Defined.

(** ** Traces and the registry *)

Lemma trace_bind {A B} (m : M A) (k : A -> M B) :
  trace (bind m k)
  = match outcome m with
    | inl _ => trace m
    | inr a => trace m ++ trace (k a)
    end.
Proof. unfold bind. now destruct (outcome m). Qed.

Lemma outcome_bind {A B} (m : M A) (k : A -> M B) :
  outcome (bind m k)
  = match outcome m with
    | inl e => inl e
    | inr a => outcome (k a)
    end.
Proof. unfold bind. now destruct (outcome m). Qed.

Lemma run_app (jobs : Jobs) (t1 t2 : list effect) :
  run jobs (t1 ++ t2) = run (run jobs t1) t2.
Proof. apply fold_left_app. Qed.

Lemma job_after_app (job_id : string) (job : ConversionJob) (t1 t2 : list effect) :
  job_after job_id job (t1 ++ t2) = job_after job_id (job_after job_id job t1) t2.
Proof. apply fold_left_app. Qed.

Lemma run_effect_lookup (jobs : Jobs) (job_id : string) (job : ConversionJob) (e : effect) :
  jobs !! job_id = Some job ->
  run_effect jobs e !! job_id = Some (job_step job_id job e).
Proof.
  intros Hjob. destruct e as [i changes| | | |]; cbn; try exact Hjob.
  unfold _update_job. destruct (String.eqb_spec i job_id) as [->|Hne].
  - rewrite Hjob. apply lookup_insert_eq.
  - destruct (jobs !! i); [|exact Hjob].
    etrans; [apply lookup_insert_ne; exact Hne|exact Hjob].
Qed.

(** The registry after a trace holds, for a registered job, the record the
    trace leaves. *)
Lemma run_lookup (t : list effect) (jobs : Jobs) (job_id : string) (job : ConversionJob) :
  jobs !! job_id = Some job ->
  run jobs t !! job_id = Some (job_after job_id job t).
Proof.
  revert jobs job. induction t as [|e t IH]; intros jobs job Hjob; [exact Hjob|].
  cbn. apply IH. now apply run_effect_lookup.
Qed.

Lemma job_step_progress (job_id : string) (job : ConversionJob) (e : effect) :
  progress_effect job_id e ->
  forget_progress (job_step job_id job e) = forget_progress job
  /\ current_progress (job_step job_id job e)
     = List.last (published [e]) (current_progress job).
Proof.
  destruct e as [i changes| | | |]; cbn; try (intros _; split; reflexivity).
  intros (-> & p & -> & _). rewrite String.eqb_refl. now destruct job.
Qed.

Lemma published_app (t1 t2 : list effect) :
  published (t1 ++ t2) = published t1 ++ published t2.
Proof. unfold published. apply flat_map_app. Qed.

Lemma last_cons_default {A} (l : list A) (x d d' : A) :
  List.last (x :: l) d = List.last (x :: l) d'.
Proof.
  revert x. induction l as [|y l IH]; intros x; [reflexivity|].
  change (List.last (y :: l) d = List.last (y :: l) d'). apply IH.
Qed.

Lemma last_app_default {A} (a b : list A) (d : A) :
  List.last (a ++ b) d = List.last b (List.last a d).
Proof.
  induction a as [|x a IH]; [reflexivity|].
  destruct a as [|y a].
  - destruct b as [|z b]; [reflexivity|]. cbn [app List.last]. apply last_cons_default.
  - exact IH.
Qed.

(** A trace of progress writes changes [current_progress] only, to the last
    percentage written. *)
Lemma job_after_progress (job_id : string) (t : list effect) (job : ConversionJob) :
  Forall (progress_effect job_id) t ->
  forget_progress (job_after job_id job t) = forget_progress job
  /\ current_progress (job_after job_id job t)
     = List.last (published t) (current_progress job).
Proof.
  revert job. induction t as [|e t IH]; intros job Ht; [split; reflexivity|].
  inversion Ht as [|? ? He Ht']; subst.
  destruct (job_step_progress job_id job e He) as [Hf Hc].
  destruct (IH (job_step job_id job e) Ht') as [Hf' Hc'].
  cbn [job_after fold_left]. fold (job_after job_id (job_step job_id job e) t).
  split; [congruence|].
  rewrite Hc', Hc. change (e :: t) with ([e] ++ t).
  rewrite published_app, last_app_default. reflexivity.
Qed.


(** ** The trace of a conversion *)

Lemma for_each_callback_progress (job_id : string) (events : list Bars) :
  Forall (progress_effect job_id)
         (trace (for_each (JobProgressLogger.callback job_id) events)).
Proof.
  induction events as [|bars events IH]; [constructor|].
  cbn [for_each]. rewrite trace_bind.
  assert (Hcb : Forall (progress_effect job_id)
                       (trace (JobProgressLogger.callback job_id bars))).
  { destruct (callback_trace job_id bars) as [->|(p & Hp & ->)]; [constructor|].
    repeat constructor. exists p. now split. }
  destruct (outcome _); [exact Hcb|]. apply Forall_app. now split.
Qed.


Lemma video_to_audio_file_trace (lib : string -> clip) (video_path audio_path : Path)
    (callback : Bars -> M unit) :
  trace (video_to_audio_file (Some lib) video_path audio_path (Some callback))
  = OpenClip (PurePath.as_posix video_path)
    :: match lib (PurePath.as_posix video_path) with
       | clip_opened (Some w) =>
           WriteAudio (PurePath.as_posix audio_path)
           :: trace (for_each callback (progress w))
       | _ => []
       end.
Proof.
  unfold video_to_audio_file, _require_moviepy, write_audiofile.
  destruct (lib _) as [e|[w|]]; try reflexivity.
  rewrite !trace_bind, !outcome_bind. cbn.
  rewrite ?trace_bind, ?outcome_bind.
  destruct (outcome (for_each callback (progress w))); cbn.
  - reflexivity.
  - destruct (raised w); cbn; now rewrite !app_nil_r.
Qed.

Lemma video_to_audio_file_outcome (lib : string -> clip) (video_path audio_path : Path)
    (callback : Bars -> M unit) :
  outcome (video_to_audio_file (Some lib) video_path audio_path (Some callback))
  = match lib (PurePath.as_posix video_path) with
    | clip_raises e => inl e
    | clip_opened None =>
        inl (Raise ValueError
               ("Video '" +:+ PurePath.name video_path +:+ "' has no audio track"))
    | clip_opened (Some w) =>
        match outcome (for_each callback (progress w)), raised w with
        | inl e, _ => inl e
        | inr _, Some e => inl e
        | inr _, None => inr audio_path
        end
    end.
Proof.
  unfold video_to_audio_file, _require_moviepy, write_audiofile.
  destruct (lib _) as [e|[w|]]; try reflexivity.
  rewrite !outcome_bind. cbn. rewrite ?outcome_bind.
  destruct (outcome (for_each callback (progress w))); cbn; [reflexivity|].
  destruct (raised w); reflexivity.
Qed.

Lemma video_to_audio_file_missing (video_path audio_path : Path)
    (logger : option (Bars -> M unit)) :
  video_to_audio_file None video_path audio_path logger
  = raise (Raise ModuleNotFoundError
      "moviepy is required to convert videos. Install it with `pip install moviepy`.").
Proof. reflexivity. Qed.

Lemma video_to_audio_file_progress (lib : option (string -> clip)) (job_id : string)
    (video_path audio_path : Path) :
  Forall (progress_effect job_id)
    (trace (video_to_audio_file lib video_path audio_path
              (Some (JobProgressLogger.callback job_id)))).
Proof.
  destruct lib as [lib|]; [|constructor].
  rewrite video_to_audio_file_trace. constructor; [exact I|].
  destruct (lib _) as [e|[w|]]; try constructor; [exact I|].
  apply for_each_callback_progress.
Qed.

(** ** Monotonicity of the published progress *)








(** ** One turn of the worker's loop *)

(** A turn for a file under the upload directory: the start update, the
    conversion, and what follows from how the conversion ended. *)
Lemma process_file_eq (lib : option (string -> clip)) (job_id : string)
    (upload_dir output_dir : Path) (index : Z) (video_path relative audio_relative : Path)
    (errs : list string) (generated : list (Path * Path)) :
  PurePath.relative_to video_path upload_dir = Some relative ->
  PurePath.with_suffix relative ".mp3" = Some audio_relative ->
  let conv := conversion lib job_id output_dir video_path audio_relative in
  let after := after_conversion job_id index relative audio_relative errs generated
                                (outcome conv) in
  process_file lib job_id upload_dir output_dir index video_path errs generated
  = mkM (start_update job_id relative index :: trace conv ++ fst after) (inr (snd after)).
Proof.
  intros Hrel Hsfx conv after. subst after conv. unfold process_file, conversion.
  rewrite Hrel. cbn [unwrap bind ret outcome trace app]. rewrite Hsfx.
  cbn [unwrap bind ret outcome trace app call_update_job emit attempt].
  generalize (video_to_audio_file lib video_path (output_dir // audio_relative)
                (Some (JobProgressLogger.callback job_id))).
  intros c. unfold after_conversion, start_update.
  destruct (outcome c) as [exc|produced]; [destruct (is_ModuleNotFoundError exc)|];
    cbn [bind ret outcome trace app call_update_job emit finally_clause fst snd];
    rewrite ?app_nil_r; reflexivity.
Qed.

(** A turn for a file that is not under the upload directory, or has no
    name, raises before any effect. *)
Lemma process_file_raises (lib : option (string -> clip)) (job_id : string)
    (upload_dir output_dir : Path) (index : Z) (video_path : Path)
    (errs : list string) (generated : list (Path * Path)) :
  (forall relative, PurePath.relative_to video_path upload_dir = Some relative ->
                    PurePath.with_suffix relative ".mp3" = None) ->
  exists e, process_file lib job_id upload_dir output_dir index video_path errs generated
            = raise e.
Proof.
  intros H. unfold process_file.
  destruct (PurePath.relative_to video_path upload_dir) as [relative|].
  - cbn [unwrap bind ret outcome trace app]. rewrite (H relative eq_refl).
    eexists. reflexivity.
  - eexists. reflexivity.
Qed.

Lemma forget_progress_eq (a b : ConversionJob) :
  forget_progress a = forget_progress b ->
  a = setattr b (set_current_progress (current_progress a)).
Proof. destruct a, b. cbn. intros [= -> -> -> -> -> -> -> -> -> -> -> ->]. reflexivity. Qed.

Lemma job_step_update (job_id : string) (job : ConversionJob) (changes : list change) :
  job_step job_id job (Update job_id changes) = fold_left setattr changes job.
Proof. cbn. now rewrite String.eqb_refl. Qed.

(** The conversion of a turn leaves the record as it was, up to
    [current_progress]. *)
Lemma conversion_job_after (lib : option (string -> clip)) (job_id : string)
    (output_dir video_path audio_relative : Path) (job : ConversionJob) :
  exists c,
    job_after job_id job (trace (conversion lib job_id output_dir video_path audio_relative))
    = setattr job (set_current_progress c).
Proof.
  eexists. apply forget_progress_eq.
  apply job_after_progress, video_to_audio_file_progress.
Qed.

(** The record a turn leaves. *)
Lemma process_file_job_after (lib : option (string -> clip)) (job_id : string)
    (upload_dir output_dir : Path) (index : Z) (video_path relative audio_relative : Path)
    (errs : list string) (generated : list (Path * Path)) (job : ConversionJob) :
  PurePath.relative_to video_path upload_dir = Some relative ->
  PurePath.with_suffix relative ".mp3" = Some audio_relative ->
  job_after job_id job
    (trace (process_file lib job_id upload_dir output_dir index video_path errs generated))
  = fold_left setattr
      (turn_changes index relative audio_relative errs generated
         (outcome (conversion lib job_id output_dir video_path audio_relative)))
      job.
Proof.
  intros Hrel Hsfx. rewrite (process_file_eq _ _ _ _ _ _ _ _ _ _ Hrel Hsfx).
  cbn [trace]. change (?e :: ?t ++ ?u) with ([e] ++ t ++ u).
  rewrite !job_after_app. unfold start_update at 1. cbn [job_after fold_left].
  rewrite job_step_update.
  destruct (conversion_job_after lib job_id output_dir video_path audio_relative
              (fold_left setattr
                 [set_current_file (Some (PurePath.as_posix relative));
                  set_processed_files (index - 1); set_current_progress 0] job))
    as [c ->].
  unfold after_conversion, turn_changes.
  destruct (outcome _) as [exc|produced]; [destruct (is_ModuleNotFoundError exc)|];
    unfold fatal_update, finally_update, converted_update;
    cbn [fst job_after fold_left job_step]; rewrite ?String.eqb_refl;
    destruct job; reflexivity.
Qed.

(** ** Laws of the effect monad *)

Lemma bind_ret_l {A B} (a : A) (k : A -> M B) : bind (ret a) k = k a.
Proof. unfold bind. cbn. now destruct (k a). Qed.

Lemma bind_ext {A B} (m : M A) (k k' : A -> M B) :
  (forall a, k a = k' a) -> bind m k = bind m k'.
Proof. intros H. unfold bind. destruct (outcome m); [reflexivity|]. now rewrite H. Qed.

Lemma bind_assoc {A B C} (m : M A) (k : A -> M B) (h : B -> M C) :
  bind (bind m k) h = bind m (fun a => bind (k a) h).
Proof.
  unfold bind. destruct (outcome m) as [e|a]; cbn; [reflexivity|].
  destruct (outcome (k a)); cbn; [reflexivity|]. now rewrite app_assoc.
Qed.

(** ** The worker's loop *)

(** The loop over [done ++ rest] is the loop over [done] followed, unless it
    returned, by the loop over [rest]. *)
Lemma process_files_app (lib : option (string -> clip)) (job_id : string)
    (upload_dir output_dir : Path) (done rest : list Path) (index : Z)
    (errs : list string) (generated : list (Path * Path)) :
  process_files lib job_id upload_dir output_dir index (done ++ rest) errs generated
  = (f <- process_files lib job_id upload_dir output_dir index done errs generated ;;
     match f with
     | returned => ret returned
     | next_file errs' generated' =>
         process_files lib job_id upload_dir output_dir
                       (index + Z.of_nat (List.length done)) rest errs' generated'
     end).
Proof.
  revert index errs generated.
  induction done as [|v done IH]; intros index errs generated.
  - cbn [app process_files List.length]. rewrite bind_ret_l. now rewrite Z.add_0_r.
  - cbn [app process_files]. rewrite bind_assoc. apply bind_ext. intros [errs' generated'|].
    + rewrite IH. apply bind_ext. intros [errs'' generated''|]; [|reflexivity].
      f_equal. cbn [List.length]. lia.
    + now rewrite bind_ret_l.
Qed.

Lemma process_file_returns (lib : option (string -> clip)) (job_id : string)
    (upload_dir output_dir : Path) (index : Z) (video_path : Path)
    (errs : list string) (generated : list (Path * Path)) (f : flow) :
  outcome (process_file lib job_id upload_dir output_dir index video_path errs generated)
  = inr f ->
  exists relative audio_relative,
    PurePath.relative_to video_path upload_dir = Some relative
    /\ PurePath.with_suffix relative ".mp3" = Some audio_relative
    /\ f = snd (after_conversion job_id index relative audio_relative errs generated
                  (outcome (conversion lib job_id output_dir video_path audio_relative))).
Proof.
  intros Hout.
  destruct (PurePath.relative_to video_path upload_dir) as [relative|] eqn:Hrel.
  - destruct (PurePath.with_suffix relative ".mp3") as [audio_relative|] eqn:Hsfx.
    + exists relative, audio_relative. split; [reflexivity|]. split; [exact Hsfx|].
      rewrite (process_file_eq _ _ _ _ _ _ _ _ _ _ Hrel Hsfx) in Hout.
      cbn in Hout. congruence.
    + destruct (process_file_raises lib job_id upload_dir output_dir index video_path
                  errs generated) as [e He].
      { intros r Hr. congruence. }
      rewrite He in Hout. discriminate.
  - destruct (process_file_raises lib job_id upload_dir output_dir index video_path
                errs generated) as [e He].
    { intros r Hr. congruence. }
    rewrite He in Hout. discriminate.
Qed.

(** A turn that goes on to the next file keeps the loop invariant, the
    total and the status. *)
Lemma process_file_invariant (lib : option (string -> clip)) (job_id : string)
    (upload_dir output_dir : Path) (index : Z) (video_path : Path)
    (errs errs' : list string) (generated generated' : list (Path * Path))
    (job : ConversionJob) :
  loop_invariant index errs generated job ->
  outcome (process_file lib job_id upload_dir output_dir index video_path errs generated)
  = inr (next_file errs' generated') ->
  let job' := job_after job_id job
                (trace (process_file lib job_id upload_dir output_dir index video_path
                                     errs generated)) in
  loop_invariant (index + 1) errs' generated' job'
  /\ total_files job' = total_files job
  /\ status job' = status job.
Proof.
  intros Hinv Hout job'. subst job'.
  destruct (process_file_returns _ _ _ _ _ _ _ _ _ Hout)
    as (relative & audio_relative & Hrel & Hsfx & Hflow).
  rewrite (process_file_job_after _ _ _ _ _ _ _ _ _ _ _ Hrel Hsfx).
  unfold after_conversion in Hflow. unfold turn_changes.
  destruct Hinv as (Hproc & Hconv & Hle & Herrs).
  destruct (outcome (conversion _ _ _ _ _)) as [exc|produced];
    [destruct (is_ModuleNotFoundError exc); [discriminate|]|];
    cbn [snd] in Hflow; injection Hflow as -> ->;
    destruct job; cbn in *; unfold loop_invariant; cbn;
    rewrite ?List.length_app; cbn [List.length]; repeat split; lia.
Qed.

(** The loop, when it reaches its end, keeps the loop invariant, the total
    and the status. *)
Lemma process_files_invariant (lib : option (string -> clip)) (job_id : string)
    (upload_dir output_dir : Path) (files : list Path) (index : Z)
    (errs errs' : list string) (generated generated' : list (Path * Path))
    (job : ConversionJob) :
  loop_invariant index errs generated job ->
  outcome (process_files lib job_id upload_dir output_dir index files errs generated)
  = inr (next_file errs' generated') ->
  let job' := job_after job_id job
                (trace (process_files lib job_id upload_dir output_dir index files
                                      errs generated)) in
  loop_invariant (index + Z.of_nat (List.length files)) errs' generated' job'
  /\ total_files job' = total_files job
  /\ status job' = status job.
Proof.
  revert index errs generated job.
  induction files as [|v files IH]; intros index errs generated job Hinv Hout job'.
  - cbn in Hout. injection Hout as -> ->. subst job'. cbn. rewrite Z.add_0_r. now split.
  - subst job'. cbn [process_files] in *. rewrite outcome_bind in Hout. rewrite trace_bind.
    destruct (outcome (process_file _ _ _ _ _ _ _ _)) as [e|[errs1 generated1|]] eqn:Hturn;
      try discriminate.
    destruct (process_file_invariant _ _ _ _ _ _ _ _ _ _ _ Hinv Hturn) as (Hinv1 & Htot1 & Hst1).
    destruct (IH _ _ _ _ Hinv1 Hout) as (Hinv2 & Htot2 & Hst2).
    rewrite job_after_app. cbn [List.length].
    replace (index + Z.of_nat (S (List.length files)))
      with (index + 1 + Z.of_nat (List.length files)) by lia.
    split; [exact Hinv2|]. split; congruence.
Qed.

(** ** The worker as a whole *)

Lemma _process_job_trace {fs : FileSystem} (lib : option (string -> clip)) (job_id : string)
    (upload_dir output_dir : Path) (files : list Path) :
  trace (_process_job lib job_id upload_dir output_dir files)
  = initial_update job_id
    :: trace (process_files lib job_id upload_dir output_dir 1 files [] [])
    ++ match outcome (process_files lib job_id upload_dir output_dir 1 files [] []) with
       | inr (next_file errs generated) => trace (package job_id output_dir errs generated)
       | _ => []
       end.
Proof.
  unfold _process_job. rewrite trace_bind. cbn [call_update_job emit outcome trace app].
  rewrite trace_bind. unfold initial_update.
  destruct (outcome (process_files _ _ _ _ _ _ _ _)) as [e|[errs generated|]];
    now rewrite ?app_nil_r.
Qed.

Lemma initial_update_invariant (job_id : string) (job : ConversionJob) (files : list Path) :
  newly_created job files ->
  let job1 := job_step job_id job (initial_update job_id) in
  loop_invariant 1 [] [] job1
  /\ total_files job1 = Z.of_nat (List.length files)
  /\ status job1 = running.
Proof.
  intros (Hst & Htot & Hconv & Hproc) job1. subst job1. unfold initial_update.
  rewrite job_step_update. destruct job. cbn in *. unfold loop_invariant. cbn.
  repeat split; lia.
Qed.

(** When the archive cannot be written, the packaging step raises before any
    update. *)
Lemma package_raises {fs : FileSystem} (job_id : string) (output_dir : Path)
    (errs : list string) (generated : list (Path * Path)) (exc : exn) :
  generated <> [] ->
  write_archive (output_dir // PurePath.parse "converted_audio.zip")
                (zip_entries generated errs) = Some exc ->
  package job_id output_dir errs generated = raise exc.
Proof.
  intros Hne Hzip. unfold package, write_zip.
  destruct generated as [|g generated]; [now contradict Hne|]. now rewrite Hzip.
Qed.

(** The packaging step when the archive can be written. *)
Lemma package_eq {fs : FileSystem} (job_id : string) (output_dir : Path)
    (errs : list string) (g : Path * Path) (generated : list (Path * Path)) :
  archive_ok output_dir errs (g :: generated) ->
  let zip_path := output_dir // PurePath.parse "converted_audio.zip" in
  package job_id output_dir errs (g :: generated)
  = mkM [WriteZip zip_path (zip_entries (g :: generated) errs);
         Update job_id
           [set_status completed;
            set_message (Some match errs with
                              | [] => "Conversion completed!"
                              | _ => "Conversion completed with some errors."
                              end);
            set_download_path (Some zip_path);
            set_generated_files
              (List.map (fun g => PurePath.as_posix (snd g)) (g :: generated));
            set_current_file None; set_current_progress 100]]
        (inr tt).
Proof.
  intros [Hnil|Hzip] zip_path; [discriminate Hnil|]. subst zip_path.
  unfold package, write_zip. now rewrite Hzip.
Qed.

(** The record the packaging step leaves. *)
Lemma package_job_after {fs : FileSystem} (job_id : string) (output_dir : Path)
    (errs : list string) (generated : list (Path * Path)) (job : ConversionJob) :
  archive_ok output_dir errs generated ->
  let job' := job_after job_id job (trace (package job_id output_dir errs generated)) in
  total_files job' = total_files job
  /\ processed_files job' = processed_files job
  /\ converted job' = converted job
  /\ errors job' = errors job
  /\ status job' = match generated with [] => failed | _ => completed end
  /\ current_file job' = None
  /\ current_progress job' = match generated with [] => 0 | _ => 100 end
  /\ (generated <> [] ->
      download_path job' = Some (output_dir // PurePath.parse "converted_audio.zip")
      /\ generated_files job'
         = List.map (fun g => PurePath.as_posix (snd g)) generated).
Proof.
  intros Hzip. destruct generated as [|g generated].
  - unfold package. cbn [trace call_update_job emit job_after fold_left].
    rewrite job_step_update.
    destruct job. cbn. repeat (split; [reflexivity|]). intros Hne. now contradict Hne.
  - rewrite (package_eq _ _ _ _ _ Hzip). cbn [trace job_after fold_left].
    rewrite job_step_update. cbn [job_step]. destruct job. cbn.
    repeat (split; [reflexivity|]). reflexivity.
Qed.

(** The record the packaging step leaves in the fields it never writes,
    whether the archive can be written or not. *)
Lemma package_counters {fs : FileSystem} (job_id : string) (output_dir : Path)
    (errs : list string) (generated : list (Path * Path)) (job : ConversionJob) :
  let job' := job_after job_id job (trace (package job_id output_dir errs generated)) in
  total_files job' = total_files job
  /\ processed_files job' = processed_files job
  /\ converted job' = converted job
  /\ errors job' = errors job.
Proof.
  destruct generated as [|g generated].
  - now destruct (package_job_after job_id output_dir errs [] job (or_introl eq_refl))
      as (? & ? & ? & ? & _).
  - destruct (write_archive (output_dir // PurePath.parse "converted_audio.zip")
                            (zip_entries (g :: generated) errs)) as [exc|] eqn:Hzip.
    + assert (Hne : g :: generated <> []) by discriminate.
      rewrite (package_raises _ _ _ _ _ Hne Hzip). now cbn.
    + now destruct (package_job_after job_id output_dir errs (g :: generated) job
                      (or_intror Hzip)) as (? & ? & ? & ? & _).
Qed.

(** The packaging step of a job with something to package: the archive
    cannot be written and the step raises, or it is written and the job is
    completed. *)
Lemma package_cases {fs : FileSystem} (job_id : string) (output_dir : Path)
    (errs : list string) (g : Path * Path) (generated : list (Path * Path)) :
  let zip_path := output_dir // PurePath.parse "converted_audio.zip" in
  (exists exc,
      write_archive zip_path (zip_entries (g :: generated) errs) = Some exc
      /\ package job_id output_dir errs (g :: generated) = raise exc)
  \/ (archive_ok output_dir errs (g :: generated)
      /\ package job_id output_dir errs (g :: generated)
         = mkM [WriteZip zip_path (zip_entries (g :: generated) errs);
                Update job_id
                  [set_status completed;
                   set_message (Some match errs with
                                     | [] => "Conversion completed!"
                                     | _ => "Conversion completed with some errors."
                                     end);
                   set_download_path (Some zip_path);
                   set_generated_files
                     (List.map (fun g => PurePath.as_posix (snd g)) (g :: generated));
                   set_current_file None; set_current_progress 100]]
               (inr tt)).
Proof.
  intros zip_path. subst zip_path.
  destruct (write_archive (output_dir // PurePath.parse "converted_audio.zip")
                          (zip_entries (g :: generated) errs)) as [exc|] eqn:Hzip.
  - left. exists exc. split; [reflexivity|].
    now apply package_raises.
  - right. assert (Hok : archive_ok output_dir errs (g :: generated)) by now right.
    split; [exact Hok|]. now apply package_eq.
Qed.

(** C1 fails on the upload [converted_audio.zip/x.mp4].  [convert] accepts it
    and queues [uploads/converted_audio.zip/x.mp4]; the loop of the worker
    runs over the one file without any error and converts it, so
    [converted = processed_files = total_files = 1]; but the conversion has
    created the directory [outputs/converted_audio.zip] for the audio file,
    which is the very path of the archive: opening the archive raises
    [IsADirectoryError] outside any [try], the worker stops, and the job
    stays [running], neither [completed] nor [failed]. *)
Theorem archive_path_taken_by_an_upload :
  let fs := fs_with_dirs [output_dir_example // PurePath.parse "converted_audio.zip"] in
  let video := upload_dir_example // PurePath.parse "converted_audio.zip/x.mp4" in
  let audio := PurePath.parse "converted_audio.zip/x.mp3" in
  let m := _process_job (fs := fs) (Some lib_regular) "job-1" upload_dir_example
                        output_dir_example [video] in
  convert (fs := fs) temp_dir_example "job-1" ["converted_audio.zip/x.mp4"] (mkServer ∅ ∅)
  = inr (json_job_id "job-1",
         mkServer {[ "job-1" := job_pending_example 1 ]} (∅ ∪ {[ temp_dir_example ]}),
         Some (mkArgs "job-1" upload_dir_example output_dir_example [video]))
  /\ outcome (process_files (Some lib_regular) "job-1" upload_dir_example
                            output_dir_example 1 [video] [] [])
     = inr (next_file [] [(output_dir_example // audio, audio)])
  /\ outcome m
     = inl (is_a_directory (output_dir_example // PurePath.parse "converted_audio.zip"))
  /\ exists job',
       run {[ "job-1" := job_pending_example 1 ]} (trace m) !! "job-1" = Some job'
       /\ status job' = running
       /\ total_files job' = 1 /\ processed_files job' = 1 /\ converted job' = 1.
Proof.
  cbv zeta. split; [vm_compute; reflexivity|]. split; [vm_compute; reflexivity|].
  split; [vm_compute; reflexivity|].
  eexists. split; [vm_compute; reflexivity|]. repeat split.
Qed.

(** X22: when the worker's loop runs over all the queued files of a newly
    created job without a fatal error and the archive, if one is due, is
    written without an exception, the job ends with [processed_files] equal
    to [total_files], the number of queued files, with [converted] between 0
    and that number, with status [completed] if and only if
    [converted >= 1], and with status [failed] otherwise. *)
Theorem worker_runs_to_completion {fs : FileSystem} (lib : option (string -> clip))
    (job_id : string)
    (upload_dir output_dir : Path) (files : list Path) (jobs : Jobs) (job : ConversionJob)
    (errs : list string) (generated : list (Path * Path)) :
  jobs !! job_id = Some job ->
  newly_created job files ->
  outcome (process_files lib job_id upload_dir output_dir 1 files [] [])
  = inr (next_file errs generated) ->
  archive_ok output_dir errs generated ->
  exists job',
    run jobs (trace (_process_job lib job_id upload_dir output_dir files)) !! job_id
    = Some job'
    /\ total_files job' = Z.of_nat (List.length files)
    /\ processed_files job' = total_files job'
    /\ 0 <= converted job' <= total_files job'
    /\ (status job' = completed <-> converted job' >= 1)
    /\ (status job' = failed <-> ~ converted job' >= 1).
Proof.
  intros Hjob Hnew Hloop Hzip. eexists. split; [apply (run_lookup _ _ _ _ Hjob)|].
  rewrite _process_job_trace, Hloop.
  change (?e :: ?t ++ ?u) with ([e] ++ t ++ u). rewrite !job_after_app.
  cbn [job_after fold_left].
  destruct (initial_update_invariant job_id job files Hnew) as (Hinv1 & Htot1 & _).
  destruct (process_files_invariant _ _ _ _ _ _ _ _ _ _ _ Hinv1 Hloop)
    as ((Hproc & Hconv & Hle & _) & Htot2 & _).
  match goal with
  | |- context [job_after job_id ?j (trace (package _ _ _ _))] =>
      destruct (package_job_after job_id output_dir errs generated j Hzip)
        as (Ptot & Pproc & Pconv & _ & Pst & _)
  end.
  rewrite Ptot, Pproc, Pconv, Pst, Htot2, Htot1, Hproc, Hconv.
  split; [reflexivity|]. split; [lia|]. split; [lia|].
  destruct generated as [|g generated]; cbn [List.length]; split; split;
    try discriminate; try reflexivity; intros; lia.
Qed.

Lemma worker_runs_to_completion_witness :
  exists job',
    run (jobs_example 2)
        (trace (_process_job (fs := fs_ok) (Some lib_example) "job-1" upload_dir_example
                  output_dir_example [video_a_example; video_b_example])) !! "job-1"
    = Some job'
    /\ total_files job' = 2
    /\ processed_files job' = total_files job'
    /\ 0 <= converted job' <= total_files job'
    /\ (status job' = completed <-> converted job' >= 1)
    /\ (status job' = failed <-> ~ converted job' >= 1).
Proof.
  apply (worker_runs_to_completion (fs := fs_ok) (Some lib_example) "job-1" upload_dir_example
           output_dir_example [video_a_example; video_b_example] (jobs_example 2)
           (job_pending_example 2)
           ["b.mp4: Video 'b.mp4' has no audio track"]
           [(audio_a_example, mkPath "" ["a.mp3"])]).
  - reflexivity.
  - repeat split.
  - vm_compute. reflexivity.
  - right. reflexivity.
Defined.

Lemma loop_entry_trace (lib : option (string -> clip)) (job_id : string)
    (upload_dir output_dir : Path) (done : list Path) :
  trace (loop_entry lib job_id upload_dir output_dir done)
  = initial_update job_id
    :: trace (process_files lib job_id upload_dir output_dir 1 done [] [])
  /\ outcome (loop_entry lib job_id upload_dir output_dir done)
     = outcome (process_files lib job_id upload_dir output_dir 1 done [] []).
Proof.
  unfold loop_entry. rewrite trace_bind, outcome_bind. cbn. now split.
Qed.

(** The record at the entry of a turn the worker reaches. *)
Lemma loop_entry_invariant (lib : option (string -> clip)) (job_id : string)
    (upload_dir output_dir : Path) (done files : list Path) (job : ConversionJob)
    (errs : list string) (generated : list (Path * Path)) :
  newly_created job files ->
  outcome (loop_entry lib job_id upload_dir output_dir done)
  = inr (next_file errs generated) ->
  let before := job_after job_id job
                  (trace (loop_entry lib job_id upload_dir output_dir done)) in
  loop_invariant (Z.of_nat (List.length done) + 1) errs generated before
  /\ total_files before = Z.of_nat (List.length files)
  /\ status before = running.
Proof.
  intros Hnew Hout before. subst before.
  destruct (loop_entry_trace lib job_id upload_dir output_dir done) as [-> Ho].
  rewrite Ho in Hout.
  destruct (initial_update_invariant job_id job files Hnew) as (Hinv1 & Htot1 & Hst1).
  destruct (process_files_invariant _ _ _ _ _ _ _ _ _ _ _ Hinv1 Hout) as (Hinv & Htot & Hst).
  cbn [job_after fold_left].
  replace (Z.of_nat (List.length done) + 1) with (1 + Z.of_nat (List.length done)) by lia.
  split; [exact Hinv|].
  split; [rewrite <- Htot1; exact Htot|rewrite <- Hst1; exact Hst].
Qed.

(** C6: at the turn for the file number [index] that the worker reaches,
    (1) a conversion failure that is not the fatal one appends
    ["<relative path>: <error detail>"] to the job's error list, leaves
    [converted] unchanged, sets [current_progress] to 0 and the loop goes on
    with the next file; (2) a success records the pair of the produced path
    and the archive-relative name, increments [converted] by exactly 1 and
    sets [current_progress] to 100, and the loop goes on; (3) in every
    branch the last update of the turn publishes the error list and
    [processed_files = index]. *)
Theorem turn_of_the_loop (lib : option (string -> clip)) (job_id : string)
    (upload_dir output_dir : Path) (done rest : list Path)
    (video_path relative audio_relative : Path) (job : ConversionJob)
    (errs : list string) (generated : list (Path * Path)) :
  let index := Z.of_nat (List.length done) + 1 in
  let before := job_after job_id job
                  (trace (loop_entry lib job_id upload_dir output_dir done)) in
  let turn := process_file lib job_id upload_dir output_dir index video_path
                           errs generated in
  let after := job_after job_id before (trace turn) in
  let conv := outcome (conversion lib job_id output_dir video_path audio_relative) in
  newly_created job (done ++ video_path :: rest) ->
  outcome (loop_entry lib job_id upload_dir output_dir done)
  = inr (next_file errs generated) ->
  PurePath.relative_to video_path upload_dir = Some relative ->
  PurePath.with_suffix relative ".mp3" = Some audio_relative ->
  (forall exc, conv = inl exc -> is_ModuleNotFoundError exc = false ->
     outcome turn
     = inr (next_file (errs ++ [PurePath.as_posix relative +:+ ": " +:+ str_exn exc])
                      generated)
     /\ errors after
        = errors before ++ [PurePath.as_posix relative +:+ ": " +:+ str_exn exc]
     /\ converted after = converted before
     /\ current_progress after = 0)
  /\ (forall produced, conv = inr produced ->
        outcome turn = inr (next_file errs (generated ++ [(produced, audio_relative)]))
        /\ errors after = errors before
        /\ converted after = converted before + 1
        /\ current_progress after = 100)
  /\ (exists t cp,
        trace turn
        = t ++ [Update job_id [set_errors (errors after); set_processed_files index;
                               set_current_progress cp]])
  /\ processed_files after = index
  /\ process_files lib job_id upload_dir output_dir index (video_path :: rest)
                   errs generated
     = (f <- turn ;;
        match f with
        | returned => ret returned
        | next_file errs' generated' =>
            process_files lib job_id upload_dir output_dir (index + 1) rest
                          errs' generated'
        end).
Proof.
  intros index before turn after conv Hnew Hentry Hrel Hsfx.
  destruct (loop_entry_invariant _ _ _ _ _ _ _ _ _ Hnew Hentry)
    as ((Hproc & Hconv & Hle & Herrs) & _ & _).
  fold before in Hproc, Hconv, Herrs. fold index in Hproc.
  assert (Hafter : after
                   = fold_left setattr
                       (turn_changes index relative audio_relative errs generated conv)
                       before).
  { apply process_file_job_after; assumption. }
  assert (Hturn : turn = mkM (start_update job_id relative index
                              :: trace (conversion lib job_id output_dir video_path
                                                   audio_relative)
                              ++ fst (after_conversion job_id index relative audio_relative
                                        errs generated conv))
                             (inr (snd (after_conversion job_id index relative
                                          audio_relative errs generated conv)))).
  { apply process_file_eq; assumption. }
  assert (Hgo : process_files lib job_id upload_dir output_dir index (video_path :: rest)
                              errs generated
                = (f <- turn ;;
                   match f with
                   | returned => ret returned
                   | next_file errs' generated' =>
                       process_files lib job_id upload_dir output_dir (index + 1) rest
                                     errs' generated'
                   end)) by reflexivity.
  clearbody before after turn conv. subst after turn.
  unfold turn_changes, after_conversion.
  split; [|split; [|split; [|split]]].
  - intros exc -> Hexc. rewrite Hexc. destruct before. cbn in *. subst.
    repeat split; reflexivity.
  - intros produced ->. destruct before. cbn in *. subst.
    rewrite List.length_app. cbn [List.length]. repeat split; try reflexivity. lia.
  - destruct conv as [exc|produced]; [destruct (is_ModuleNotFoundError exc)|];
      destruct before; cbn [trace fst]; cbn [fold_left setattr errors].
    + eexists (_ :: _ ++ [_]), _. cbn [app]. rewrite <- app_assoc. reflexivity.
    + eexists (_ :: _), _. reflexivity.
    + eexists (_ :: _ ++ [_]), _. cbn [app]. rewrite <- app_assoc. reflexivity.
  - destruct conv as [exc|produced]; [destruct (is_ModuleNotFoundError exc)|];
      destruct before; reflexivity.
  - exact Hgo.
Qed.

Lemma turn_of_the_loop_witness :
  let before := job_after "job-1" (job_pending_example 2)
                  (trace (loop_entry (Some lib_example) "job-1" upload_dir_example
                            output_dir_example [video_a_example])) in
  let after := job_after "job-1" before
                 (trace (process_file (Some lib_example) "job-1" upload_dir_example
                           output_dir_example 2 video_b_example []
                           [(audio_a_example, mkPath "" ["a.mp3"])])) in
  errors after = errors before ++ ["b.mp4: Video 'b.mp4' has no audio track"]
  /\ converted after = converted before
  /\ current_progress after = 0
  /\ processed_files after = 2.
Proof.
  intros before after.
  destruct (turn_of_the_loop (Some lib_example) "job-1" upload_dir_example
              output_dir_example [video_a_example] [] video_b_example
              (mkPath "" ["b.mp4"]) (mkPath "" ["b.mp3"]) (job_pending_example 2)
              [] [(audio_a_example, mkPath "" ["a.mp3"])])
    as (Hfail & _ & _ & Hproc & _).
  - repeat split.
  - vm_compute. reflexivity.
  - reflexivity.
  - reflexivity.
  - destruct (Hfail (Raise ValueError "Video 'b.mp4' has no audio track"))
      as (_ & Herr & Hconv & Hcp).
    + vm_compute. reflexivity.
    + reflexivity.
    + split; [exact Herr|]. split; [exact Hconv|]. split; [exact Hcp|exact Hproc].
Defined.

(** The worker on [done ++ video_path :: rest], once it has reached the turn
    for [video_path]: the trace and the outcome are those of the entry, then
    of the turn, then, unless the turn returned, of the rest of the loop. *)
Lemma process_files_reached (lib : option (string -> clip)) (job_id : string)
    (upload_dir output_dir : Path) (done rest : list Path) (video_path : Path)
    (errs : list string) (generated : list (Path * Path)) :
  outcome (process_files lib job_id upload_dir output_dir 1 done [] [])
  = inr (next_file errs generated) ->
  process_files lib job_id upload_dir output_dir 1 (done ++ video_path :: rest) [] []
  = mkM (trace (process_files lib job_id upload_dir output_dir 1 done [] [])
         ++ trace (process_files lib job_id upload_dir output_dir
                     (Z.of_nat (List.length done) + 1) (video_path :: rest)
                     errs generated))
        (outcome (process_files lib job_id upload_dir output_dir
                    (Z.of_nat (List.length done) + 1) (video_path :: rest)
                    errs generated)).
Proof.
  intros Hdone. rewrite process_files_app. unfold bind at 1. rewrite Hdone.
  now rewrite (Z.add_comm 1).
Qed.

(** C5: when the conversion of a file raises [ModuleNotFoundError], the
    worker appends the message to the errors, sets the status to [failed],
    publishes the message and returns: its trace ends with the updates of
    that turn, with no effect for the remaining files, and the job keeps
    [processed_files] at the number of that file, below [total_files] when
    files remain.  Any other exception does not end the loop: the worker
    reaches the turn of the next file. *)
Theorem fatal_error_aborts {fs : FileSystem} (lib : option (string -> clip)) (job_id : string)
    (upload_dir output_dir : Path) (done rest : list Path)
    (video_path relative audio_relative : Path) (jobs : Jobs) (job : ConversionJob)
    (errs : list string) (generated : list (Path * Path)) (exc : exn) :
  let files := done ++ video_path :: rest in
  let index := Z.of_nat (List.length done) + 1 in
  let m := _process_job lib job_id upload_dir output_dir files in
  jobs !! job_id = Some job ->
  newly_created job files ->
  outcome (loop_entry lib job_id upload_dir output_dir done)
  = inr (next_file errs generated) ->
  PurePath.relative_to video_path upload_dir = Some relative ->
  PurePath.with_suffix relative ".mp3" = Some audio_relative ->
  outcome (conversion lib job_id output_dir video_path audio_relative) = inl exc ->
  (is_ModuleNotFoundError exc = true ->
     outcome m = inr tt
     /\ trace m
        = trace (loop_entry lib job_id upload_dir output_dir done)
          ++ start_update job_id relative index
          :: trace (conversion lib job_id output_dir video_path audio_relative)
          ++ [fatal_update job_id (str_exn exc) (errs ++ [str_exn exc]) index;
              finally_update job_id (errs ++ [str_exn exc]) index false]
     /\ exists job',
          run jobs (trace m) !! job_id = Some job'
          /\ status job' = failed
          /\ message job' = Some (str_exn exc)
          /\ errors job' = errs ++ [str_exn exc]
          /\ processed_files job' = index
          /\ total_files job' = Z.of_nat (List.length files)
          /\ (rest <> [] -> processed_files job' < total_files job'))
  /\ (is_ModuleNotFoundError exc = false ->
        outcome (loop_entry lib job_id upload_dir output_dir (done ++ [video_path]))
        = inr (next_file
                 (errs ++ [PurePath.as_posix relative +:+ ": " +:+ str_exn exc])
                 generated)).
Proof.
  intros files index m Hjob Hnew Hentry Hrel Hsfx Hexc.
  destruct (loop_entry_trace lib job_id upload_dir output_dir done) as [Htr Ho].
  assert (Hdone := Hentry). rewrite Ho in Hdone.
  pose proof (process_file_eq lib job_id upload_dir output_dir index video_path relative
                audio_relative errs generated Hrel Hsfx) as Hturn.
  cbv zeta in Hturn. rewrite Hexc in Hturn. unfold after_conversion in Hturn.
  split.
  - intros Hfatal. rewrite Hfatal in Hturn. cbn [fst snd] in Hturn.
    assert (Hloop : process_files lib job_id upload_dir output_dir 1 files [] []
                    = mkM (trace (process_files lib job_id upload_dir output_dir 1 done [] [])
                           ++ start_update job_id relative index
                           :: trace (conversion lib job_id output_dir video_path
                                                audio_relative)
                           ++ [fatal_update job_id (str_exn exc) (errs ++ [str_exn exc]) index;
                               finally_update job_id (errs ++ [str_exn exc]) index false])
                          (inr returned)).
    { unfold files. rewrite (process_files_reached _ _ _ _ _ _ _ _ _ Hdone).
      fold index. cbn [process_files]. rewrite Hturn. unfold bind. cbn.
      now rewrite app_nil_r. }
    assert (Htrace : trace m
                     = trace (loop_entry lib job_id upload_dir output_dir done)
                       ++ start_update job_id relative index
                       :: trace (conversion lib job_id output_dir video_path audio_relative)
                       ++ [fatal_update job_id (str_exn exc) (errs ++ [str_exn exc]) index;
                           finally_update job_id (errs ++ [str_exn exc]) index false]).
    { unfold m. rewrite _process_job_trace, Hloop, Htr. cbn [trace outcome].
      now rewrite app_nil_r. }
    split; [|split; [exact Htrace|]].
    + unfold m, _process_job. rewrite !outcome_bind. cbn [call_update_job emit outcome].
      now rewrite Hloop.
    + eexists. split; [apply (run_lookup _ _ _ _ Hjob)|].
      rewrite Htrace, job_after_app.
      destruct (loop_entry_invariant _ _ _ _ _ files _ _ _ Hnew Hentry)
        as ((Hproc & Hconv & Hle & Herrs) & Htot & Hst).
      set (before := job_after job_id job
                       (trace (loop_entry lib job_id upload_dir output_dir done))) in *.
      pose proof (process_file_job_after lib job_id upload_dir output_dir index video_path
                    relative audio_relative errs generated before Hrel Hsfx) as Hafter.
      rewrite Hturn in Hafter. cbn [trace] in Hafter. rewrite Hafter, Hexc.
      unfold turn_changes. rewrite Hfatal. clearbody before.
      destruct before. cbn in *. repeat (split; [reflexivity|]).
      split; [exact Htot|]. intros Hrest. rewrite Htot. unfold files, index.
      rewrite List.length_app. cbn [List.length]. destruct rest; [now contradict Hrest|].
      cbn [List.length]. lia.
  - intros Hother. rewrite Hother in Hturn. cbn [fst snd] in Hturn.
    destruct (loop_entry_trace lib job_id upload_dir output_dir (done ++ [video_path]))
      as [_ ->].
    rewrite (process_files_reached _ _ _ _ _ _ _ _ _ Hdone). cbn [outcome process_files].
    fold index. rewrite Hturn. reflexivity.
Qed.

Lemma fatal_error_aborts_witness :
  exists job',
    run (jobs_example 3)
        (trace (_process_job (fs := fs_ok) (Some lib_example) "job-1" upload_dir_example
                  output_dir_example
                  [video_a_example; video_c_example; video_b_example])) !! "job-1"
    = Some job'
    /\ status job' = failed
    /\ message job' = Some "No module named 'imageio_ffmpeg'"
    /\ processed_files job' = 2
    /\ total_files job' = 3.
Proof.
  destruct (fatal_error_aborts (fs := fs_ok) (Some lib_example) "job-1" upload_dir_example
              output_dir_example [video_a_example] [video_b_example] video_c_example
              (mkPath "" ["c.mp4"]) (mkPath "" ["c.mp3"]) (jobs_example 3)
              (job_pending_example 3) [] [(audio_a_example, mkPath "" ["a.mp3"])]
              (Raise ModuleNotFoundError "No module named 'imageio_ffmpeg'"))
    as [Hfatal _].
  - reflexivity.
  - repeat split.
  - vm_compute. reflexivity.
  - reflexivity.
  - reflexivity.
  - vm_compute. reflexivity.
  - destruct (Hfatal eq_refl) as (_ & _ & job' & Hrun & Hst & Hmsg & _ & Hproc & Htot & _).
    exists job'. split; [exact Hrun|]. split; [exact Hst|]. split; [exact Hmsg|].
    split; [exact Hproc|exact Htot].
Defined.

(** ** Properties of every observable state *)

Lemma always_nil (P : ConversionJob -> Prop) (job_id : string) (job : ConversionJob) :
  P job -> always P job_id job [].
Proof. intros H k. now destruct k. Qed.

Lemma always_cons (P : ConversionJob -> Prop) (job_id : string) (job : ConversionJob)
    (e : effect) (t : list effect) :
  P job -> always P job_id (job_step job_id job e) t -> always P job_id job (e :: t).
Proof. intros H Ht [|k]; [exact H|apply Ht]. Qed.

Lemma always_app (P : ConversionJob -> Prop) (job_id : string) (job : ConversionJob)
    (t1 t2 : list effect) :
  always P job_id job t1 -> always P job_id (job_after job_id job t1) t2 ->
  always P job_id job (t1 ++ t2).
Proof.
  intros H1 H2 k. rewrite List.firstn_app, job_after_app.
  destruct (Nat.le_gt_cases k (List.length t1)) as [Hk|Hk].
  - replace (k - List.length t1)%nat with O by lia. cbn. apply H1.
  - rewrite List.firstn_all2 by lia. apply H2.
Qed.

Lemma always_final (P : ConversionJob -> Prop) (job_id : string) (job : ConversionJob)
    (t : list effect) :
  always P job_id job t -> P (job_after job_id job t).
Proof. intros H. specialize (H (List.length t)). now rewrite List.firstn_all in H. Qed.

Lemma always_initial (P : ConversionJob -> Prop) (job_id : string) (job : ConversionJob)
    (t : list effect) :
  always P job_id job t -> P job.
Proof. intros H. exact (H O). Qed.

(** A property that does not look at [current_progress] holds throughout a
    trace of progress writes. *)
Lemma always_progress (P : ConversionJob -> Prop) (job_id : string) (job : ConversionJob)
    (t : list effect) :
  (forall a b, forget_progress a = forget_progress b -> P b -> P a) ->
  Forall (progress_effect job_id) t ->
  P job -> always P job_id job t.
Proof.
  intros Hforget Ht HP k. apply (Hforget _ job); [|exact HP].
  apply job_after_progress.
  rewrite <- (List.firstn_skipn k t) in Ht. now apply Forall_app in Ht as [Ht _].
Qed.

Lemma counters_bounded_forget (a b : ConversionJob) :
  forget_progress a = forget_progress b -> counters_bounded b -> counters_bounded a.
Proof.
  intros H. rewrite (forget_progress_eq a b H). now destruct b.
Qed.

(** Every state of a turn has bounded counters. *)
Lemma process_file_bounded (lib : option (string -> clip)) (job_id : string)
    (upload_dir output_dir : Path) (index : Z) (video_path : Path)
    (errs : list string) (generated : list (Path * Path)) (job : ConversionJob) :
  loop_invariant index errs generated job ->
  1 <= index <= total_files job ->
  always counters_bounded job_id job
    (trace (process_file lib job_id upload_dir output_dir index video_path errs generated)).
Proof.
  intros (Hproc & Hconv & Hle & Herrs) Hindex.
  assert (Hjob : counters_bounded job) by (unfold counters_bounded; lia).
  destruct (PurePath.relative_to video_path upload_dir) as [relative|] eqn:Hrel;
    [destruct (PurePath.with_suffix relative ".mp3") as [audio_relative|] eqn:Hsfx|].
  - rewrite (process_file_eq _ _ _ _ _ _ _ _ _ _ Hrel Hsfx). cbn [trace].
    apply always_cons; [exact Hjob|].
    unfold start_update. rewrite job_step_update.
    set (job1 := fold_left setattr _ job).
    assert (Hjob1 : processed_files job1 = index - 1 /\ converted job1 = converted job
                    /\ total_files job1 = total_files job).
    { subst job1. destruct job. cbn. repeat split; reflexivity. }
    destruct Hjob1 as (Hproc1 & Hconv1 & Htot1).
    apply always_app.
    + apply always_progress.
      * apply counters_bounded_forget.
      * apply video_to_audio_file_progress.
      * unfold counters_bounded. lia.
    + destruct (conversion_job_after lib job_id output_dir video_path audio_relative job1)
        as [c ->].
      unfold after_conversion.
      destruct (outcome _) as [exc|produced]; [destruct (is_ModuleNotFoundError exc)|];
        cbn [fst]; unfold fatal_update, finally_update, converted_update;
        repeat (apply always_cons; [|rewrite job_step_update]); try apply always_nil;
        destruct job1; cbn in *; unfold counters_bounded; cbn;
        rewrite ?List.length_app; cbn [List.length]; lia.
  - destruct (process_file_raises lib job_id upload_dir output_dir index video_path
                errs generated) as [e ->]; [intros r Hr; congruence|].
    now apply always_nil.
  - destruct (process_file_raises lib job_id upload_dir output_dir index video_path
                errs generated) as [e ->]; [intros r Hr; congruence|].
    now apply always_nil.
Qed.

(** Every state of the loop has bounded counters. *)
Lemma process_files_bounded (lib : option (string -> clip)) (job_id : string)
    (upload_dir output_dir : Path) (files : list Path) (index : Z)
    (errs : list string) (generated : list (Path * Path)) (job : ConversionJob) :
  loop_invariant index errs generated job ->
  1 <= index ->
  index + Z.of_nat (List.length files) <= total_files job + 1 ->
  always counters_bounded job_id job
    (trace (process_files lib job_id upload_dir output_dir index files errs generated)).
Proof.
  revert index errs generated job.
  induction files as [|v files IH]; intros index errs generated job Hinv Hlo Hhi.
  - apply always_nil. destruct Hinv as (Hproc & Hconv & Hle & _).
    cbn [List.length] in Hhi. unfold counters_bounded. lia.
  - cbn [process_files List.length] in *. rewrite trace_bind.
    assert (Hturn := process_file_bounded lib job_id upload_dir output_dir index v
                       errs generated job Hinv ltac:(lia)).
    destruct (outcome (process_file _ _ _ _ _ _ _ _)) as [e|[errs1 generated1|]] eqn:Hout.
    + exact Hturn.
    + apply always_app; [exact Hturn|].
      destruct (process_file_invariant _ _ _ _ _ _ _ _ _ _ _ Hinv Hout) as (Hinv1 & Htot1 & _).
      apply IH; [exact Hinv1|lia|]. rewrite Htot1. lia.
    + cbn [trace ret]. now rewrite app_nil_r.
Qed.

Lemma package_bounded {fs : FileSystem} (job_id : string) (output_dir : Path) (errs : list string)
    (generated : list (Path * Path)) (job : ConversionJob) :
  counters_bounded job ->
  always counters_bounded job_id job (trace (package job_id output_dir errs generated)).
Proof.
  intros Hjob. destruct generated as [|g generated].
  - unfold package. cbn [trace call_update_job emit]. apply always_cons; [exact Hjob|].
    rewrite job_step_update. apply always_nil. now destruct job.
  - destruct (package_cases job_id output_dir errs g generated)
      as [(exc & _ & ->)|(_ & ->)]; cbn [trace raise]; [now apply always_nil|].
    apply always_cons; [exact Hjob|]. cbn [job_step].
    apply always_cons; [exact Hjob|]. rewrite job_step_update. apply always_nil.
    now destruct job.
Qed.

(** The turn of a file that the worker reaches starts from a state of the
    run. *)
Lemma loop_entry_prefix {fs : FileSystem} (lib : option (string -> clip)) (job_id : string)
    (upload_dir output_dir : Path) (done rest : list Path)
    (errs : list string) (generated : list (Path * Path)) :
  outcome (loop_entry lib job_id upload_dir output_dir done)
  = inr (next_file errs generated) ->
  exists u,
    trace (_process_job lib job_id upload_dir output_dir (done ++ rest))
    = trace (loop_entry lib job_id upload_dir output_dir done) ++ u.
Proof.
  intros Hentry.
  destruct (loop_entry_trace lib job_id upload_dir output_dir done) as [-> Ho].
  rewrite Ho in Hentry. rewrite _process_job_trace, process_files_app, trace_bind, Hentry.
  eexists. cbn [app]. rewrite <- app_assoc. reflexivity.
Qed.

(** C2, the claim as stated, fails: when the first file converts, the worker
    publishes [converted = 1] in an update of its own, before the update that
    publishes [processed_files = 1]; a reader in between sees
    [converted = 1] and [processed_files = 0]. *)
Lemma converted_published_before_processed : ~ counters_always_ordered.
Proof.
  intros H.
  destruct (H fs_ok (Some lib_example) "job-1" upload_dir_example output_dir_example
              [video_a_example] (jobs_example 1) (job_pending_example 1)
              (run (jobs_example 1)
                 (firstn 9 (trace (_process_job (fs := fs_ok) (Some lib_example) "job-1"
                                     upload_dir_example output_dir_example
                                     [video_a_example])))))
    as (j & Hj & _ & Hconv).
  - reflexivity.
  - repeat split.
  - now exists 9%nat.
  - vm_compute in Hj. injection Hj as <-. cbn in Hconv. lia.
Qed.

(** C2, amended: at every state of a newly created job that a reader can
    observe while the worker runs, the three counters are non-negative,
    [processed_files <= total_files], [converted <= total_files] and
    [converted <= processed_files + 1]; and [converted <= processed_files]
    holds in the state at the entry of every turn the worker reaches, that
    is, once the closing update of the previous file is published. *)
Theorem counters_bounded_at_every_state {fs : FileSystem} (lib : option (string -> clip)) (job_id : string)
    (upload_dir output_dir : Path) (files : list Path) (jobs : Jobs)
    (job : ConversionJob) :
  jobs !! job_id = Some job ->
  newly_created job files ->
  (forall seen,
      observable jobs (trace (_process_job lib job_id upload_dir output_dir files)) seen ->
      exists j, seen !! job_id = Some j /\ counters_bounded j)
  /\ (forall done rest errs generated,
        files = done ++ rest ->
        outcome (loop_entry lib job_id upload_dir output_dir done)
        = inr (next_file errs generated) ->
        (exists u, trace (_process_job lib job_id upload_dir output_dir files)
                   = trace (loop_entry lib job_id upload_dir output_dir done) ++ u)
        /\ counters_ordered
             (job_after job_id job
                (trace (loop_entry lib job_id upload_dir output_dir done)))).
Proof.
  intros Hjob Hnew. split.
  - assert (Hall : always counters_bounded job_id job
                     (trace (_process_job lib job_id upload_dir output_dir files))).
    { rewrite _process_job_trace.
      destruct (initial_update_invariant job_id job files Hnew) as (Hinv1 & Htot1 & _).
      assert (Hloop := process_files_bounded lib job_id upload_dir output_dir files 1
                         [] [] _ Hinv1 ltac:(lia) ltac:(lia)).
      apply always_cons.
      - destruct Hnew as (_ & Htot & Hconv & Hproc). unfold counters_bounded. lia.
      - apply always_app; [exact Hloop|].
        apply always_final in Hloop.
        destruct (outcome (process_files _ _ _ _ _ _ _ _)) as [e|[errs generated|]].
        + now apply always_nil.
        + now apply package_bounded.
        + now apply always_nil. }
    intros seen [k ->]. eexists. split; [apply (run_lookup _ _ _ _ Hjob)|apply Hall].
  - intros done rest errs generated -> Hentry. split.
    + now apply (loop_entry_prefix _ _ _ _ _ _ errs generated).
    + destruct (loop_entry_invariant _ _ _ _ _ _ _ _ _ Hnew Hentry)
        as ((Hproc & Hconv & Hle & _) & Htot & _).
      rewrite List.length_app in Htot. unfold counters_ordered. lia.
Qed.

Lemma counters_bounded_at_every_state_witness :
  (exists j,
      run (jobs_example 2)
          (firstn 9 (trace (_process_job (fs := fs_ok) (Some lib_example) "job-1" upload_dir_example
                              output_dir_example [video_a_example; video_b_example])))
      !! "job-1" = Some j
      /\ counters_bounded j)
  /\ counters_ordered
       (job_after "job-1" (job_pending_example 2)
          (trace (loop_entry (Some lib_example) "job-1" upload_dir_example
                    output_dir_example [video_a_example]))).
Proof.
  destruct (counters_bounded_at_every_state (fs := fs_ok) (Some lib_example) "job-1" upload_dir_example
              output_dir_example [video_a_example; video_b_example] (jobs_example 2)
              (job_pending_example 2)) as [Hall Hentry].
  - reflexivity.
  - repeat split.
  - split.
    + apply Hall. now exists 9%nat.
    + apply (Hentry [video_a_example] [video_b_example] []
                    [(audio_a_example, mkPath "" ["a.mp3"])]).
      * reflexivity.
      * vm_compute. reflexivity.
Defined.

(** ** The folder converter *)





(** ** Strings: splitting and joining *)

Lemma append_String (c : ascii) (a b : string) : String c a +:+ b = String c (a +:+ b).
Proof. reflexivity. Qed.

Lemma contains_slash_append (a b : string) :
  Str.contains_slash (a +:+ b) = (Str.contains_slash a || Str.contains_slash b)%bool.
Proof.
  induction a as [|c a IH]; [reflexivity|].
  rewrite append_String. cbn [Str.contains_slash]. rewrite IH. now rewrite orb_assoc.
Qed.

Lemma split_slash_cons (x rest : string) :
  Str.contains_slash x = false ->
  Str.split_slash (x +:+ "/" +:+ rest) = x :: Str.split_slash rest.
Proof.
  induction x as [|c x IH]; intros Hx; [reflexivity|].
  cbn [Str.contains_slash] in Hx. apply orb_false_iff in Hx as [Hc Hx].
  rewrite append_String. cbn [Str.split_slash]. rewrite Hc, (IH Hx). reflexivity.
Qed.

Lemma split_slash_single (x : string) :
  Str.contains_slash x = false -> Str.split_slash x = [x].
Proof.
  induction x as [|c x IH]; intros Hx; [reflexivity|].
  cbn [Str.contains_slash] in Hx. apply orb_false_iff in Hx as [Hc Hx].
  cbn [Str.split_slash]. rewrite Hc, (IH Hx). reflexivity.
Qed.

(** Splitting what was joined gives the components back. *)
Lemma split_join_slash (l : list string) :
  l <> [] ->
  Forall (fun x => Str.contains_slash x = false) l ->
  Str.split_slash (Str.join_slash l) = l.
Proof.
  induction l as [|x l IH]; intros Hne Hl; [now contradict Hne|].
  inversion Hl as [|? ? Hx Hl']; subst. destruct l as [|y l].
  - cbn. now apply split_slash_single.
  - cbn [Str.join_slash]. rewrite (split_slash_cons _ _ Hx). f_equal.
    apply IH; [discriminate|exact Hl'].
Qed.

Lemma split_slash_no_slash (s : string) :
  Forall (fun x => Str.contains_slash x = false) (Str.split_slash s).
Proof.
  induction s as [|c s IH]; [now repeat constructor|].
  cbn [Str.split_slash]. destruct (Ascii.eqb c "/") eqn:Hc.
  - constructor; [reflexivity|exact IH].
  - destruct (Str.split_slash s) as [|x xs]; [now repeat constructor; cbn; rewrite Hc|].
    inversion IH; subst. constructor; [|assumption]. cbn. now rewrite Hc.
Qed.

Lemma leading_slashes_no_slash (x : string) :
  Str.contains_slash x = false -> Str.leading_slashes x = O.
Proof.
  destruct x as [|c x]; [reflexivity|]. cbn. now intros [-> _]%orb_false_iff.
Qed.

Lemma mem_string_In (x : string) (l : list string) : mem_string x l = true <-> In x l.
Proof.
  unfold mem_string. rewrite List.existsb_exists. split.
  - intros (y & Hy & Heq). apply String.eqb_eq in Heq. now subst.
  - intros Hx. exists x. split; [exact Hx|apply String.eqb_refl].
Qed.

Lemma safe_name_spec (x : string) :
  safe_name x = true
  <-> x <> "" /\ x <> "." /\ x <> ".." /\ Str.contains_slash x = false.
Proof.
  unfold safe_name. rewrite andb_true_iff, !negb_true_iff. split.
  - intros [Hbad Hslash]. repeat split; try exact Hslash;
      intros ->; discriminate.
  - intros (H1 & H2 & H3 & Hslash). split; [|exact Hslash].
    destruct (mem_string x bad_components) eqn:Hm; [|reflexivity].
    apply mem_string_In in Hm. cbn in Hm. intuition congruence.
Qed.

(** ** What the sanitizer does guarantee *)

Lemma parse_names (s : string) :
  Forall (fun x => PurePath.keep_component x = true /\ Str.contains_slash x = false)
         (names (PurePath.parse s)).
Proof.
  cbn [PurePath.parse names]. apply List.Forall_forall. intros x Hx.
  apply List.filter_In in Hx as [Hin Hkeep]. split; [exact Hkeep|].
  pose proof (split_slash_no_slash s) as Hs. rewrite List.Forall_forall in Hs.
  now apply Hs.
Qed.

Lemma parse_root (s : string) :
  root (PurePath.parse s) = "" \/ root (PurePath.parse s) = "/"
  \/ root (PurePath.parse s) = "//".
Proof.
  cbn [PurePath.parse root]. destruct (Str.leading_slashes s) as [|[|[|n]]]; auto.
Qed.

Lemma parse_safe_name (x : string) :
  safe_name x = true -> PurePath.parse x = mkPath "" [x].
Proof.
  intros (H1 & H2 & _ & Hslash)%safe_name_spec. unfold PurePath.parse.
  rewrite (leading_slashes_no_slash _ Hslash), (split_slash_single _ Hslash).
  cbn [List.filter]. unfold PurePath.keep_component.
  apply String.eqb_neq in H1, H2. now rewrite H1, H2.
Qed.

Lemma fold_joinpath_safe (l : list Path) (acc : Path) :
  Forall (fun x => safe_name x = true) (names acc) ->
  Forall (fun q => Forall (fun x => safe_name x = true) (names q)) l ->
  Forall (fun x => safe_name x = true) (names (fold_left PurePath.joinpath l acc)).
Proof.
  revert acc. induction l as [|q l IH]; intros acc Hacc Hl; [exact Hacc|].
  inversion Hl as [|? ? Hq Hl']; subst. cbn [fold_left]. apply IH; [|exact Hl'].
  unfold PurePath.joinpath. destruct (PurePath.is_absolute q); [exact Hq|].
  cbn [names]. apply Forall_app. now split.
Qed.

Lemma last_In_nonempty (l : list string) (d : string) :
  l <> [] -> In (List.last l d) l.
Proof.
  intros Hne. destruct l as [|x l]; [now contradict Hne|]. clear Hne.
  revert x. induction l as [|y l IH]; intros x; [now left|]. right. apply IH.
Qed.

(** The path the sanitizer returns is [".."], or all its components are
    safe; nothing is said of its root. *)
Lemma sanitize_names (filename : string) :
  (root (_sanitize_relative_path filename) = ""
   /\ names (_sanitize_relative_path filename) = [".."])
  \/ Forall (fun x => safe_name x = true) (names (_sanitize_relative_path filename)).
Proof.
  unfold _sanitize_relative_path.
  set (candidate := PurePath.parse filename).
  set (keep := fun part => negb (mem_string part [""; "."; ".."])).
  assert (Hparts : forall part, In part (List.filter keep (PurePath.parts candidate)) ->
                     Forall (fun x => safe_name x = true) (names (PurePath.parse part))).
  { intros part [Hin Hkeep]%List.filter_In. unfold PurePath.parts in Hin.
    assert (Hcases : part = root candidate \/ In part (names candidate)).
    { destruct (PurePath.is_absolute candidate); [destruct Hin; auto|auto]. }
    destruct Hcases as [->|Hname].
    - destruct (parse_root filename) as [Hr|[Hr|Hr]]; fold candidate in Hr; rewrite Hr;
        constructor.
    - pose proof (parse_names filename) as Hn. rewrite List.Forall_forall in Hn.
      destruct (Hn _ Hname) as [_ Hslash].
      assert (Hsafe : safe_name part = true).
      { unfold safe_name, keep, bad_components in *. now rewrite Hkeep, Hslash. }
      rewrite (parse_safe_name _ Hsafe). now repeat constructor. }
  destruct (List.filter keep (PurePath.parts candidate)) as [|part parts] eqn:Hsafe.
  - destruct (String.eqb (PurePath.name candidate) "") eqn:Hname.
    + right. vm_compute. now repeat constructor.
    + apply String.eqb_neq in Hname.
      assert (Hne : names candidate <> []).
      { intros Hnil. apply Hname. unfold PurePath.name. now rewrite Hnil. }
      assert (Hin : In (PurePath.name candidate) (PurePath.parts candidate)).
      { unfold PurePath.parts, PurePath.name.
        destruct (PurePath.is_absolute candidate); [right|]; now apply last_In_nonempty. }
      assert (Hbad : keep (PurePath.name candidate) = false).
      { destruct (keep (PurePath.name candidate)) eqn:Hk; [|reflexivity].
        assert (Hf : In (PurePath.name candidate)
                        (List.filter keep (PurePath.parts candidate)))
          by (apply List.filter_In; now split).
        rewrite Hsafe in Hf. destruct Hf. }
      unfold keep in Hbad. apply negb_false_iff, mem_string_In in Hbad.
      destruct Hbad as [Hb|[Hb|[Hb|[]]]]; rewrite <- Hb.
      * now contradict Hname.
      * right. constructor.
      * left. now split.
  - right. unfold PurePath.of_args. apply fold_joinpath_safe; [constructor|].
    apply List.Forall_forall. intros q Hq. apply List.in_map_iff in Hq as (p & <- & Hp).
    now apply Hparts.
Qed.

(** ** Relative paths and the audio extension *)

Lemma strip_prefix_app (pre l : list string) :
  PurePath.strip_prefix pre (pre ++ l) = Some l.
Proof.
  induction pre as [|x pre IH]; [reflexivity|].
  cbn. now rewrite String.eqb_refl.
Qed.

Lemma strip_prefix_Some (pre l rest : list string) :
  PurePath.strip_prefix pre l = Some rest -> l = pre ++ rest.
Proof.
  revert l. induction pre as [|x pre IH]; intros l H.
  - cbn in H. now injection H as ->.
  - destruct l as [|y l]; [discriminate|]. cbn in H.
    destruct (String.eqb_spec x y) as [->|]; [|discriminate].
    cbn. f_equal. now apply IH.
Qed.

(** The path of a saved upload, taken relative to the upload directory, has
    sanitized components. *)
Lemma relative_to_sanitized (upload_dir relative : Path) (filename : string) :
  PurePath.relative_to (upload_dir // _sanitize_relative_path filename) upload_dir
  = Some relative ->
  root relative = "" /\ sanitized_names (names relative).
Proof.
  intros Hrel. unfold PurePath.relative_to in Hrel.
  destruct (String.eqb _ _); [|discriminate].
  destruct (PurePath.strip_prefix _ _) as [rest|] eqn:Hstrip; [|discriminate].
  injection Hrel as <-. cbn [root names]. split; [reflexivity|].
  unfold PurePath.joinpath in Hstrip.
  destruct (PurePath.is_absolute (_sanitize_relative_path filename)) eqn:Habs.
  - apply strip_prefix_Some in Hstrip.
    destruct (sanitize_names filename) as [[Hroot _]|Hsafe].
    + unfold PurePath.is_absolute in Habs. rewrite Hroot in Habs. discriminate.
    + right. rewrite Hstrip in Hsafe. now apply Forall_app in Hsafe as [_ Hsafe].
  - cbn [names] in Hstrip. rewrite strip_prefix_app in Hstrip. injection Hstrip as <-.
    destruct (sanitize_names filename) as [[_ Hdots]|Hsafe]; [now left|now right].
Qed.

Lemma length_append (a b : string) :
  String.length (a +:+ b) = (String.length a + String.length b)%nat.
Proof.
  induction a as [|c a IH]; [reflexivity|].
  rewrite append_String. cbn [String.length Nat.add]. now rewrite IH.
Qed.

Lemma contains_slash_upto (k : nat) (s : string) :
  Str.contains_slash s = false -> Str.contains_slash (Str.upto k s) = false.
Proof.
  unfold Str.upto. revert k. induction s as [|c s IH]; intros k Hs.
  - now destruct k.
  - destruct k as [|k]; [reflexivity|].
    cbn [Str.contains_slash] in Hs. apply orb_false_iff in Hs as [Hc Hs].
    cbn [substring Str.contains_slash]. now rewrite Hc, (IH k Hs).
Qed.

Lemma ends_with_append (sfx a : string) : Str.ends_with sfx (a +:+ sfx) = true.
Proof.
  induction a as [|c a IH].
  - change ("" +:+ sfx) with sfx. destruct sfx; cbn [Str.ends_with];
      now rewrite String.eqb_refl.
  - rewrite append_String. cbn [Str.ends_with]. rewrite IH. now destruct (String.eqb _ _).
Qed.

Lemma ends_with_prepend (sfx a s : string) :
  Str.ends_with sfx s = true -> Str.ends_with sfx (a +:+ s) = true.
Proof.
  intros Hs. induction a as [|c a IH]; [exact Hs|].
  rewrite append_String. cbn [Str.ends_with]. rewrite IH. now destruct (String.eqb _ _).
Qed.

(** A name with the audio extension appended is a safe component. *)
Lemma safe_name_mp3 (x : string) :
  Str.contains_slash x = false -> safe_name (x +:+ ".mp3") = true.
Proof.
  intros Hx. apply safe_name_spec.
  assert (Hlen : (4 <= String.length (x +:+ ".mp3"))%nat)
    by (rewrite length_append; cbn; lia).
  repeat split; try (intros Heq; rewrite Heq in Hlen; cbn in Hlen; lia).
  rewrite contains_slash_append, Hx. reflexivity.
Qed.

Lemma Forall_removelast {A} (P : A -> Prop) (l : list A) :
  Forall P l -> Forall P (List.removelast l).
Proof.
  induction 1 as [|x l Hx Hl IH]; [constructor|].
  cbn. destruct l; [constructor|]. now constructor.
Qed.

Lemma last_app_single {A} (l : list A) (x d : A) : List.last (l ++ [x]) d = x.
Proof. now rewrite last_app_default. Qed.

(** Replacing the extension of a sanitized relative path by [".mp3"] gives a
    relative path of safe components whose last one ends with [".mp3"]. *)
Lemma with_suffix_mp3_safe (relative audio_relative : Path) :
  PurePath.with_suffix relative ".mp3" = Some audio_relative ->
  sanitized_names (names relative) ->
  root audio_relative = root relative
  /\ names audio_relative <> []
  /\ Forall (fun x => safe_name x = true) (names audio_relative)
  /\ Str.ends_with ".mp3" (List.last (names audio_relative) "") = true.
Proof.
  intros Hsfx Hsan. unfold PurePath.with_suffix in Hsfx.
  cbn [Str.contains_slash Str.starts_with_dot String.eqb Ascii.eqb Bool.eqb
       orb andb negb] in Hsfx.
  destruct (String.eqb (PurePath.name relative) "") eqn:Hname; [discriminate|].
  apply String.eqb_neq in Hname.
  assert (Hslash : Str.contains_slash (PurePath.name relative) = false).
  { unfold PurePath.name in *. destruct Hsan as [->|Hsafe]; [reflexivity|].
    rewrite List.Forall_forall in Hsafe.
    assert (Hin : In (List.last (names relative) "") (names relative)).
    { apply last_In_nonempty. intros Hnil. apply Hname. now rewrite Hnil. }
    now apply Hsafe, safe_name_spec in Hin. }
  assert (Hinit : Forall (fun x => safe_name x = true) (List.removelast (names relative))).
  { destruct Hsan as [->|Hsafe]; [constructor|now apply Forall_removelast]. }
  set (n' := if String.eqb (PurePath.suffix relative) "" then _ else _) in Hsfx.
  assert (Hn' : exists x, Str.contains_slash x = false /\ n' = x +:+ ".mp3").
  { subst n'. destruct (String.eqb (PurePath.suffix relative) "").
    - now exists (PurePath.name relative).
    - eexists. split; [|reflexivity]. now apply contains_slash_upto. }
  destruct Hn' as (x & Hx & Hn'). injection Hsfx as <-. cbn [root names].
  split; [reflexivity|]. split; [now destruct (List.removelast (names relative))|].
  split.
  - apply Forall_app. split; [exact Hinit|]. constructor; [|constructor].
    rewrite Hn'. now apply safe_name_mp3.
  - rewrite last_app_single, Hn'. apply ends_with_append.
Qed.

(** ** Names of the archive entries *)

Lemma norm_step_safe (l acc : list string) :
  Forall (fun x => safe_name x = true) l ->
  fold_left (ZipFile.norm_step 0) l acc = acc ++ l.
Proof.
  revert acc. induction l as [|x l IH]; intros acc Hl; [now rewrite app_nil_r|].
  inversion Hl as [|? ? Hx Hl']; subst. cbn [fold_left].
  apply safe_name_spec in Hx as (H1 & H2 & H3 & _).
  unfold ZipFile.norm_step at 2.
  apply String.eqb_neq in H1, H2, H3. rewrite H1, H2, H3. cbn [orb negb].
  rewrite (IH _ Hl'). now rewrite <- app_assoc.
Qed.

Lemma join_slash_head (x : string) (l : list string) :
  exists rest, Str.join_slash (x :: l) = x +:+ rest.
Proof.
  destruct l as [|y l].
  - exists "". cbn. clear. induction x as [|c x IH]; [reflexivity|].
    rewrite append_String. now f_equal.
  - eexists. reflexivity.
Qed.

Lemma leading_slashes_join (l : list string) :
  Forall (fun x => safe_name x = true) l ->
  Str.leading_slashes (Str.join_slash l) = O /\ (l <> [] -> Str.join_slash l <> "").
Proof.
  intros Hl. destruct l as [|x l]; [split; [reflexivity|intros H; now contradict H]|].
  inversion Hl as [|? ? Hx _]; subst.
  apply safe_name_spec in Hx as (Hne & _ & _ & Hslash).
  destruct (join_slash_head x l) as [rest ->].
  destruct x as [|c x]; [now contradict Hne|].
  rewrite append_String. cbn [Str.contains_slash] in Hslash.
  apply orb_false_iff in Hslash as [Hc _]. cbn [Str.leading_slashes]. rewrite Hc.
  split; [reflexivity|discriminate].
Qed.

(** The archive stores a relative path of safe components under its own
    name. *)
Lemma stored_name_safe (p : Path) :
  root p = "" -> names p <> [] ->
  Forall (fun x => safe_name x = true) (names p) ->
  ZipFile.stored_name (PurePath.as_posix p) = PurePath.as_posix p.
Proof.
  intros Hroot Hne Hsafe.
  assert (Hposix : PurePath.as_posix p = Str.join_slash (names p)).
  { unfold PurePath.as_posix. rewrite Hroot. destruct (names p); [now contradict Hne|].
    reflexivity. }
  rewrite Hposix.
  destruct (leading_slashes_join _ Hsafe) as [Hlead Hnonempty].
  specialize (Hnonempty Hne). apply String.eqb_neq in Hnonempty.
  unfold ZipFile.stored_name, ZipFile.normpath. rewrite Hnonempty, Hlead.
  rewrite split_join_slash; [|exact Hne|].
  - rewrite norm_step_safe by exact Hsafe. cbn [app ZipFile.slashes].
    change ("" +:+ ?s) with s. rewrite Hnonempty.
    destruct (Str.join_slash (names p)) as [|c s] eqn:Hj; [reflexivity|].
    cbn [Str.leading_slashes] in Hlead. cbn [ZipFile.lstrip_slashes].
    destruct (Ascii.eqb c "/"); [discriminate|reflexivity].
  - eapply List.Forall_impl; [|exact Hsafe]. cbn. now intros x Hx%safe_name_spec.
Qed.

Lemma join_slash_ends_with (sfx : string) (l : list string) :
  Str.ends_with sfx (List.last l "") = true ->
  l <> [] ->
  Str.ends_with sfx (Str.join_slash l) = true.
Proof.
  induction l as [|x l IH]; intros Hlast Hne; [now contradict Hne|].
  destruct l as [|y l]; [exact Hlast|].
  cbn [Str.join_slash]. apply ends_with_prepend. apply (ends_with_prepend sfx "/").
  apply IH; [exact Hlast|discriminate].
Qed.

(** The name of an audio entry is never the name of the report. *)
Lemma audio_name_is_not_report (p : Path) :
  root p = "" -> names p <> [] ->
  Str.ends_with ".mp3" (List.last (names p) "") = true ->
  PurePath.as_posix p <> "conversion_report.txt".
Proof.
  intros Hroot Hne Hlast Heq.
  assert (Hends : Str.ends_with ".mp3" (PurePath.as_posix p) = true).
  { unfold PurePath.as_posix. rewrite Hroot. destruct (names p) eqn:Hn; [now contradict Hne|].
    rewrite <- Hn in *. now apply join_slash_ends_with. }
  rewrite Heq in Hends. discriminate.
Qed.

(** ** What the loop collects *)

Lemma process_files_generated (lib : option (string -> clip)) (job_id : string)
    (upload_dir output_dir : Path) (all_files files : list Path) (index : Z)
    (errs errs' : list string) (generated generated' : list (Path * Path)) :
  (forall v, In v files -> In v all_files) ->
  Forall (generated_from upload_dir all_files) generated ->
  outcome (process_files lib job_id upload_dir output_dir index files errs generated)
  = inr (next_file errs' generated') ->
  Forall (generated_from upload_dir all_files) generated'.
Proof.
  revert index errs generated.
  induction files as [|v files IH]; intros index errs generated Hsub Hgen Hout.
  - cbn in Hout. now injection Hout as <- <-.
  - cbn [process_files] in Hout. rewrite outcome_bind in Hout.
    destruct (outcome (process_file _ _ _ _ _ _ _ _)) as [e|[errs1 generated1|]] eqn:Hturn;
      try discriminate.
    apply (IH _ _ _ (fun w Hw => Hsub w (or_intror Hw))) in Hout; [exact Hout|].
    destruct (process_file_returns _ _ _ _ _ _ _ _ _ Hturn)
      as (relative & audio_relative & Hrel & Hsfx & Hflow).
    unfold after_conversion in Hflow.
    destruct (outcome (conversion _ _ _ _ _)) as [exc|produced];
      [destruct (is_ModuleNotFoundError exc); [discriminate|]|];
      cbn [snd] in Hflow; injection Hflow as -> ->; [exact Hgen|].
    apply Forall_app. split; [exact Hgen|]. constructor; [|constructor].
    exists v, relative. split; [apply Hsub; now left|]. now split.
Qed.

(** The loop leaves the status as it is or sets it to [failed]. *)
Lemma process_files_status (lib : option (string -> clip)) (job_id : string)
    (upload_dir output_dir : Path) (files : list Path) (index : Z)
    (errs : list string) (generated : list (Path * Path)) (job : ConversionJob) :
  let job' := job_after job_id job
                (trace (process_files lib job_id upload_dir output_dir index files
                                      errs generated)) in
  status job' = status job \/ status job' = failed.
Proof.
  revert index errs generated job.
  induction files as [|v files IH]; intros index errs generated job; [now left|].
  cbn [process_files]. rewrite trace_bind.
  assert (Hturn : status (job_after job_id job
                            (trace (process_file lib job_id upload_dir output_dir index v
                                                 errs generated))) = status job
                  \/ status (job_after job_id job
                               (trace (process_file lib job_id upload_dir output_dir index v
                                                    errs generated))) = failed).
  { destruct (PurePath.relative_to v upload_dir) as [relative|] eqn:Hrel;
      [destruct (PurePath.with_suffix relative ".mp3") as [audio_relative|] eqn:Hsfx|].
    - rewrite (process_file_job_after _ _ _ _ _ _ _ _ _ _ _ Hrel Hsfx). unfold turn_changes.
      destruct (outcome _) as [exc|produced]; [destruct (is_ModuleNotFoundError exc)|];
        destruct job; cbn; auto.
    - destruct (process_file_raises lib job_id upload_dir output_dir index v errs generated)
        as [e ->]; [intros r Hr; congruence|]. now left.
    - destruct (process_file_raises lib job_id upload_dir output_dir index v errs generated)
        as [e ->]; [intros r Hr; congruence|]. now left. }
  destruct (outcome (process_file _ _ _ _ _ _ _ _)) as [e|[errs1 generated1|]].
  - exact Hturn.
  - rewrite job_after_app.
    destruct (IH (index + 1) errs1 generated1
                 (job_after job_id job
                    (trace (process_file lib job_id upload_dir output_dir index v
                                         errs generated)))) as [H|H].
    + rewrite H. exact Hturn.
    + now right.
  - cbn [trace ret]. now rewrite app_nil_r.
Qed.

(** ** What [convert] hands to the worker *)

Lemma convert_starts_worker {fs : FileSystem} (temp_dir : Path) (uuid : string) (uploads : list string)
    (s s' : Server) (resp : response) (args : worker_args) :
  convert temp_dir uuid uploads s = inr (resp, s', Some args) ->
  arg_job_id args = uuid
  /\ Forall (saved_upload (arg_upload_dir args)) (arg_supported_files args)
  /\ exists job,
       jobs s' !! uuid = Some job
       /\ newly_created job (arg_supported_files args).
Proof.
  unfold convert. intros H.
  destruct (_ || _)%bool; [discriminate|].
  set (upload_dir := temp_dir // PurePath.parse "uploads") in *.
  set (saved := List.map (fun f => upload_dir // _sanitize_relative_path f) _) in *.
  destruct (save_uploads saved); [discriminate|].
  destruct saved as [|s0 saved'] eqn:Hsaved; [discriminate|].
  rewrite <- Hsaved in *.
  destruct (_filter_supported saved) as [|v supported] eqn:Hsup.
  - destruct (relative_names _ _); discriminate.
  - rewrite <- Hsup in *. destruct (relative_names _ _); [|discriminate].
    injection H as _ <- <-. cbn [arg_job_id arg_upload_dir arg_supported_files jobs].
    split; [reflexivity|]. split.
    + apply List.Forall_forall. intros w Hw. unfold _filter_supported in Hw.
      apply List.filter_In in Hw as [Hw _]. unfold saved in Hw.
      apply List.in_map_iff in Hw as (f & <- & _). now exists f.
    + eexists. split; [apply lookup_insert_eq|]. repeat split.
Qed.

(** ** The archive *)

(** The archive-relative name of a generated file of a saved upload is a
    relative path of safe components ending with [".mp3"]. *)
Lemma generated_name_safe (upload_dir : Path) (files : list Path) (g : Path * Path) :
  Forall (saved_upload upload_dir) files ->
  generated_from upload_dir files g ->
  ZipFile.stored_name (PurePath.as_posix (snd g)) = PurePath.as_posix (snd g)
  /\ PurePath.as_posix (snd g) <> "conversion_report.txt".
Proof.
  intros Hsaved (v & relative & Hv & Hrel & Hsfx).
  rewrite List.Forall_forall in Hsaved. destruct (Hsaved v Hv) as [filename ->].
  destruct (relative_to_sanitized _ _ _ Hrel) as [Hroot Hsan].
  destruct (with_suffix_mp3_safe _ _ Hsfx Hsan) as (Hroot' & Hne & Hsafe & Hends).
  rewrite Hroot in Hroot'. split.
  - now apply stored_name_safe.
  - now apply audio_name_is_not_report.
Qed.

Lemma zip_entries_names (upload_dir : Path) (files : list Path)
    (generated : list (Path * Path)) (errs : list string) :
  Forall (saved_upload upload_dir) files ->
  Forall (generated_from upload_dir files) generated ->
  entry_names (zip_entries generated errs)
  = List.map (fun g => PurePath.as_posix (snd g)) generated
    ++ match errs with [] => [] | _ => ["conversion_report.txt"] end
  /\ ~ In "conversion_report.txt"
        (List.map (fun g => PurePath.as_posix (snd g)) generated).
Proof.
  intros Hsaved Hgen. unfold entry_names, zip_entries.
  rewrite List.map_app, List.map_map. cbn [arcname]. split.
  - f_equal.
    + apply List.map_ext_in. intros g Hg. rewrite List.Forall_forall in Hgen.
      exact (proj1 (generated_name_safe upload_dir files g Hsaved (Hgen g Hg))).
    + now destruct errs.
  - intros Hin. apply List.in_map_iff in Hin as (g & Heq & Hg).
    rewrite List.Forall_forall in Hgen.
    exact (proj2 (generated_name_safe upload_dir files g Hsaved (Hgen g Hg)) Heq).
Qed.

(** C7: for a job that [convert] created and that its worker completed,
    every path listed in [generated_files] names an entry of the archive the
    worker wrote, each such path is the path of a queued file relative to the
    upload directory with its extension replaced by [".mp3"], the entries are
    exactly these followed by the report when there is one, and the archive
    has an entry named [conversion_report.txt] if and only if the job's error
    list is not empty. *)
Theorem archive_matches_generated_files {fs : FileSystem} (lib : option (string -> clip))
    (temp_dir : Path) (uuid : string) (uploads : list string) (s s' : Server)
    (resp : response) (args : worker_args) (job' : ConversionJob) :
  let m := _process_job lib (arg_job_id args) (arg_upload_dir args)
                        (arg_output_dir args) (arg_supported_files args) in
  convert temp_dir uuid uploads s = inr (resp, s', Some args) ->
  run (jobs s') (trace m) !! uuid = Some job' ->
  status job' = completed ->
  exists zip_path entries generated,
    In (WriteZip zip_path entries) (trace m)
    /\ download_path job' = Some zip_path
    /\ Forall (generated_from (arg_upload_dir args) (arg_supported_files args)) generated
    /\ generated_files job' = List.map (fun g => PurePath.as_posix (snd g)) generated
    /\ entry_names entries
       = generated_files job'
         ++ match errors job' with [] => [] | _ => ["conversion_report.txt"] end
    /\ (forall name, In name (generated_files job') -> In name (entry_names entries))
    /\ (In "conversion_report.txt" (entry_names entries) <-> errors job' <> []).
Proof.
  intros m Hconvert Hrun Hcompleted.
  destruct (convert_starts_worker _ _ _ _ _ _ _ Hconvert)
    as (Hid & Hsaved & job & Hjob & Hnew).
  subst m. rewrite Hid in *.
  assert (Hjob' : job' = job_after uuid job
                           (trace (_process_job lib uuid (arg_upload_dir args)
                                     (arg_output_dir args) (arg_supported_files args)))).
  { pose proof (run_lookup (trace (_process_job lib uuid (arg_upload_dir args)
                                     (arg_output_dir args) (arg_supported_files args)))
                           _ _ _ Hjob) as Hrun'.
    congruence. }
  clear Hrun. rewrite _process_job_trace in Hjob' |- *.
  change (?e :: ?t ++ ?u) with ([e] ++ t ++ u) in Hjob'.
  rewrite !job_after_app in Hjob'.
  change (job_after uuid job [initial_update uuid])
    with (job_step uuid job (initial_update uuid)) in Hjob'.
  destruct (initial_update_invariant uuid job _ Hnew) as (Hinv1 & _ & Hrunning).
  pose proof (process_files_status lib uuid (arg_upload_dir args) (arg_output_dir args)
                (arg_supported_files args) 1 [] []
                (job_step uuid job (initial_update uuid))) as Hstatus.
  cbv zeta in Hstatus. rewrite Hrunning in Hstatus.
  destruct (outcome (process_files _ _ _ _ _ _ _ _)) as [e|[errs generated|]] eqn:Hloop.
  - cbn [job_after fold_left] in Hjob'. rewrite <- Hjob', Hcompleted in Hstatus.
    destruct Hstatus; discriminate.
  - destruct (process_files_invariant _ _ _ _ _ _ _ _ _ _ _ Hinv1 Hloop)
      as ((_ & _ & _ & Herrs) & _ & _).
    destruct (process_files_invariant _ _ _ _ _ _ _ _ _ _ _ Hinv1 Hloop)
      as (_ & _ & Hst2).
    rewrite Hrunning in Hst2.
    assert (Hok : archive_ok (arg_output_dir args) errs generated /\ generated <> []).
    { destruct generated as [|g generated].
      - exfalso.
        match type of Hjob' with
        | _ = job_after uuid ?j (trace (package _ _ _ _)) =>
            destruct (package_job_after uuid (arg_output_dir args) errs [] j
                        (or_introl eq_refl)) as (_ & _ & _ & _ & Pst & _)
        end.
        rewrite <- Hjob', Hcompleted in Pst. discriminate.
      - destruct (package_cases uuid (arg_output_dir args) errs g generated)
          as [(exc & _ & Hraise)|(Hok & _)]; [|split; [exact Hok|discriminate]].
        exfalso. rewrite Hraise in Hjob'. cbn [trace raise job_after fold_left] in Hjob'.
        rewrite <- Hjob', Hcompleted in Hst2. discriminate. }
    destruct Hok as [Hok Hsome].
    match type of Hjob' with
    | _ = job_after uuid ?j (trace (package _ _ _ _)) =>
        destruct (package_job_after uuid (arg_output_dir args) errs generated j Hok)
          as (_ & _ & _ & Perrs & Pst & _ & _ & Pfiles)
    end.
    rewrite <- Hjob' in Perrs, Pst, Pfiles.
    destruct generated as [|g generated]; [now contradict Hsome|].
    destruct (Pfiles ltac:(discriminate)) as [Pdl Pgen].
    assert (Hgen : Forall (generated_from (arg_upload_dir args) (arg_supported_files args))
                          (g :: generated)).
    { eapply process_files_generated; [| |exact Hloop]; [auto|constructor]. }
    destruct (zip_entries_names _ _ (g :: generated) errs Hsaved Hgen) as [Hnames Hnot].
    exists (arg_output_dir args // PurePath.parse "converted_audio.zip"),
           (zip_entries (g :: generated) errs), (g :: generated).
    rewrite Pdl, Pgen, Perrs, Herrs, Hnames.
    split.
    { right. apply in_or_app. right.
      rewrite (package_eq _ _ _ _ _ Hok). now left. }
    split; [reflexivity|]. split; [exact Hgen|]. split; [reflexivity|].
    split; [reflexivity|]. split.
    + intros name Hname. apply in_or_app. now left.
    + split.
      * intros [Hin|Hin]%in_app_or; [now contradict Hnot|]. now destruct errs.
      * intros Hne. apply in_or_app. right. destruct errs; [now contradict Hne|now left].
  - cbn [job_after fold_left] in Hjob'.
    rewrite <- Hjob', Hcompleted in Hstatus. destruct Hstatus; discriminate.
Qed.

Lemma archive_matches_generated_files_witness :
  exists zip_path entries,
    In (WriteZip zip_path entries)
       (trace (_process_job (fs := fs_ok) (Some lib_example) "job-1" upload_dir_example
                 output_dir_example [video_a_example; video_b_example]))
    /\ generated_files job_finished_example = ["a.mp3"]
    /\ entry_names entries = ["a.mp3"; "conversion_report.txt"]
    /\ errors job_finished_example <> [].
Proof.
  destruct (archive_matches_generated_files (fs := fs_ok) (Some lib_example) temp_dir_example "job-1"
              uploads_example (mkServer ∅ ∅) server_started_example
              (json_job_id "job-1") args_example job_finished_example)
    as (zip_path & entries & generated & Hin & _ & _ & Hfiles & Hnames & _ & Hreport).
  - vm_compute. reflexivity.
  - vm_compute. reflexivity.
  - vm_compute. reflexivity.
  - exists zip_path, entries. split; [exact Hin|].
    assert (Hgen : generated_files job_finished_example = ["a.mp3"])
      by (vm_compute; reflexivity).
    assert (Herr : errors job_finished_example
                   = ["b.mp4: Video 'b.mp4' has no audio track"])
      by (vm_compute; reflexivity).
    split; [exact Hgen|]. split.
    + rewrite Hnames, Hgen, Herr. reflexivity.
    + rewrite Herr. discriminate.
Defined.

(** * Further properties of the code *)

(** ** [_update_job] *)

Lemma update_job_other (jobs : Jobs) (job_id other : string) (changes : list change) :
  other <> job_id -> _update_job jobs job_id changes !! other = jobs !! other.
Proof.
  intros Hne. unfold _update_job. destruct (jobs !! job_id); [|reflexivity].
  apply lookup_insert_ne. congruence.
Qed.

Lemma update_job_dom (jobs : Jobs) (job_id : string) (changes : list change) :
  dom (_update_job jobs job_id changes) = dom jobs.
Proof.
  unfold _update_job. destruct (jobs !! job_id) eqn:Hjob; [|reflexivity].
  apply dom_insert_lookup_L. eexists. exact Hjob.
Qed.

Lemma update_job_absent (jobs : Jobs) (job_id : string) (changes : list change) :
  jobs !! job_id = None -> _update_job jobs job_id changes = jobs.
Proof. intros H. unfold _update_job. now rewrite H. Qed.

(** X1: [_update_job] is a field merge into one record.  For an id that is
    not registered it changes nothing (and raises nothing); for a registered
    id it replaces the record by the record with the keyword arguments
    assigned in order, leaves every other record as it is and registers or
    removes no id; and two successive calls for the same id amount to one
    call with the arguments of the first followed by those of the second. *)
Theorem update_job_is_a_field_merge (jobs : Jobs) (job_id : string)
    (changes more : list change) :
  (jobs !! job_id = None -> _update_job jobs job_id changes = jobs)
  /\ (forall job, jobs !! job_id = Some job ->
        _update_job jobs job_id changes !! job_id
        = Some (fold_left setattr changes job))
  /\ (forall other, other <> job_id ->
        _update_job jobs job_id changes !! other = jobs !! other)
  /\ dom (_update_job jobs job_id changes) = dom jobs
  /\ _update_job (_update_job jobs job_id changes) job_id more
     = _update_job jobs job_id (changes ++ more).
Proof.
  split; [apply update_job_absent|]. split.
  { intros job Hjob. unfold _update_job. rewrite Hjob. apply lookup_insert_eq. }
  split; [intros other; apply update_job_other|]. split; [apply update_job_dom|].
  unfold _update_job at 2 3. destruct (jobs !! job_id) as [job|] eqn:Hjob.
  - unfold _update_job, Jobs in *. rewrite lookup_insert_eq, insert_insert_eq.
    now rewrite fold_left_app.
  - now apply update_job_absent.
Qed.

(** ** What a trace leaves alone *)

Lemma run_effect_frame (jobs : Jobs) (job_id : string) (e : effect) :
  own_effect job_id e ->
  (forall other, other <> job_id -> run_effect jobs e !! other = jobs !! other)
  /\ dom (run_effect jobs e) = dom jobs
  /\ (jobs !! job_id = None -> run_effect jobs e = jobs).
Proof.
  destruct e as [i changes| | | |]; cbn; try (intros _; repeat split; reflexivity).
  intros ->. split; [intros other; apply update_job_other|].
  split; [apply update_job_dom|apply update_job_absent].
Qed.

(** A trace whose updates are all for [job_id] leaves the other records
    and the set of registered ids as they are, and changes nothing at all
    when [job_id] is not registered. *)
Lemma run_frame (t : list effect) (jobs : Jobs) (job_id : string) :
  Forall (own_effect job_id) t ->
  (forall other, other <> job_id -> run jobs t !! other = jobs !! other)
  /\ dom (run jobs t) = dom jobs
  /\ (jobs !! job_id = None -> run jobs t = jobs).
Proof.
  revert jobs. induction t as [|e t IH]; intros jobs Ht; [repeat split; reflexivity|].
  inversion Ht as [|? ? He Ht']; subst.
  destruct (run_effect_frame jobs job_id e He) as (Ho & Hd & Hn).
  destruct (IH (run_effect jobs e) Ht') as (Ho' & Hd' & Hn').
  cbn [run fold_left]. fold (run (run_effect jobs e) t). split; [|split].
  - intros other Hne. now rewrite Ho', Ho.
  - now rewrite Hd', Hd.
  - intros Hnone. rewrite Hn' by (rewrite Hn; assumption). now apply Hn.
Qed.

Lemma progress_effect_own (job_id : string) (t : list effect) :
  Forall (progress_effect job_id) t -> Forall (own_effect job_id) t.
Proof.
  apply List.Forall_impl. intros [i changes| | | |]; cbn; easy.
Qed.

(** X2: whatever the event, the progress callback writes nothing but the
    [current_progress] of its own job, and only a value in [0, 100]: the
    other records, the registered ids and every other field of the job stay
    as they are, and nothing changes if the job is not registered. *)
Theorem callback_changes_only_progress (jobs : Jobs) (job_id : string) (bars : Bars) :
  let jobs' := run jobs (trace (JobProgressLogger.callback job_id bars)) in
  (forall other, other <> job_id -> jobs' !! other = jobs !! other)
  /\ dom jobs' = dom jobs
  /\ (jobs !! job_id = None -> jobs' = jobs)
  /\ (forall job, jobs !! job_id = Some job ->
        exists job', jobs' !! job_id = Some job'
                     /\ forget_progress job' = forget_progress job
                     /\ (job' = job \/ 0 <= current_progress job' <= 100)).
Proof.
  intros jobs'. subst jobs'.
  assert (Hprog : Forall (progress_effect job_id)
                         (trace (JobProgressLogger.callback job_id bars))).
  { destruct (callback_trace job_id bars) as [->|(p & Hp & ->)]; [constructor|].
    repeat constructor. exists p. now split. }
  destruct (run_frame _ jobs job_id (progress_effect_own _ _ Hprog)) as (Ho & Hd & Hn).
  split; [exact Ho|]. split; [exact Hd|]. split; [exact Hn|].
  intros job Hjob. eexists. split; [apply (run_lookup _ _ _ _ Hjob)|].
  destruct (job_after_progress job_id _ job Hprog) as [Hforget Hcp].
  split; [exact Hforget|].
  destruct (callback_trace job_id bars) as [->|(p & Hp & ->)]; [now left|].
  right. cbn. rewrite String.eqb_refl. now destruct job.
Qed.

(** ** The worker writes to its own job only *)

Lemma process_file_own (lib : option (string -> clip)) (job_id : string)
    (upload_dir output_dir : Path) (index : Z) (video_path : Path)
    (errs : list string) (generated : list (Path * Path)) :
  Forall (own_effect job_id)
    (trace (process_file lib job_id upload_dir output_dir index video_path errs generated)).
Proof.
  destruct (PurePath.relative_to video_path upload_dir) as [relative|] eqn:Hrel;
    [destruct (PurePath.with_suffix relative ".mp3") as [audio_relative|] eqn:Hsfx|].
  - rewrite (process_file_eq _ _ _ _ _ _ _ _ _ _ Hrel Hsfx). cbn [trace].
    constructor; [reflexivity|]. apply Forall_app. split.
    + apply progress_effect_own, video_to_audio_file_progress.
    + unfold after_conversion.
      destruct (outcome _) as [exc|produced]; [destruct (is_ModuleNotFoundError exc)|];
        cbn [fst]; repeat constructor.
  - destruct (process_file_raises lib job_id upload_dir output_dir index video_path
                errs generated) as [e ->]; [intros r Hr; congruence|constructor].
  - destruct (process_file_raises lib job_id upload_dir output_dir index video_path
                errs generated) as [e ->]; [intros r Hr; congruence|constructor].
Qed.

Lemma process_files_own (lib : option (string -> clip)) (job_id : string)
    (upload_dir output_dir : Path) (files : list Path) (index : Z)
    (errs : list string) (generated : list (Path * Path)) :
  Forall (own_effect job_id)
    (trace (process_files lib job_id upload_dir output_dir index files errs generated)).
Proof.
  revert index errs generated.
  induction files as [|v files IH]; intros index errs generated; [constructor|].
  cbn [process_files]. rewrite trace_bind.
  pose proof (process_file_own lib job_id upload_dir output_dir index v errs generated)
    as Hturn.
  destruct (outcome _) as [e|[errs1 generated1|]]; [exact Hturn| |].
  - apply Forall_app. split; [exact Hturn|apply IH].
  - cbn [trace ret]. now rewrite app_nil_r.
Qed.

Lemma package_own {fs : FileSystem} (job_id : string) (output_dir : Path) (errs : list string)
    (generated : list (Path * Path)) :
  Forall (own_effect job_id) (trace (package job_id output_dir errs generated)).
Proof.
  destruct generated as [|g generated]; [unfold package; repeat constructor|].
  destruct (package_cases job_id output_dir errs g generated)
    as [(exc & _ & ->)|(_ & ->)]; repeat constructor.
Qed.

Lemma _process_job_own {fs : FileSystem} (lib : option (string -> clip)) (job_id : string)
    (upload_dir output_dir : Path) (files : list Path) :
  Forall (own_effect job_id) (trace (_process_job lib job_id upload_dir output_dir files)).
Proof.
  rewrite _process_job_trace. constructor; [reflexivity|].
  apply Forall_app. split; [apply process_files_own|].
  destruct (outcome _) as [e|[errs generated|]]; try constructor. apply package_own.
Qed.

(** X3: the worker of a job writes to the record of that job only: whatever
    the files and the media library do, it leaves every other record of the
    registry as it is and registers or removes no id; and when its own job is
    not registered (any more), it runs to its end without changing the
    registry. *)
Theorem worker_touches_only_its_job {fs : FileSystem} (lib : option (string -> clip)) (job_id : string)
    (upload_dir output_dir : Path) (files : list Path) (jobs : Jobs) :
  let jobs' := run jobs (trace (_process_job lib job_id upload_dir output_dir files)) in
  (forall other, other <> job_id -> jobs' !! other = jobs !! other)
  /\ dom jobs' = dom jobs
  /\ (jobs !! job_id = None -> jobs' = jobs)
  /\ (forall seen,
        observable jobs (trace (_process_job lib job_id upload_dir output_dir files)) seen ->
        dom seen = dom jobs
        /\ forall other, other <> job_id -> seen !! other = jobs !! other).
Proof.
  intros jobs'. subst jobs'.
  pose proof (_process_job_own lib job_id upload_dir output_dir files) as Hown.
  destruct (run_frame _ jobs job_id Hown) as (Ho & Hd & Hn).
  split; [exact Ho|]. split; [exact Hd|]. split; [exact Hn|].
  intros seen [k ->].
  assert (Hk : Forall (own_effect job_id)
                 (firstn k (trace (_process_job lib job_id upload_dir output_dir files)))).
  { rewrite <- (List.firstn_skipn k) in Hown. now apply Forall_app in Hown as [Hown _]. }
  destruct (run_frame _ jobs job_id Hk) as (Ho' & Hd' & _). now split.
Qed.

(** ** The statuses the worker writes *)

Lemma status_fold (changes : list change) (job : ConversionJob) :
  status (fold_left setattr changes job)
  = List.last (status_assigned changes) (status job).
Proof.
  revert job. induction changes as [|c changes IH]; intros job; [reflexivity|].
  cbn [fold_left]. rewrite IH. unfold status_assigned. cbn [flat_map].
  rewrite last_app_default. f_equal. destruct c, job; reflexivity.
Qed.

Lemma status_written_app (t1 t2 : list effect) :
  status_written (t1 ++ t2) = status_written t1 ++ status_written t2.
Proof. unfold status_written. apply flat_map_app. Qed.

(** The status after a trace of the job's own effects is the last status the
    trace assigns. *)
Lemma job_after_status (job_id : string) (t : list effect) (job : ConversionJob) :
  Forall (own_effect job_id) t ->
  status (job_after job_id job t) = List.last (status_written t) (status job).
Proof.
  revert job. induction t as [|e t IH]; intros job Ht; [reflexivity|].
  inversion Ht as [|? ? He Ht']; subst.
  cbn [job_after fold_left]. fold (job_after job_id (job_step job_id job e) t).
  rewrite (IH _ Ht'). change (e :: t) with ([e] ++ t).
  rewrite status_written_app, last_app_default. f_equal.
  destruct e as [i changes| | | |]; try reflexivity.
  cbn in He. subst i. rewrite job_step_update, status_fold.
  unfold status_written. cbn [flat_map]. now rewrite app_nil_r.
Qed.

Lemma status_written_progress (job_id : string) (t : list effect) :
  Forall (progress_effect job_id) t -> status_written t = [].
Proof.
  induction 1 as [|e t He _ IH]; [reflexivity|].
  change (e :: t) with ([e] ++ t). rewrite status_written_app, IH, app_nil_r.
  destruct e as [i changes| | | |]; try reflexivity.
  now destruct He as (_ & p & -> & _).
Qed.

Lemma process_file_status_written (lib : option (string -> clip)) (job_id : string)
    (upload_dir output_dir : Path) (index : Z) (video_path : Path)
    (errs : list string) (generated : list (Path * Path)) :
  status_written
    (trace (process_file lib job_id upload_dir output_dir index video_path errs generated))
  = match outcome (process_file lib job_id upload_dir output_dir index video_path
                                errs generated) with
    | inr returned => [failed]
    | _ => []
    end.
Proof.
  destruct (PurePath.relative_to video_path upload_dir) as [relative|] eqn:Hrel;
    [destruct (PurePath.with_suffix relative ".mp3") as [audio_relative|] eqn:Hsfx|].
  - rewrite (process_file_eq _ _ _ _ _ _ _ _ _ _ Hrel Hsfx). cbn [trace outcome].
    change (?e :: ?t ++ ?u) with ([e] ++ t ++ u). rewrite !status_written_app.
    rewrite (status_written_progress job_id (trace (conversion _ _ _ _ _)))
      by apply video_to_audio_file_progress.
    unfold after_conversion.
    destruct (outcome (conversion _ _ _ _ _)) as [exc|produced];
      [destruct (is_ModuleNotFoundError exc)|]; reflexivity.
  - destruct (process_file_raises lib job_id upload_dir output_dir index video_path
                errs generated) as [e ->]; [intros r Hr; congruence|reflexivity].
  - destruct (process_file_raises lib job_id upload_dir output_dir index video_path
                errs generated) as [e ->]; [intros r Hr; congruence|reflexivity].
Qed.

Lemma process_files_status_written (lib : option (string -> clip)) (job_id : string)
    (upload_dir output_dir : Path) (files : list Path) (index : Z)
    (errs : list string) (generated : list (Path * Path)) :
  status_written
    (trace (process_files lib job_id upload_dir output_dir index files errs generated))
  = match outcome (process_files lib job_id upload_dir output_dir index files
                                 errs generated) with
    | inr returned => [failed]
    | _ => []
    end.
Proof.
  revert index errs generated.
  induction files as [|v files IH]; intros index errs generated; [reflexivity|].
  cbn [process_files]. rewrite trace_bind, outcome_bind.
  pose proof (process_file_status_written lib job_id upload_dir output_dir index v
                errs generated) as Hturn.
  destruct (outcome (process_file _ _ _ _ _ _ _ _)) as [e|[errs1 generated1|]].
  - exact Hturn.
  - rewrite status_written_app, Hturn. apply IH.
  - rewrite status_written_app, Hturn. reflexivity.
Qed.

(** The statuses the worker assigns: [running], then at most one final
    status. *)
Lemma _process_job_status_written {fs : FileSystem} (lib : option (string -> clip)) (job_id : string)
    (upload_dir output_dir : Path) (files : list Path) :
  status_written (trace (_process_job lib job_id upload_dir output_dir files))
  = running
    :: match outcome (process_files lib job_id upload_dir output_dir 1 files [] []) with
       | inl _ => []
       | inr returned => [failed]
       | inr (next_file _ []) => [failed]
       | inr (next_file errs (g :: generated)) =>
           match write_archive (output_dir // PurePath.parse "converted_audio.zip")
                               (zip_entries (g :: generated) errs) with
           | Some _ => []
           | None => [completed]
           end
       end.
Proof.
  rewrite _process_job_trace. change (?e :: ?t ++ ?u) with ([e] ++ t ++ u).
  rewrite !status_written_app, process_files_status_written.
  destruct (outcome _) as [e|[errs [|g generated]|]]; try reflexivity.
  destruct (package_cases job_id output_dir errs g generated)
    as [(exc & Hzip & ->)|([Hnil|Hzip] & ->)]; [|discriminate Hnil|];
    cbv zeta in Hzip; rewrite Hzip; reflexivity.
Qed.

Lemma package_outcome {fs : FileSystem} (job_id : string) (output_dir : Path)
    (errs : list string) (generated : list (Path * Path)) :
  outcome (package job_id output_dir errs generated)
  = match generated with
    | [] => inr tt
    | _ =>
        match write_archive (output_dir // PurePath.parse "converted_audio.zip")
                            (zip_entries generated errs) with
        | Some exc => inl exc
        | None => inr tt
        end
    end.
Proof.
  destruct generated as [|g generated]; [reflexivity|].
  destruct (package_cases job_id output_dir errs g generated)
    as [(exc & Hzip & ->)|([Hnil|Hzip] & ->)]; [|discriminate Hnil|];
    cbv zeta in Hzip; rewrite Hzip; reflexivity.
Qed.

Lemma package_returns {fs : FileSystem} (job_id : string) (output_dir : Path)
    (errs : list string) (generated : list (Path * Path)) :
  outcome (package job_id output_dir errs generated) = inr tt <->
  archive_ok output_dir errs generated.
Proof.
  rewrite package_outcome. unfold archive_ok.
  destruct generated as [|g generated]; [now split; [left|]|].
  destruct (write_archive _ _); split; intros H; try discriminate; try reflexivity.
  - destruct H; discriminate.
  - now right.
Qed.

Lemma _process_job_outcome {fs : FileSystem} (lib : option (string -> clip)) (job_id : string)
    (upload_dir output_dir : Path) (files : list Path) :
  outcome (_process_job lib job_id upload_dir output_dir files)
  = match outcome (process_files lib job_id upload_dir output_dir 1 files [] []) with
    | inl e => inl e
    | inr returned => inr tt
    | inr (next_file errs generated) => outcome (package job_id output_dir errs generated)
    end.
Proof.
  unfold _process_job. rewrite !outcome_bind. cbn [call_update_job emit outcome].
  now destruct (outcome (process_files _ _ _ _ _ _ _ _)) as [e|[errs generated|]].
Qed.

(** ** The state machine of a job *)

Lemma status_chain (p r rest tail : list Status) :
  p ++ r ++ rest = running :: tail ->
  tail = [] \/ tail = [failed] \/ tail = [completed] ->
  status_rank (List.last p pending) <= status_rank (List.last (p ++ r) pending)
  /\ (is_final (List.last p pending) = true ->
      List.last (p ++ r) pending = List.last p pending).
Proof.
  intros Heq Htail.
  destruct p as [|a [|b [|c p]]]; destruct r as [|x [|y [|z r]]];
    destruct rest as [|u [|v [|w rest]]];
    destruct Htail as [->|[->| ->]]; simplify_eq/=; split;
    first [lia | reflexivity | discriminate | intros; reflexivity ].
Qed.

(** X4: the status of a newly created job only advances while its worker
    runs: from one observable state to a later one it goes from [pending] to
    [running] to [completed] or [failed], never back, and once it is
    [completed] or [failed] it does not change any more. *)
Theorem statuses_only_advance {fs : FileSystem} (lib : option (string -> clip)) (job_id : string)
    (upload_dir output_dir : Path) (files : list Path) (jobs : Jobs)
    (job j1 j2 : ConversionJob) (k1 k2 : nat) :
  let t := trace (_process_job lib job_id upload_dir output_dir files) in
  jobs !! job_id = Some job ->
  status job = pending ->
  (k1 <= k2)%nat ->
  run jobs (firstn k1 t) !! job_id = Some j1 ->
  run jobs (firstn k2 t) !! job_id = Some j2 ->
  status_rank (status j1) <= status_rank (status j2)
  /\ (is_final (status j1) = true -> status j2 = status j1).
Proof.
  intros t Hjob Hpending Hk H1 H2.
  rewrite (run_lookup _ _ _ _ Hjob) in H1. rewrite (run_lookup _ _ _ _ Hjob) in H2.
  injection H1 as <-. injection H2 as <-.
  pose proof (_process_job_own lib job_id upload_dir output_dir files) as Hown.
  fold t in Hown.
  set (p := firstn k1 (firstn k2 t)).
  set (r := skipn k1 (firstn k2 t)).
  assert (Hp : firstn k1 t = p).
  { unfold p. rewrite List.firstn_firstn. now rewrite Nat.min_l. }
  assert (Hpr : firstn k2 t = p ++ r) by (symmetry; apply List.firstn_skipn).
  assert (Hall : t = p ++ r ++ skipn k2 t).
  { rewrite app_assoc, <- Hpr. symmetry. apply List.firstn_skipn. }
  assert (Hwritten : status_written t
                     = status_written p ++ status_written r
                       ++ status_written (skipn k2 t)).
  { rewrite Hall at 1. now rewrite !status_written_app. }
  rewrite Hall in Hown. apply Forall_app in Hown as [Hownp Hown].
  apply Forall_app in Hown as [Hownr _].
  rewrite Hp, Hpr.
  rewrite (job_after_status job_id p job Hownp).
  rewrite (job_after_status job_id (p ++ r) job) by (apply Forall_app; now split).
  rewrite status_written_app, Hpending.
  unfold t in Hwritten. rewrite _process_job_status_written in Hwritten.
  eapply status_chain; [symmetry; exact Hwritten|].
  destruct (outcome _) as [e|[errs [|g generated]|]]; auto.
  destruct (write_archive _ _); auto.
Qed.

Lemma statuses_only_advance_witness :
  let t := trace (_process_job (fs := fs_ok) (Some lib_example) "job-1" upload_dir_example
                    output_dir_example [video_a_example; video_b_example]) in
  status_rank (status (job_after "job-1" (job_pending_example 2) (firstn 5 t)))
  <= status_rank (status (job_after "job-1" (job_pending_example 2) (firstn 15 t))).
Proof.
  intros t.
  apply (statuses_only_advance (fs := fs_ok) (Some lib_example) "job-1" upload_dir_example
           output_dir_example [video_a_example; video_b_example] (jobs_example 2)
           (job_pending_example 2) _ _ 5 15).
  - reflexivity.
  - reflexivity.
  - lia.
  - vm_compute. reflexivity.
  - vm_compute. reflexivity.
Defined.

(** ** The final state of a job *)

Lemma process_file_outputs (lib : option (string -> clip)) (job_id : string)
    (upload_dir output_dir : Path) (index : Z) (video_path : Path)
    (errs : list string) (generated : list (Path * Path)) (job : ConversionJob) :
  same_outputs
    (job_after job_id job
       (trace (process_file lib job_id upload_dir output_dir index video_path
                            errs generated)))
    job.
Proof.
  destruct (PurePath.relative_to video_path upload_dir) as [relative|] eqn:Hrel;
    [destruct (PurePath.with_suffix relative ".mp3") as [audio_relative|] eqn:Hsfx|].
  - rewrite (process_file_job_after _ _ _ _ _ _ _ _ _ _ _ Hrel Hsfx). unfold turn_changes.
    destruct (outcome _) as [exc|produced]; [destruct (is_ModuleNotFoundError exc)|];
      destruct job; split; reflexivity.
  - destruct (process_file_raises lib job_id upload_dir output_dir index video_path
                errs generated) as [e ->]; [intros r Hr; congruence|]. now split.
  - destruct (process_file_raises lib job_id upload_dir output_dir index video_path
                errs generated) as [e ->]; [intros r Hr; congruence|]. now split.
Qed.

(** The loop never writes [download_path] nor [generated_files]. *)
Lemma process_files_outputs (lib : option (string -> clip)) (job_id : string)
    (upload_dir output_dir : Path) (files : list Path) (index : Z)
    (errs : list string) (generated : list (Path * Path)) (job : ConversionJob) :
  same_outputs
    (job_after job_id job
       (trace (process_files lib job_id upload_dir output_dir index files errs generated)))
    job.
Proof.
  revert index errs generated job.
  induction files as [|v files IH]; intros index errs generated job; [now split|].
  cbn [process_files]. rewrite trace_bind.
  pose proof (process_file_outputs lib job_id upload_dir output_dir index v errs generated
                job) as [Hd Hg].
  destruct (outcome (process_file _ _ _ _ _ _ _ _)) as [e|[errs1 generated1|]].
  - now split.
  - rewrite job_after_app.
    destruct (IH (index + 1) errs1 generated1
                 (job_after job_id job
                    (trace (process_file lib job_id upload_dir output_dir index v
                                         errs generated)))) as [Hd' Hg'].
    split; congruence.
  - cbn [trace ret]. rewrite app_nil_r. now split.
Qed.

(** The record the loop leaves when it ends with the fatal [return]. *)
Lemma process_files_returned (lib : option (string -> clip)) (job_id : string)
    (upload_dir output_dir : Path) (files : list Path) (index : Z)
    (errs : list string) (generated : list (Path * Path)) (job : ConversionJob) :
  outcome (process_files lib job_id upload_dir output_dir index files errs generated)
  = inr returned ->
  let job' := job_after job_id job
                (trace (process_files lib job_id upload_dir output_dir index files
                                      errs generated)) in
  status job' = failed /\ current_file job' = None /\ current_progress job' = 0.
Proof.
  revert index errs generated job.
  induction files as [|v files IH]; intros index errs generated job Hout; [discriminate|].
  cbn [process_files] in *. rewrite outcome_bind in Hout. rewrite trace_bind.
  destruct (outcome (process_file _ _ _ _ _ _ _ _)) as [e|[errs1 generated1|]] eqn:Hturn;
    [discriminate| |].
  - rewrite job_after_app. now apply IH.
  - cbn [trace ret]. rewrite app_nil_r.
    destruct (process_file_returns _ _ _ _ _ _ _ _ _ Hturn)
      as (relative & audio_relative & Hrel & Hsfx & Hflow).
    rewrite (process_file_job_after _ _ _ _ _ _ _ _ _ _ _ Hrel Hsfx).
    unfold after_conversion in Hflow. unfold turn_changes.
    destruct (outcome (conversion _ _ _ _ _)) as [exc|produced];
      [destruct (is_ModuleNotFoundError exc)|]; try discriminate.
    destruct job. repeat split.
Qed.

Lemma package_failed_outputs {fs : FileSystem} (job_id : string) (output_dir : Path) (errs : list string)
    (job : ConversionJob) :
  same_outputs (job_after job_id job (trace (package job_id output_dir errs []))) job.
Proof.
  cbn [package trace call_update_job emit job_after fold_left]. rewrite job_step_update.
  destruct job. now split.
Qed.

(** X5: when the worker of a registered job returns, the job is in a final
    state: either [completed], with [current_progress = 100], the archive
    path in [download_path] and a non-empty [generated_files]; or [failed],
    with [current_progress = 0] and [download_path] and [generated_files] as
    they were; in both cases [current_file] is cleared. *)
Theorem worker_ends_in_a_final_state {fs : FileSystem} (lib : option (string -> clip)) (job_id : string)
    (upload_dir output_dir : Path) (files : list Path) (jobs : Jobs)
    (job : ConversionJob) :
  jobs !! job_id = Some job ->
  outcome (_process_job lib job_id upload_dir output_dir files) = inr tt ->
  exists job',
    run jobs (trace (_process_job lib job_id upload_dir output_dir files)) !! job_id
    = Some job'
    /\ current_file job' = None
    /\ ((status job' = completed
         /\ current_progress job' = 100
         /\ download_path job'
            = Some (output_dir // PurePath.parse "converted_audio.zip")
         /\ generated_files job' <> [])
        \/ (status job' = failed
            /\ current_progress job' = 0
            /\ same_outputs job' job)).
Proof.
  intros Hjob Hout. eexists. split; [apply (run_lookup _ _ _ _ Hjob)|].
  rewrite _process_job_outcome in Hout. rewrite _process_job_trace.
  change (?e :: ?t ++ ?u) with ([e] ++ t ++ u). rewrite !job_after_app.
  cbn [job_after fold_left].
  set (job1 := job_step job_id job (initial_update job_id)).
  assert (H1 : same_outputs job1 job).
  { subst job1. unfold initial_update. rewrite job_step_update. destruct job. now split. }
  pose proof (process_files_outputs lib job_id upload_dir output_dir files 1 [] [] job1)
    as H2.
  destruct (outcome (process_files _ _ _ _ _ _ _ _)) as [e|[errs generated|]] eqn:Hloop;
    [discriminate| |].
  - apply package_returns in Hout.
    match goal with
    | |- context [job_after job_id ?j (trace (package _ _ _ _))] =>
        destruct (package_job_after job_id output_dir errs generated j Hout)
          as (_ & _ & _ & _ & Pst & Pcf & Pcp & Pfiles);
        pose proof (package_failed_outputs job_id output_dir errs j) as H3
    end.
    split; [exact Pcf|]. destruct generated as [|g generated].
    + right. split; [exact Pst|]. split; [exact Pcp|].
      destruct H1, H2, H3. split; congruence.
    + left. destruct (Pfiles ltac:(discriminate)) as [Pdl Pgen].
      split; [exact Pst|]. split; [exact Pcp|]. split; [exact Pdl|].
      rewrite Pgen. discriminate.
  - cbn [job_after fold_left].
    destruct (process_files_returned _ _ _ _ _ _ _ _ job1 Hloop) as (Hst & Hcf & Hcp).
    split; [exact Hcf|]. right. split; [exact Hst|]. split; [exact Hcp|].
    destruct H1, H2. split; congruence.
Qed.

Lemma worker_ends_in_a_final_state_witness :
  exists job',
    run (jobs_example 2)
        (trace (_process_job (fs := fs_ok) (Some lib_example) "job-1" upload_dir_example
                  output_dir_example [video_b_example; video_c_example])) !! "job-1"
    = Some job'
    /\ current_file job' = None
    /\ ((status job' = completed
         /\ current_progress job' = 100
         /\ download_path job'
            = Some (output_dir_example // PurePath.parse "converted_audio.zip")
         /\ generated_files job' <> [])
        \/ (status job' = failed
            /\ current_progress job' = 0
            /\ same_outputs job' (job_pending_example 2))).
Proof.
  apply (worker_ends_in_a_final_state (fs := fs_ok) (Some lib_example) "job-1" upload_dir_example
           output_dir_example [video_b_example; video_c_example] (jobs_example 2)
           (job_pending_example 2)).
  - reflexivity.
  - vm_compute. reflexivity.
Defined.

(** ** The archive is written for completed jobs only *)

Lemma archives_written_app (t1 t2 : list effect) :
  archives_written (t1 ++ t2) = archives_written t1 ++ archives_written t2.
Proof. unfold archives_written. apply flat_map_app. Qed.

Lemma archives_written_none (t : list effect) :
  Forall no_archive t -> archives_written t = [].
Proof.
  induction 1 as [|e t He _ IH]; [reflexivity|].
  change (e :: t) with ([e] ++ t). rewrite archives_written_app, IH, app_nil_r.
  now destruct e.
Qed.

Lemma for_each_callback_no_archive (job_id : string) (events : list Bars) :
  Forall no_archive (trace (for_each (JobProgressLogger.callback job_id) events)).
Proof.
  induction events as [|bars events IH]; [constructor|].
  cbn [for_each]. rewrite trace_bind.
  assert (Hcb : Forall no_archive (trace (JobProgressLogger.callback job_id bars))).
  { destruct (callback_trace job_id bars) as [->|(p & _ & ->)]; repeat constructor. }
  destruct (outcome _); [exact Hcb|]. apply Forall_app. now split.
Qed.

Lemma conversion_no_archive (lib : option (string -> clip)) (job_id : string)
    (output_dir video_path audio_relative : Path) :
  Forall no_archive (trace (conversion lib job_id output_dir video_path audio_relative)).
Proof.
  unfold conversion. destruct lib as [lib|]; [|constructor].
  rewrite video_to_audio_file_trace. constructor; [exact I|].
  destruct (lib _) as [e|[w|]]; try constructor; [exact I|].
  apply for_each_callback_no_archive.
Qed.

Lemma process_files_no_archive (lib : option (string -> clip)) (job_id : string)
    (upload_dir output_dir : Path) (files : list Path) (index : Z)
    (errs : list string) (generated : list (Path * Path)) :
  Forall no_archive
    (trace (process_files lib job_id upload_dir output_dir index files errs generated)).
Proof.
  revert index errs generated.
  induction files as [|v files IH]; intros index errs generated; [constructor|].
  cbn [process_files]. rewrite trace_bind.
  assert (Hturn : Forall no_archive
                    (trace (process_file lib job_id upload_dir output_dir index v
                                         errs generated))).
  { destruct (PurePath.relative_to v upload_dir) as [relative|] eqn:Hrel;
      [destruct (PurePath.with_suffix relative ".mp3") as [audio_relative|] eqn:Hsfx|].
    - rewrite (process_file_eq _ _ _ _ _ _ _ _ _ _ Hrel Hsfx). cbn [trace].
      constructor; [exact I|]. apply Forall_app. split; [apply conversion_no_archive|].
      unfold after_conversion.
      destruct (outcome _) as [exc|produced]; [destruct (is_ModuleNotFoundError exc)|];
        cbn [fst]; repeat constructor.
    - destruct (process_file_raises lib job_id upload_dir output_dir index v errs generated)
        as [e ->]; [intros r Hr; congruence|constructor].
    - destruct (process_file_raises lib job_id upload_dir output_dir index v errs generated)
        as [e ->]; [intros r Hr; congruence|constructor]. }
  destruct (outcome _) as [e|[errs1 generated1|]]; [exact Hturn| |].
  - apply Forall_app. split; [exact Hturn|apply IH].
  - cbn [trace ret]. now rewrite app_nil_r.
Qed.



(** ** Every file is counted once *)

Lemma process_files_accounting (lib : option (string -> clip)) (job_id : string)
    (upload_dir output_dir : Path) (files : list Path) (index : Z)
    (errs errs' : list string) (generated generated' : list (Path * Path)) :
  outcome (process_files lib job_id upload_dir output_dir index files errs generated)
  = inr (next_file errs' generated') ->
  (List.length errs' + List.length generated'
   = List.length errs + List.length generated + List.length files)%nat.
Proof.
  revert index errs generated.
  induction files as [|v files IH]; intros index errs generated Hout.
  - cbn in Hout. injection Hout as <- <-. cbn. lia.
  - cbn [process_files] in Hout. rewrite outcome_bind in Hout.
    destruct (outcome (process_file _ _ _ _ _ _ _ _)) as [e|[errs1 generated1|]] eqn:Hturn;
      try discriminate.
    apply IH in Hout. rewrite Hout. cbn [List.length].
    destruct (process_file_returns _ _ _ _ _ _ _ _ _ Hturn)
      as (relative & audio_relative & _ & _ & Hflow).
    unfold after_conversion in Hflow.
    destruct (outcome (conversion _ _ _ _ _)) as [exc|produced];
      [destruct (is_ModuleNotFoundError exc); [discriminate|]|];
      cbn [snd] in Hflow; injection Hflow as -> ->;
      rewrite List.length_app; cbn [List.length]; lia.
Qed.

Lemma package_message {fs : FileSystem} (job_id : string) (output_dir : Path)
    (errs : list string) (generated : list (Path * Path)) (job : ConversionJob) :
  archive_ok output_dir errs generated ->
  message (job_after job_id job (trace (package job_id output_dir errs generated)))
  = Some (final_message (Z.of_nat (List.length generated)) errs).
Proof.
  intros Hzip. unfold final_message. destruct generated as [|g generated].
  - unfold package. cbn [trace call_update_job emit job_after fold_left].
    rewrite job_step_update. destruct job, errs; reflexivity.
  - rewrite (package_eq _ _ _ _ _ Hzip). cbn [trace job_after fold_left].
    rewrite job_step_update. cbn [job_step]. destruct job, errs; reflexivity.
Qed.

(** The record the worker leaves when its loop went through all the files. *)
Lemma loop_end_record {fs : FileSystem} (lib : option (string -> clip))
    (job_id : string) (upload_dir output_dir : Path) (files : list Path)
    (job : ConversionJob) (errs : list string) (generated : list (Path * Path)) :
  newly_created job files ->
  outcome (process_files lib job_id upload_dir output_dir 1 files [] [])
  = inr (next_file errs generated) ->
  let job' := job_after job_id job
                (trace (_process_job lib job_id upload_dir output_dir files)) in
  errors job' = errs
  /\ converted job' = Z.of_nat (List.length generated)
  /\ total_files job' = Z.of_nat (List.length files)
  /\ (archive_ok output_dir errs generated ->
      message job' = Some (final_message (Z.of_nat (List.length generated)) errs))
  /\ (List.length errs + List.length generated = List.length files)%nat.
Proof.
  intros Hnew Hloop job'. subst job'.
  rewrite _process_job_trace, Hloop.
  change (?e :: ?t ++ ?u) with ([e] ++ t ++ u). rewrite !job_after_app.
  cbn [job_after fold_left].
  destruct (initial_update_invariant job_id job files Hnew) as (Hinv1 & Htot1 & _).
  destruct (process_files_invariant _ _ _ _ _ _ _ _ _ _ _ Hinv1 Hloop)
    as ((_ & Hconv & _ & Herrs) & Htot2 & _).
  match goal with
  | |- context [job_after job_id ?j (trace (package _ _ _ _))] =>
      destruct (package_counters job_id output_dir errs generated j)
        as (Ptot & _ & Pconv & Perrs);
      pose proof (package_message job_id output_dir errs generated j) as Pmsg
  end.
  rewrite Ptot, Pconv, Perrs, Htot2, Htot1, Hconv, Herrs.
  pose proof (process_files_accounting _ _ _ _ _ _ _ _ _ _ Hloop) as Hacc.
  cbn [List.length] in Hacc. repeat split; try reflexivity; [exact Pmsg|lia].
Qed.

(** X7: when the worker's loop goes through all the files of a newly created
    job, every file is counted exactly once, as converted or with one line
    in the error list: [converted + len(errors) = total_files]. *)
Theorem every_file_is_accounted_for {fs : FileSystem} (lib : option (string -> clip)) (job_id : string)
    (upload_dir output_dir : Path) (files : list Path) (jobs : Jobs) (job : ConversionJob)
    (errs : list string) (generated : list (Path * Path)) :
  jobs !! job_id = Some job ->
  newly_created job files ->
  outcome (process_files lib job_id upload_dir output_dir 1 files [] [])
  = inr (next_file errs generated) ->
  exists job',
    run jobs (trace (_process_job lib job_id upload_dir output_dir files)) !! job_id
    = Some job'
    /\ errors job' = errs
    /\ converted job' = Z.of_nat (List.length generated)
    /\ converted job' + Z.of_nat (List.length (errors job')) = total_files job'.
Proof.
  intros Hjob Hnew Hloop. eexists. split; [apply (run_lookup _ _ _ _ Hjob)|].
  destruct (loop_end_record lib job_id upload_dir output_dir files job errs generated
              Hnew Hloop) as (Herrs & Hconv & Htot & _ & Hacc).
  rewrite Herrs, Hconv, Htot. repeat split; try reflexivity. lia.
Qed.

Lemma every_file_is_accounted_for_witness :
  exists job',
    run (jobs_example 2)
        (trace (_process_job (fs := fs_ok) (Some lib_example) "job-1" upload_dir_example
                  output_dir_example [video_a_example; video_b_example])) !! "job-1"
    = Some job'
    /\ converted job' + Z.of_nat (List.length (errors job')) = 2.
Proof.
  destruct (every_file_is_accounted_for (fs := fs_ok) (Some lib_example) "job-1" upload_dir_example
              output_dir_example [video_a_example; video_b_example] (jobs_example 2)
              (job_pending_example 2)
              ["b.mp4: Video 'b.mp4' has no audio track"]
              [(audio_a_example, mkPath "" ["a.mp3"])])
    as (job' & Hrun & _ & _ & Hsum).
  - reflexivity.
  - repeat split.
  - vm_compute. reflexivity.
  - exists job'. split; [exact Hrun|].
    assert (Htot : total_files job' = 2).
    { vm_compute in Hrun. injection Hrun as <-. reflexivity. }
    now rewrite <- Htot.
Defined.

(** X8: when the worker's loop goes through all the files of a newly created
    job and the archive, if one is due, is written, the final message tells
    the three outcomes apart: "Conversion completed!" when files were
    converted and there is no error, "Conversion completed with some
    errors." when files were converted and some failed, "Conversion failed
    for all uploaded videos." when none was converted and the error list is
    not empty; "No audio files were generated." is left for a job without
    any file. *)
Theorem final_message_tells_the_outcome {fs : FileSystem}
    (lib : option (string -> clip)) (job_id : string)
    (upload_dir output_dir : Path) (files : list Path) (jobs : Jobs) (job : ConversionJob)
    (errs : list string) (generated : list (Path * Path)) :
  jobs !! job_id = Some job ->
  newly_created job files ->
  outcome (process_files lib job_id upload_dir output_dir 1 files [] [])
  = inr (next_file errs generated) ->
  archive_ok output_dir errs generated ->
  exists job',
    run jobs (trace (_process_job lib job_id upload_dir output_dir files)) !! job_id
    = Some job'
    /\ message job' = Some (final_message (converted job') (errors job'))
    /\ (message job' = Some "No audio files were generated." -> files = []).
Proof.
  intros Hjob Hnew Hloop Hzip. eexists. split; [apply (run_lookup _ _ _ _ Hjob)|].
  destruct (loop_end_record lib job_id upload_dir output_dir files job errs generated
              Hnew Hloop) as (Herrs & Hconv & Htot & Hmsg & Hacc).
  rewrite Herrs, Hconv, (Hmsg Hzip). split; [reflexivity|].
  intros [= Hnone]. unfold final_message in Hnone.
  destruct (Z.eqb_spec (Z.of_nat (List.length generated)) 0) as [Hz|Hz];
    destruct errs as [|e es]; try discriminate.
  cbn [List.length] in Hacc. destruct files; [reflexivity|].
  cbn [List.length] in Hacc. lia.
Qed.

Lemma final_message_tells_the_outcome_witness :
  exists job',
    run (jobs_example 2)
        (trace (_process_job (fs := fs_ok) (Some lib_example) "job-1" upload_dir_example
                  output_dir_example [video_a_example; video_b_example])) !! "job-1"
    = Some job'
    /\ message job' = Some "Conversion completed with some errors.".
Proof.
  destruct (final_message_tells_the_outcome (fs := fs_ok) (Some lib_example) "job-1" upload_dir_example
              output_dir_example [video_a_example; video_b_example] (jobs_example 2)
              (job_pending_example 2)
              ["b.mp4: Video 'b.mp4' has no audio track"]
              [(audio_a_example, mkPath "" ["a.mp3"])])
    as (job' & Hrun & Hmsg & _).
  - reflexivity.
  - repeat split.
  - vm_compute. reflexivity.
  - right. reflexivity.
  - exists job'. split; [exact Hrun|]. rewrite Hmsg.
    vm_compute in Hrun. injection Hrun as <-. reflexivity.
Defined.

(** ** A file outside the upload directory *)

Lemma process_file_outside (lib : option (string -> clip)) (job_id : string)
    (upload_dir output_dir : Path) (index : Z) (video_path : Path)
    (errs : list string) (generated : list (Path * Path)) :
  PurePath.relative_to video_path upload_dir = None ->
  process_file lib job_id upload_dir output_dir index video_path errs generated
  = raise not_in_upload_dir.
Proof. intros H. unfold process_file. rewrite H. reflexivity. Qed.

(** X9: a queued file that is not under the upload directory stops the
    worker with a [ValueError] at the turn of that file: the worker makes no
    further update, so the job stays [running], with [processed_files] at the
    number of files handled before and below [total_files], no archive and
    no download path. *)
Theorem worker_stops_outside_upload_dir {fs : FileSystem} (lib : option (string -> clip)) (job_id : string)
    (upload_dir output_dir : Path) (done rest : list Path) (video_path : Path)
    (jobs : Jobs) (job : ConversionJob)
    (errs : list string) (generated : list (Path * Path)) :
  let files := done ++ video_path :: rest in
  let m := _process_job lib job_id upload_dir output_dir files in
  jobs !! job_id = Some job ->
  newly_created job files ->
  outcome (loop_entry lib job_id upload_dir output_dir done)
  = inr (next_file errs generated) ->
  PurePath.relative_to video_path upload_dir = None ->
  outcome m = inl not_in_upload_dir
  /\ trace m = trace (loop_entry lib job_id upload_dir output_dir done)
  /\ archives_written (trace m) = []
  /\ exists job',
       run jobs (trace m) !! job_id = Some job'
       /\ status job' = running
       /\ processed_files job' = Z.of_nat (List.length done)
       /\ processed_files job' < total_files job'
       /\ download_path job' = download_path job.
Proof.
  intros files m Hjob Hnew Hloop Hrel.
  destruct (loop_entry_trace lib job_id upload_dir output_dir done) as [Ht Ho].
  rewrite Ho in Hloop.
  pose proof (process_files_reached lib job_id upload_dir output_dir done rest video_path
                errs generated Hloop) as Hreach.
  assert (Hturn : process_files lib job_id upload_dir output_dir
                    (Z.of_nat (List.length done) + 1) (video_path :: rest) errs generated
                  = raise not_in_upload_dir).
  { cbn [process_files]. rewrite (process_file_outside _ _ _ _ _ _ _ _ Hrel). reflexivity. }
  rewrite Hturn in Hreach. cbn [trace outcome raise] in Hreach. rewrite app_nil_r in Hreach.
  assert (Htrace : trace m = trace (loop_entry lib job_id upload_dir output_dir done)).
  { unfold m, files. rewrite _process_job_trace, Hreach, Ht. cbn [trace outcome].
    now rewrite app_nil_r. }
  split; [unfold m, files; rewrite _process_job_outcome, Hreach; reflexivity|].
  split; [exact Htrace|]. split.
  { rewrite Htrace, Ht. change (?e :: ?t) with ([e] ++ t).
    rewrite archives_written_app.
    now rewrite (archives_written_none _ (process_files_no_archive _ _ _ _ _ _ _ _)). }
  eexists. split; [apply (run_lookup _ _ _ _ Hjob)|]. rewrite Htrace.
  rewrite <- Ho in Hloop.
  destruct (loop_entry_invariant lib job_id upload_dir output_dir done files job errs
              generated Hnew Hloop) as ((Hproc & _) & Htot & Hst).
  split; [exact Hst|]. split; [rewrite Hproc; lia|].
  split.
  - rewrite Hproc, Htot. unfold files. rewrite length_app. cbn [List.length]. lia.
  - rewrite Ht. change (?e :: ?t) with ([e] ++ t). rewrite job_after_app.
    destruct (process_files_outputs lib job_id upload_dir output_dir done 1 [] []
                (job_after job_id job [initial_update job_id])) as [Hd _].
    rewrite Hd. cbn [job_after fold_left]. unfold initial_update.
    rewrite job_step_update. now destruct job.
Qed.

Lemma worker_stops_outside_upload_dir_witness :
  let m := _process_job (fs := fs_ok) (Some lib_example) "job-1" upload_dir_example output_dir_example
             [video_a_example; mkPath "/" ["etc"; "passwd.mp4"]] in
  outcome m = inl not_in_upload_dir
  /\ exists job',
       run (jobs_example 2) (trace m) !! "job-1" = Some job'
       /\ status job' = running
       /\ processed_files job' = 1.
Proof.
  destruct (worker_stops_outside_upload_dir (fs := fs_ok) (Some lib_example) "job-1" upload_dir_example
              output_dir_example [video_a_example] [] (mkPath "/" ["etc"; "passwd.mp4"])
              (jobs_example 2) (job_pending_example 2)
              [] [(audio_a_example, mkPath "" ["a.mp3"])])
    as (Hout & _ & _ & job' & Hrun & Hst & Hproc & _).
  - reflexivity.
  - repeat split.
  - vm_compute. reflexivity.
  - reflexivity.
  - split; [exact Hout|]. exists job'. split; [exact Hrun|]. split; [exact Hst|exact Hproc].
Defined.

(** ** [convert] *)

Lemma insert_sorted_length (x : string) (l : list string) :
  List.length (insert_sorted x l) = S (List.length l).
Proof.
  induction l as [|y ys IH]; [reflexivity|].
  cbn [insert_sorted]. destruct (String.leb x y); cbn [List.length]; congruence.
Qed.

Lemma sorted_length (l : list string) : List.length (sorted l) = List.length l.
Proof.
  induction l as [|x xs IH]; [reflexivity|].
  cbn [sorted fold_right]. rewrite insert_sorted_length. cbn [List.length].
  f_equal. exact IH.
Qed.

Lemma relative_names_length (upload_dir : Path) (paths : list Path) (rs : list string) :
  relative_names upload_dir paths = Some rs -> List.length rs = List.length paths.
Proof.
  revert rs. induction paths as [|p ps IH]; intros rs H; cbn [relative_names] in H.
  - now injection H as <-.
  - destruct (PurePath.relative_to p upload_dir); [|discriminate].
    destruct (relative_names upload_dir ps) as [rs'|]; [|discriminate].
    injection H as <-. cbn [List.length]. f_equal. now apply IH.
Qed.

(** The files that are "not in supported_files" are those the filter
    refused. *)
Lemma not_supported_filter (files : list Path) :
  List.filter (fun p => negb (bool_decide (p ∈ _filter_supported files))) files
  = List.filter
      (fun p => negb (mem_string (Str.lower (PurePath.suffix p)) ALLOWED_SUFFIXES)) files.
Proof.
  apply List.filter_ext_in. intros p Hp. f_equal. unfold _filter_supported.
  destruct (mem_string (Str.lower (PurePath.suffix p)) ALLOWED_SUFFIXES) eqn:Hs.
  - apply bool_decide_eq_true. apply list_elem_of_In. apply List.filter_In. now split.
  - apply bool_decide_eq_false. intros Hin. apply list_elem_of_In in Hin.
    apply List.filter_In in Hin. destruct Hin as [_ Hin]. congruence.
Qed.

Lemma filter_supported_spec (files : list Path) (p : Path) :
  In p (_filter_supported files)
  <-> In p files /\ mem_string (Str.lower (PurePath.suffix p)) ALLOWED_SUFFIXES = true.
Proof. unfold _filter_supported. apply List.filter_In. Qed.

(** The shape of the answers of [convert]. *)
Lemma convert_cases {fs : FileSystem} (tmp : Path) (uuid : string) (uploads : list string) (s : Server)
    (resp : response) (s' : Server) (w : option worker_args) :
  convert tmp uuid uploads s = inr (resp, s', w) ->
  let upload_dir := tmp // PurePath.parse "uploads" in
  let saved_files :=
    List.map (fun f => upload_dir // _sanitize_relative_path f)
             (List.filter (fun f => negb (String.eqb f "")) uploads) in
  (exists err details, resp = json_error 400 err details /\ s' = s /\ w = None)
  \/ (exists unsupported,
        relative_names upload_dir
          (List.filter (fun p => negb (bool_decide (p ∈ _filter_supported saved_files)))
                       saved_files) = Some unsupported
        /\ _filter_supported saved_files <> []
        /\ resp = json_job_id uuid
        /\ s' = {| jobs := <[uuid := {| id := uuid; status := pending;
                     total_files := Z.of_nat (List.length (_filter_supported saved_files));
                     converted := 0; processed_files := 0; errors := [];
                     message := Some "Preparing conversion...";
                     download_path := None; temp_dir := Some tmp;
                     generated_files := []; unsupported_files := sorted unsupported;
                     current_file := None; current_progress := 0 |}]> (jobs s);
                   temp_dirs := temp_dirs s ∪ {[tmp]} |}
        /\ w = Some (mkArgs uuid upload_dir (tmp // PurePath.parse "outputs")
                            (_filter_supported saved_files))).
Proof.
  intros H upload_dir saved_files. unfold convert in H.
  destruct (_ || _)%bool.
  { injection H as <- <- <-. left. now eexists _, _. }
  fold upload_dir in H. fold saved_files in H.
  destruct (save_uploads saved_files); [discriminate|].
  destruct saved_files as [|p ps] eqn:Hsaved.
  { injection H as <- <- <-. left. now eexists _, _. }
  rewrite <- Hsaved in *. clear Hsaved p ps.
  destruct (_filter_supported saved_files) as [|q qs] eqn:Hsup.
  { destruct (relative_names upload_dir saved_files); [|discriminate].
    injection H as <- <- <-. left. now eexists _, _. }
  rewrite <- Hsup in *.
  destruct (relative_names upload_dir _) as [unsupported|] eqn:Hrel; [|discriminate].
  injection H as <- <- <-. right. exists unsupported.
  split; [reflexivity|]. split; [rewrite Hsup; discriminate|]. now repeat split.
Qed.

(** X10: a request that [convert] does not accept is answered with the
    status 400, leaves the jobs and the temporary directories as they were
    and starts no worker; the only other answer is the id of the job, and
    then a worker is started. *)
Theorem convert_rejection_has_no_effect {fs : FileSystem} (tmp : Path) (uuid : string)
    (uploads : list string) (s s' : Server) (resp : response) (w : option worker_args) :
  convert tmp uuid uploads s = inr (resp, s', w) ->
  (exists err details, resp = json_error 400 err details /\ s' = s /\ w = None)
  \/ (resp = json_job_id uuid /\ exists args, w = Some args).
Proof.
  intros H. destruct (convert_cases _ _ _ _ _ _ _ H) as [Hrej|(u & _ & _ & Hr & _ & Hw)].
  - left. exact Hrej.
  - right. split; [exact Hr|]. eexists. exact Hw.
Qed.

Lemma convert_rejection_has_no_effect_witness :
  let resp := json_error 400 "No supported video files were uploaded."
                         (Some ["notes.txt"]) in
  convert (fs := fs_ok) temp_dir_example "job-2" ["notes.txt"] server_example
  = inr (resp, server_example, None)
  /\ ((exists err details,
         resp = json_error 400 err details
         /\ server_example = server_example /\ @None worker_args = None)
      \/ (resp = json_job_id "job-2" /\ exists args, @None worker_args = Some args)).
Proof.
  split; [vm_compute; reflexivity|].
  apply (convert_rejection_has_no_effect (fs := fs_ok) temp_dir_example "job-2" ["notes.txt"]
           server_example).
  vm_compute. reflexivity.
Defined.

(** X11: an accepted request registers one new record under the id drawn,
    [pending], with the counters at zero, no error and no download path, and
    leaves every other record as it was; the worker gets that id, the
    directories [uploads] and [outputs] of the temporary directory and a
    non-empty list of files that all have a video extension; and every named
    upload is either queued or listed as unsupported:
    [total_files + len(unsupported_files)] is the number of uploads with a
    file name. *)
Theorem convert_registers_a_pending_job {fs : FileSystem} (tmp : Path) (uuid : string)
    (uploads : list string) (s s' : Server) (resp : response) (args : worker_args) :
  convert tmp uuid uploads s = inr (resp, s', Some args) ->
  resp = json_job_id uuid
  /\ arg_job_id args = uuid
  /\ arg_upload_dir args = tmp // PurePath.parse "uploads"
  /\ arg_output_dir args = tmp // PurePath.parse "outputs"
  /\ arg_supported_files args <> []
  /\ Forall (fun p => mem_string (Str.lower (PurePath.suffix p)) ALLOWED_SUFFIXES = true)
            (arg_supported_files args)
  /\ (forall other, other <> uuid -> jobs s' !! other = jobs s !! other)
  /\ temp_dirs s' = temp_dirs s ∪ {[tmp]}
  /\ exists job,
       jobs s' !! uuid = Some job
       /\ id job = uuid /\ status job = pending
       /\ total_files job = Z.of_nat (List.length (arg_supported_files args))
       /\ converted job = 0 /\ processed_files job = 0 /\ errors job = []
       /\ download_path job = None /\ temp_dir job = Some tmp
       /\ generated_files job = [] /\ current_progress job = 0
       /\ total_files job + Z.of_nat (List.length (unsupported_files job))
          = Z.of_nat (List.length (List.filter (fun f => negb (String.eqb f "")) uploads)).
Proof.
  intros H.
  destruct (convert_cases _ _ _ _ _ _ _ H)
    as [(err & details & _ & _ & Hw)|(u & Hrel & Hne & Hr & Hs & Hw)]; [discriminate|].
  injection Hw as ->. subst s'. cbn [arg_job_id arg_upload_dir arg_output_dir
                                     arg_supported_files jobs temp_dirs].
  repeat (split; [first [reflexivity | assumption]|]).
  split.
  { apply List.Forall_forall. intros p Hp. now apply filter_supported_spec in Hp. }
  split; [intros other Hother; now apply lookup_insert_ne|]. split; [reflexivity|].
  eexists. split; [apply lookup_insert_eq|].
  cbn [id status total_files converted processed_files errors download_path temp_dir
       generated_files current_progress unsupported_files].
  repeat (split; [reflexivity|]).
  rewrite sorted_length, (relative_names_length _ _ _ Hrel), not_supported_filter.
  unfold _filter_supported. rewrite <- Nat2Z.inj_add, List.filter_length.
  now rewrite List.length_map.
Qed.

Lemma convert_registers_a_pending_job_witness :
  json_job_id "job-1" = json_job_id "job-1"
  /\ exists job,
       jobs server_started_example !! "job-1" = Some job
       /\ total_files job = 2 /\ unsupported_files job = ["notes.txt"].
Proof.
  destruct (convert_registers_a_pending_job (fs := fs_ok) temp_dir_example "job-1" uploads_example
              (mkServer ∅ ∅) server_started_example (json_job_id "job-1") args_example)
    as (Hr & _ & _ & _ & _ & _ & _ & _ & job & Hjob & _).
  - vm_compute. reflexivity.
  - split; [exact Hr|]. exists job. split; [exact Hjob|].
    vm_compute in Hjob. injection Hjob as <-. split; reflexivity.
Defined.

(** ** [status] and [download] *)

(** X12: [status] offers a download link exactly when [download] would
    serve the archive of that job; it answers nothing (404) exactly when the
    id is not registered, and then [download] answers 404 too. *)
Theorem status_link_iff_download_serves (s : Server) (job_id : string) :
  ((exists job url, status_payload s job_id = Some (job, Some url))
   <-> (exists path name, fst (download s job_id) = send_file path name))
  /\ (status_payload s job_id = None <-> jobs s !! job_id = None)
  /\ (status_payload s job_id = None -> fst (download s job_id) = abort_404).
Proof.
  unfold status_payload, download.
  destruct (jobs s !! job_id) as [job|] eqn:Hjob.
  - destruct (status job), (download_path job) as [p|]; cbn [fst];
      (split; [split; [intros (j & u & [=]) | intros (p' & n & [=])]; eauto
              |split; [split; discriminate|discriminate]]).
  - cbn [fst]. split; [split; [intros (j & u & [=]) | intros (p' & n & [=])]|].
    split; [split; reflexivity|reflexivity].
Qed.

Lemma setattr_id (job : ConversionJob) (c : change) : id (setattr job c) = id job.
Proof. destruct job, c; reflexivity. Qed.

Lemma fold_setattr_id (changes : list change) (job : ConversionJob) :
  id (fold_left setattr changes job) = id job.
Proof.
  revert job. induction changes as [|c cs IH]; intros job; [reflexivity|].
  cbn [fold_left]. rewrite IH. apply setattr_id.
Qed.

Lemma update_job_ids (jobs : Jobs) (job_id : string) (changes : list change) :
  ids_agree jobs -> ids_agree (_update_job jobs job_id changes).
Proof.
  intros Hids key job. unfold _update_job.
  destruct (jobs !! job_id) as [j|] eqn:Hj; [|apply Hids].
  destruct (decide (key = job_id)) as [->|Hne]; intros Hkey.
  - assert (Heq : Some (fold_left setattr changes j) = Some job).
    { rewrite <- Hkey. symmetry. apply lookup_insert_eq. }
    injection Heq as <-. rewrite fold_setattr_id. now apply Hids.
  - apply Hids. rewrite <- Hkey. symmetry. now apply lookup_insert_ne.
Qed.

Lemma run_ids (t : list effect) (jobs : Jobs) : ids_agree jobs -> ids_agree (run jobs t).
Proof.
  revert jobs. induction t as [|e t IH]; intros jobs Hids; [exact Hids|].
  cbn [run fold_left]. apply IH. destruct e; cbn [run_effect]; try exact Hids.
  now apply update_job_ids.
Qed.

(** X13: every record stays registered under its own id: [convert], every
    update the worker or the progress logger makes and [download] keep
    [jobs[key].id == key]; so the link [status] gives is the download
    address of the id that was asked for. *)
Theorem records_keep_their_ids {fs : FileSystem} :
  (forall tmp uuid uploads s resp s' w,
      ids_agree (jobs s) ->
      convert tmp uuid uploads s = inr (resp, s', w) -> ids_agree (jobs s'))
  /\ (forall jobs t, ids_agree jobs -> ids_agree (run jobs t))
  /\ (forall s job_id, ids_agree (jobs s) -> ids_agree (jobs (snd (download s job_id))))
  /\ (forall s job_id job url,
        ids_agree (jobs s) ->
        status_payload s job_id = Some (job, Some url) ->
        url = "/download/" +:+ job_id).
Proof.
  split; [|split; [|split]].
  - intros tmp uuid uploads s resp s' w Hids H.
    destruct (convert_cases _ _ _ _ _ _ _ H)
      as [(err & details & _ & -> & _)|(u & _ & _ & _ & -> & _)]; [exact Hids|].
    cbn [jobs]. intros key job Hkey.
    destruct (decide (key = uuid)) as [->|Hne].
    + match type of Hkey with
      | <[_ := ?j]> _ !! _ = _ => assert (Heq : Some j = Some job)
      end.
      { rewrite <- Hkey. symmetry. apply lookup_insert_eq. }
      now injection Heq as <-.
    + apply Hids. rewrite <- Hkey. symmetry. now apply lookup_insert_ne.
  - intros jobs0 t. apply run_ids.
  - intros s job_id Hids. unfold download.
    destruct (jobs s !! job_id) as [job|] eqn:Hjob; [|exact Hids].
    destruct (status job), (download_path job); try exact Hids.
    cbn [snd jobs]. intros key j Hkey.
    apply lookup_delete_Some in Hkey. destruct Hkey as [_ Hkey]. now apply Hids.
  - intros s job_id job url Hids. unfold status_payload.
    destruct (jobs s !! job_id) as [j|] eqn:Hj; [|discriminate].
    intros [= <- Hurl]. rewrite (Hids _ _ Hj) in Hurl.
    destruct (status j), (download_path j); congruence.
Qed.

(** X14: [download] removes nothing but what belongs to the job it serves:
    the other records are as before, a request answered with 404 leaves the
    whole state as it was, and a served request removes from the temporary
    directories at most the one of that job. *)
Theorem download_removes_only_its_job (s : Server) (job_id : string) :
  let s' := snd (download s job_id) in
  (forall other, other <> job_id -> jobs s' !! other = jobs s !! other)
  /\ (fst (download s job_id) = abort_404 -> s' = s)
  /\ (forall d, d ∈ temp_dirs s' -> d ∈ temp_dirs s)
  /\ (forall d, d ∈ temp_dirs s -> d ∉ temp_dirs s' ->
        exists job, jobs s !! job_id = Some job /\ temp_dir job = Some d
                    /\ status job = completed).
Proof.
  unfold download.
  destruct (jobs s !! job_id) as [job|] eqn:Hjob; cbn zeta; [|cbn [snd fst]].
  - destruct (status job) eqn:Hst, (download_path job) as [p|]; cbn [snd fst jobs temp_dirs];
      try (split; [reflexivity|split; [reflexivity|split; [now intros|now intros]]]).
    split; [intros other Hne; now apply lookup_delete_ne|].
    split; [discriminate|].
    destruct (temp_dir job) as [d0|] eqn:Htmp.
    + split; [intros d Hd; apply elem_of_difference in Hd; tauto|].
      intros d Hd Hnot. exists job. split; [reflexivity|]. split; [|exact Hst].
      rewrite Htmp. f_equal. destruct (decide (d = d0)) as [->|Hne]; [reflexivity|].
      exfalso. apply Hnot. set_solver.
    + split; [now intros|]. intros d Hd Hnot. contradiction.
  - split; [reflexivity|split; [reflexivity|split; [now intros|now intros]]].
Qed.

(** ** Where the uploads are saved *)

Lemma parse_component (x : string) :
  PurePath.keep_component x = true -> Str.contains_slash x = false ->
  PurePath.parse x = mkPath "" [x].
Proof.
  intros Hkeep Hslash. unfold PurePath.parse.
  rewrite (leading_slashes_no_slash _ Hslash), (split_slash_single _ Hslash).
  cbn [List.filter]. now rewrite Hkeep.
Qed.

Lemma fold_joinpath_names (l : list string) (acc : Path) :
  Forall (fun x => safe_name x = true) l ->
  fold_left PurePath.joinpath (List.map PurePath.parse l) acc
  = mkPath (root acc) (names acc ++ l).
Proof.
  revert acc. induction l as [|x l IH]; intros acc Hl.
  - cbn [List.map fold_left]. rewrite app_nil_r. now destruct acc.
  - inversion Hl as [|? ? Hx Hl']; subst. cbn [List.map fold_left].
    rewrite (parse_safe_name _ Hx), (IH _ Hl'). cbn. now rewrite <- app_assoc.
Qed.

Lemma safe_parts_of_names (filename : string) :
  Forall (fun x => safe_name x = true)
         (List.filter (fun part => negb (mem_string part [""; "."; ".."]))
                      (names (PurePath.parse filename))).
Proof.
  apply List.Forall_forall. intros x [Hin Hkeep]%List.filter_In.
  pose proof (parse_names filename) as Hn. rewrite List.Forall_forall in Hn.
  destruct (Hn _ Hin) as [_ Hslash]. unfold safe_name, bad_components.
  now rewrite Hkeep, Hslash.
Qed.

Lemma sanitize_relative (filename : string) :
  Str.leading_slashes filename = 0%nat ->
  exists l, l <> [] /\ _sanitize_relative_path filename = mkPath "" l.
Proof.
  intros Hlead. unfold _sanitize_relative_path.
  assert (Hroot : root (PurePath.parse filename) = "").
  { cbn [PurePath.parse root]. now rewrite Hlead. }
  assert (Hparts : PurePath.parts (PurePath.parse filename)
                   = names (PurePath.parse filename)).
  { unfold PurePath.parts, PurePath.is_absolute. now rewrite Hroot. }
  rewrite Hparts. pose proof (safe_parts_of_names filename) as Hsafe.
  destruct (List.filter _ (names (PurePath.parse filename))) as [|part parts].
  - destruct (String.eqb (PurePath.name (PurePath.parse filename)) "") eqn:Hname.
    + exists ["uploaded_file"]. split; [discriminate|reflexivity].
    + apply String.eqb_neq in Hname.
      assert (Hne : names (PurePath.parse filename) <> []).
      { intros Hnil. apply Hname. unfold PurePath.name. now rewrite Hnil. }
      pose proof (last_In_nonempty _ "" Hne) as Hin.
      pose proof (parse_names filename) as Hn. rewrite List.Forall_forall in Hn.
      destruct (Hn _ Hin) as [Hkeep Hslash].
      exists [PurePath.name (PurePath.parse filename)]. split; [discriminate|].
      now apply parse_component.
  - exists (part :: parts). split; [discriminate|].
    unfold PurePath.of_args. now rewrite (fold_joinpath_names _ _ Hsafe).
Qed.

Lemma sanitize_absolute (filename : string) :
  Str.leading_slashes filename <> 0%nat ->
  exists r l, r <> "" /\ _sanitize_relative_path filename = mkPath r l.
Proof.
  intros Hlead. unfold _sanitize_relative_path.
  pose proof (safe_parts_of_names filename) as Hsafe.
  assert (Hroot : root (PurePath.parse filename) = "/"
                  \/ root (PurePath.parse filename) = "//").
  { cbn [PurePath.parse root]. destruct (Str.leading_slashes filename) as [|[|[|n]]];
      [now contradict Hlead|now left|now right|now left]. }
  assert (Hparts : PurePath.parts (PurePath.parse filename)
                   = root (PurePath.parse filename) :: names (PurePath.parse filename)).
  { unfold PurePath.parts, PurePath.is_absolute. now destruct Hroot as [-> | ->]. }
  rewrite Hparts.
  set (keep := fun part => negb (mem_string part [""; "."; ".."])) in *.
  set (l := names (PurePath.parse filename)) in *.
  destruct Hroot as [-> | ->];
    [change (List.filter keep ("/" :: l)) with ("/" :: List.filter keep l)
    |change (List.filter keep ("//" :: l)) with ("//" :: List.filter keep l)];
    unfold PurePath.of_args; cbn [List.map fold_left];
    match goal with
    | |- context [fold_left _ _ ?acc] =>
        rewrite (fold_joinpath_names _ acc Hsafe)
    end; eexists _, _; (split; [|reflexivity]); discriminate.
Qed.

(** X17: the sanitized name of an upload stays under the upload directory
    exactly when the file name does not begin with a slash.  For such a name
    the result is a non-empty relative path and the destination
    [upload_dir / result] is relative to [upload_dir] by that same path; for
    a name that begins with a slash the result is absolute, and the
    destination is that absolute path, whatever the upload directory.  In
    both cases no component is empty, ["."] or [".."] or holds a slash,
    except for the whole path [".."]. *)
Theorem sanitized_destination (filename : string) (upload_dir : Path) :
  let p := _sanitize_relative_path filename in
  (Str.leading_slashes filename = 0%nat ->
     PurePath.is_absolute p = false /\ names p <> []
     /\ PurePath.relative_to (upload_dir // p) upload_dir = Some p)
  /\ (Str.leading_slashes filename <> 0%nat ->
        PurePath.is_absolute p = true /\ upload_dir // p = p)
  /\ sanitized_names (names p).
Proof.
  intros p. subst p. split; [|split].
  - intros Hlead. destruct (sanitize_relative _ Hlead) as (l & Hne & ->).
    split; [reflexivity|]. split; [exact Hne|].
    unfold PurePath.joinpath, PurePath.relative_to. cbn [PurePath.is_absolute root names
      String.eqb negb]. rewrite String.eqb_refl, strip_prefix_app. reflexivity.
  - intros Hlead. destruct (sanitize_absolute _ Hlead) as (r & l & Hr & ->).
    assert (Habs : PurePath.is_absolute (mkPath r l) = true).
    { unfold PurePath.is_absolute. cbn [root]. apply String.eqb_neq in Hr. now rewrite Hr. }
    split; [exact Habs|]. unfold PurePath.joinpath. now rewrite Habs.
  - destruct (sanitize_names filename) as [[_ H]|H]; [now left|now right].
Qed.

(** ** Requests whose file names are relative *)

Lemma with_suffix_mp3_Some (p : Path) :
  PurePath.name p <> "" -> exists a, PurePath.with_suffix p ".mp3" = Some a.
Proof.
  intros Hname. unfold PurePath.with_suffix. cbn [Str.contains_slash Ascii.eqb Bool.eqb orb].
  apply String.eqb_neq in Hname. rewrite Hname. cbn. eexists. reflexivity.
Qed.

Lemma sanitize_name_nonempty (filename : string) :
  Str.leading_slashes filename = 0%nat ->
  PurePath.name (_sanitize_relative_path filename) <> "".
Proof.
  intros Hlead. destruct (sanitize_relative _ Hlead) as (l & Hne & Hp).
  pose proof (sanitize_names filename) as Hnames. rewrite Hp in *. cbn [names root] in *.
  unfold PurePath.name. cbn [names].
  destruct Hnames as [[_ ->]|Hsafe]; [discriminate|].
  pose proof (last_In_nonempty l "" Hne) as Hin. rewrite List.Forall_forall in Hsafe.
  apply Hsafe, safe_name_spec in Hin. tauto.
Qed.

Lemma saved_relative_convertible (upload_dir : Path) (filename : string) :
  Str.leading_slashes filename = 0%nat ->
  convertible upload_dir (upload_dir // _sanitize_relative_path filename).
Proof.
  intros Hlead.
  destruct (sanitize_relative _ Hlead) as (l & Hne & Hp).
  destruct (with_suffix_mp3_Some _ (sanitize_name_nonempty _ Hlead)) as [a Ha].
  exists (_sanitize_relative_path filename), a. split; [|exact Ha].
  rewrite Hp. unfold PurePath.joinpath, PurePath.relative_to.
  cbn [PurePath.is_absolute root names String.eqb negb].
  now rewrite String.eqb_refl, strip_prefix_app.
Qed.

Lemma process_files_no_raise (lib : option (string -> clip)) (job_id : string)
    (upload_dir output_dir : Path) (files : list Path) (index : Z)
    (errs : list string) (generated : list (Path * Path)) :
  Forall (convertible upload_dir) files ->
  exists f,
    outcome (process_files lib job_id upload_dir output_dir index files errs generated)
    = inr f.
Proof.
  intros Hfiles. revert index errs generated.
  induction Hfiles as [|v files (relative & audio_relative & Hrel & Hsfx) _ IH];
    intros index errs generated; [now eexists|].
  cbn [process_files]. rewrite outcome_bind.
  rewrite (process_file_eq _ _ _ _ _ _ _ _ _ _ Hrel Hsfx). cbn [outcome].
  destruct (snd _) as [errs1 generated1|]; [apply IH|now eexists].
Qed.

Lemma relative_names_Some (upload_dir : Path) (paths : list Path) :
  Forall (convertible upload_dir) paths ->
  exists rs, relative_names upload_dir paths = Some rs.
Proof.
  induction 1 as [|p ps (relative & _ & Hrel & _) _ [rs IH]]; [now eexists|].
  cbn [relative_names]. rewrite Hrel, IH. now eexists.
Qed.

Lemma saved_files_convertible (upload_dir : Path) (uploads : list string) :
  Forall (fun f => Str.leading_slashes f = 0%nat) uploads ->
  Forall (convertible upload_dir)
    (List.map (fun f => upload_dir // _sanitize_relative_path f)
              (List.filter (fun f => negb (String.eqb f "")) uploads)).
Proof.
  intros Hup. apply List.Forall_forall. intros p Hp.
  apply List.in_map_iff in Hp as (f & <- & Hf). apply List.filter_In in Hf as [Hf _].
  rewrite List.Forall_forall in Hup. now apply saved_relative_convertible, Hup.
Qed.

Lemma Forall_list_filter {A} (P : A -> Prop) (f : A -> bool) (l : list A) :
  Forall P l -> Forall P (List.filter f l).
Proof.
  intros H. apply List.Forall_forall. intros x [Hx _]%List.filter_In.
  rewrite List.Forall_forall in H. now apply H.
Qed.

Lemma save_uploads_Some {fs : FileSystem} (destinations : list Path) (exc : exn) :
  save_uploads destinations = Some exc ->
  exists destination, In destination destinations /\ save_upload destination = Some exc.
Proof.
  induction destinations as [|d ds IH]; [discriminate|]. cbn [save_uploads].
  destruct (save_upload d) as [e|] eqn:Hd.
  - intros [= ->]. exists d. split; [now left|exact Hd].
  - intros H. destruct (IH H) as (d' & Hin & Hd'). exists d'. split; [now right|exact Hd'].
Qed.

(** X18: when no file name of the request begins with a slash, [convert]
    answers the request (with an error 400 or a job id) unless an upload
    cannot be saved: then it raises the exception of that save, registers no
    job and leaves the temporary directory behind. *)
Theorem convert_answers_relative_uploads {fs : FileSystem} (tmp : Path) (uuid : string)
    (uploads : list string) (s : Server) :
  Forall (fun f => Str.leading_slashes f = 0%nat) uploads ->
  (exists resp s' w, convert tmp uuid uploads s = inr (resp, s', w))
  \/ (exists f exc,
        In f uploads /\ f <> ""
        /\ save_upload (tmp // PurePath.parse "uploads" // _sanitize_relative_path f)
           = Some exc
        /\ convert tmp uuid uploads s
           = inl (exc, {| jobs := jobs s; temp_dirs := temp_dirs s ∪ {[tmp]} |})).
Proof.
  intros Hup. unfold convert. destruct (_ || _)%bool; [left; now eexists _, _, _|].
  pose proof (saved_files_convertible (tmp // PurePath.parse "uploads") uploads Hup)
    as Hsaved.
  destruct (save_uploads _) as [exc|] eqn:Hsave.
  { right. destruct (save_uploads_Some _ _ Hsave) as (d & Hd & Hraise).
    apply List.in_map_iff in Hd as (f & <- & Hf).
    apply List.filter_In in Hf as [Hf Hname].
    exists f, exc. split; [exact Hf|]. split; [|split; [exact Hraise|reflexivity]].
    intros ->. discriminate Hname. }
  left. destruct (List.map _ _) as [|p ps] eqn:Hmap; [now eexists _, _, _|].
  rewrite <- Hmap in *. clear Hmap p ps.
  destruct (_filter_supported _) as [|q qs] eqn:Hsup.
  - destruct (relative_names_Some _ _ Hsaved) as [rs ->]. now eexists _, _, _.
  - rewrite <- Hsup. clear Hsup.
    match goal with
    | |- context [relative_names ?u (List.filter ?f ?l)] =>
        destruct (relative_names_Some u (List.filter f l)
                    (Forall_list_filter _ f l Hsaved)) as [rs ->]
    end.
    now eexists _, _, _.
Qed.

Lemma convert_answers_relative_uploads_witness :
  let fs := fs_with_dirs [upload_dir_example // PurePath.parse "a.mp4"] in
  convert (fs := fs) temp_dir_example "job-1" ["a.mp4/b.txt"; "a.mp4"] (mkServer ∅ ∅)
  = inl (is_a_directory (upload_dir_example // PurePath.parse "a.mp4"),
         mkServer ∅ (∅ ∪ {[temp_dir_example]})).
Proof.
  intros fs.
  destruct (convert_answers_relative_uploads (fs := fs) temp_dir_example "job-1"
              ["a.mp4/b.txt"; "a.mp4"] (mkServer ∅ ∅))
    as [(resp & s' & w & H)|(f & exc & _ & _ & _ & H)].
  - repeat constructor.
  - vm_compute in H. discriminate H.
  - vm_compute. reflexivity.
Defined.

(** X19: when no file name of an accepted request begins with a slash, the
    worker that [convert] starts never stops on an exception of a file,
    whatever the media library does: its loop ends, and the worker returns
    and leaves the job [completed] or [failed], unless the archive cannot be
    written: then it stops on that exception and the job stays [running]. *)
Theorem worker_returns_for_relative_uploads {fs : FileSystem}
    (lib : option (string -> clip))
    (tmp : Path) (uuid : string) (uploads : list string) (s s' : Server)
    (resp : response) (args : worker_args) :
  convert tmp uuid uploads s = inr (resp, s', Some args) ->
  Forall (fun f => Str.leading_slashes f = 0%nat) uploads ->
  let m := _process_job lib (arg_job_id args) (arg_upload_dir args) (arg_output_dir args)
                        (arg_supported_files args) in
  let loop := process_files lib (arg_job_id args) (arg_upload_dir args)
                            (arg_output_dir args) 1 (arg_supported_files args) [] [] in
  exists job',
    run (jobs s') (trace m) !! uuid = Some job'
    /\ ((outcome m = inr tt /\ is_final (status job') = true)
        \/ (exists errs generated exc,
               outcome loop = inr (next_file errs generated)
               /\ write_archive (arg_output_dir args // PurePath.parse "converted_audio.zip")
                                (zip_entries generated errs) = Some exc
               /\ outcome m = inl exc
               /\ status job' = running)).
Proof.
  intros Hconv Hup m loop.
  destruct (convert_starts_worker _ _ _ _ _ _ _ Hconv) as (Hid & _ & job & Hjob & Hnew).
  destruct (convert_cases _ _ _ _ _ _ _ Hconv)
    as [(err & details & _ & _ & Hw)|(u & _ & _ & _ & _ & Hw)]; [discriminate|].
  pose proof (saved_files_convertible (tmp // PurePath.parse "uploads") uploads Hup)
    as Hsaved.
  apply (Forall_list_filter _
           (fun path => mem_string (Str.lower (PurePath.suffix path)) ALLOWED_SUFFIXES))
    in Hsaved. fold (_filter_supported
                       (List.map (fun f => tmp // PurePath.parse "uploads"
                                           // _sanitize_relative_path f)
                                 (List.filter (fun f => negb (String.eqb f "")) uploads)))
    in Hsaved.
  injection Hw as ->. subst m loop.
  cbn [arg_job_id arg_upload_dir arg_output_dir arg_supported_files] in *.
  match goal with
  | |- context [_process_job lib uuid ?up ?out ?files] =>
      set (files0 := files) in *;
      destruct (process_files_no_raise lib uuid up out files0 1 [] [] Hsaved)
        as [f Hloop];
      pose proof (_process_job_outcome lib uuid up out files0) as Hout;
      pose proof (_process_job_status_written lib uuid up out files0) as Hst;
      pose proof (_process_job_own lib uuid up out files0) as Hown
  end.
  rewrite Hloop in Hout, Hst. eexists. split; [apply (run_lookup _ _ _ _ Hjob)|].
  rewrite (job_after_status _ _ _ Hown), Hst, Hout.
  destruct f as [errs [|g generated]|]; try (left; split; reflexivity).
  rewrite package_outcome.
  destruct (write_archive _ _) as [exc|] eqn:Hzip; [|left; split; reflexivity].
  right. exists errs, (g :: generated), exc.
  split; [exact Hloop|]. split; [exact Hzip|]. split; reflexivity.
Qed.

Lemma worker_returns_for_relative_uploads_witness :
  let m := _process_job (fs := fs_ok) (Some lib_example) "job-1" upload_dir_example
                        output_dir_example [video_a_example; video_b_example] in
  exists job',
    run (jobs server_started_example) (trace m) !! "job-1" = Some job'
    /\ outcome m = inr tt /\ status job' = completed.
Proof.
  intros m.
  destruct (worker_returns_for_relative_uploads (fs := fs_ok) (Some lib_example)
              temp_dir_example "job-1" uploads_example (mkServer ∅ ∅)
              server_started_example (json_job_id "job-1") args_example)
    as (job' & Hrun & _).
  - vm_compute. reflexivity.
  - repeat constructor.
  - exists job'. split; [exact Hrun|]. split; [vm_compute; reflexivity|].
    vm_compute in Hrun. injection Hrun as <-. reflexivity.
Defined.

(** ** What a reader of the status sees over time *)

Lemma last_cons {A} (l : list A) (x d : A) : List.last (x :: l) d = List.last l x.
Proof.
  destruct l as [|y l]; [reflexivity|].
  change (List.last (y :: l) d = List.last (y :: l) x). apply last_cons_default.
Qed.

Lemma last_Forall {A} (P : A -> Prop) (l : list A) (d : A) :
  P d -> Forall P l -> P (List.last l d).
Proof.
  intros Hd Hl. revert d Hd. induction Hl as [|x l Hx _ IH]; intros d Hd; [exact Hd|].
  rewrite last_cons. now apply IH.
Qed.

Section Rises.

Context {A : Type} (R : A -> A -> Prop).
Hypothesis R_refl : forall x, R x x.
Hypothesis R_trans : forall x y z, R x y -> R y z -> R x z.

Lemma rises_app (lo : A) (l1 l2 : list A) :
  rises R lo (l1 ++ l2) <-> rises R lo l1 /\ rises R (List.last l1 lo) l2.
Proof.
  revert lo. induction l1 as [|x l1 IH]; intros lo; [cbn; tauto|].
  rewrite last_cons. cbn [app rises]. rewrite IH. tauto.
Qed.

Lemma rises_last (lo : A) (l : list A) : rises R lo l -> R lo (List.last l lo).
Proof.
  revert lo. induction l as [|x l IH]; intros lo; [intros _; apply R_refl|].
  intros [Hx Hl]. rewrite last_cons. eapply R_trans; [exact Hx|]. now apply IH.
Qed.

Lemma rises_prefix (lo : A) (p r rest : list A) :
  rises R lo (p ++ r ++ rest) -> R (List.last p lo) (List.last (p ++ r) lo).
Proof.
  intros H. apply rises_app in H as [_ H]. apply rises_app in H as [H _].
  rewrite last_app_default. now apply rises_last.
Qed.

End Rises.

Section Field.

Context {A : Type} (sel : change -> option A) (get : ConversionJob -> A).
Hypothesis get_setattr :
  forall job c, get (setattr job c) = match sel c with Some v => v | None => get job end.

Lemma written_app (t1 t2 : list effect) :
  written sel (t1 ++ t2) = written sel t1 ++ written sel t2.
Proof. apply flat_map_app. Qed.

Lemma get_fold (changes : list change) (job : ConversionJob) :
  get (fold_left setattr changes job) = List.last (assigned sel changes) (get job).
Proof.
  revert job. induction changes as [|c changes IH]; intros job; [reflexivity|].
  cbn [fold_left]. rewrite IH, get_setattr. unfold assigned. cbn [flat_map].
  rewrite last_app_default. f_equal. now destruct (sel c).
Qed.

(** The field after a trace of the job's own effects is the last value the
    trace assigns to it. *)
Lemma job_after_get (job_id : string) (t : list effect) (job : ConversionJob) :
  Forall (own_effect job_id) t ->
  get (job_after job_id job t) = List.last (written sel t) (get job).
Proof.
  revert job. induction t as [|e t IH]; intros job Ht; [reflexivity|].
  inversion Ht as [|? ? He Ht']; subst.
  cbn [job_after fold_left]. fold (job_after job_id (job_step job_id job e) t).
  rewrite (IH _ Ht'). change (e :: t) with ([e] ++ t).
  rewrite written_app, last_app_default. f_equal.
  destruct e as [i changes| | | |]; try reflexivity.
  cbn in He. subst i. rewrite job_step_update, get_fold.
  unfold written. cbn [flat_map]. now rewrite app_nil_r.
Qed.

Lemma observed_rises (R : A -> A -> Prop) (job_id : string) (t : list effect)
    (job : ConversionJob) (k1 k2 : nat) :
  (forall x, R x x) -> (forall x y z, R x y -> R y z -> R x z) ->
  Forall (own_effect job_id) t ->
  rises R (get job) (written sel t) ->
  (k1 <= k2)%nat ->
  R (get (job_after job_id job (firstn k1 t))) (get (job_after job_id job (firstn k2 t))).
Proof.
  intros Hrefl Htrans Hown Hrises Hk.
  set (p := firstn k1 (firstn k2 t)).
  set (r := skipn k1 (firstn k2 t)).
  assert (Hp : firstn k1 t = p).
  { unfold p. rewrite List.firstn_firstn. now rewrite Nat.min_l. }
  assert (Hpr : firstn k2 t = p ++ r) by (symmetry; apply List.firstn_skipn).
  assert (Hall : t = p ++ r ++ skipn k2 t).
  { rewrite app_assoc, <- Hpr. symmetry. apply List.firstn_skipn. }
  rewrite Hall in Hown, Hrises. rewrite !written_app in Hrises.
  apply Forall_app in Hown as [Hownp Hown]. apply Forall_app in Hown as [Hownr _].
  rewrite Hp, Hpr, (job_after_get _ _ _ Hownp).
  rewrite (job_after_get job_id (p ++ r) job) by (apply Forall_app; now split).
  rewrite written_app. now apply (rises_prefix R Hrefl Htrans _ _ _ _ Hrises).
Qed.

Lemma observed_all (P : A -> Prop) (job_id : string) (t : list effect)
    (job : ConversionJob) (k : nat) :
  Forall (own_effect job_id) t ->
  P (get job) -> Forall P (written sel t) ->
  P (get (job_after job_id job (firstn k t))).
Proof.
  intros Hown Hjob Hall. rewrite <- (List.firstn_skipn k t) in Hown, Hall.
  rewrite written_app in Hall.
  apply Forall_app in Hown as [Hown _]. apply Forall_app in Hall as [Hall _].
  rewrite (job_after_get _ _ _ Hown).
  now apply last_Forall.
Qed.

(** The progress events write to no other field. *)
Lemma written_progress (job_id : string) (t : list effect) :
  (forall p, sel (set_current_progress p) = None) ->
  Forall (progress_effect job_id) t -> written sel t = [].
Proof.
  intros Hsel. induction 1 as [|e t He _ IH]; [reflexivity|].
  change (e :: t) with ([e] ++ t). rewrite written_app, IH, app_nil_r.
  destruct e as [i changes| | | |]; try reflexivity.
  destruct He as (_ & p & -> & _). unfold written, assigned. cbn [flat_map].
  now rewrite Hsel.
Qed.

End Field.

Lemma processed_files_setattr (job : ConversionJob) (c : change) :
  processed_files (setattr job c)
  = match sel_processed_files c with Some v => v | None => processed_files job end.
Proof. destruct job, c; reflexivity. Qed.

Lemma converted_setattr (job : ConversionJob) (c : change) :
  converted (setattr job c)
  = match sel_converted c with Some v => v | None => converted job end.
Proof. destruct job, c; reflexivity. Qed.

Lemma errors_setattr (job : ConversionJob) (c : change) :
  errors (setattr job c)
  = match sel_errors c with Some v => v | None => errors job end.
Proof. destruct job, c; reflexivity. Qed.

Lemma current_progress_setattr (job : ConversionJob) (c : change) :
  current_progress (setattr job c)
  = match sel_current_progress c with Some v => v | None => current_progress job end.
Proof. destruct job, c; reflexivity. Qed.

(** A turn of the loop raises before any effect, or is the start update, the
    conversion and what follows it. *)
Lemma process_file_cases (lib : option (string -> clip)) (job_id : string)
    (upload_dir output_dir : Path) (index : Z) (video_path : Path)
    (errs : list string) (generated : list (Path * Path)) :
  (exists e, process_file lib job_id upload_dir output_dir index video_path errs generated
             = raise e)
  \/ (exists relative audio_relative,
        process_file lib job_id upload_dir output_dir index video_path errs generated
        = mkM (start_update job_id relative index
               :: trace (conversion lib job_id output_dir video_path audio_relative)
               ++ fst (after_conversion job_id index relative audio_relative errs generated
                         (outcome (conversion lib job_id output_dir video_path
                                              audio_relative))))
              (inr (snd (after_conversion job_id index relative audio_relative errs
                           generated
                           (outcome (conversion lib job_id output_dir video_path
                                                audio_relative)))))).
Proof.
  destruct (PurePath.relative_to video_path upload_dir) as [relative|] eqn:Hrel;
    [destruct (PurePath.with_suffix relative ".mp3") as [audio_relative|] eqn:Hsfx|].
  - right. exists relative, audio_relative. now apply process_file_eq.
  - left. apply process_file_raises. intros r Hr. congruence.
  - left. apply process_file_raises. intros r Hr. congruence.
Qed.

(** The values a turn writes to [processed_files], [converted] and
    [errors]. *)
Lemma turn_written (job_id : string) (index : Z) (relative audio_relative : Path)
    (errs : list string) (generated : list (Path * Path)) (conv : M Path) :
  Forall (progress_effect job_id) (trace conv) ->
  let after := after_conversion job_id index relative audio_relative errs generated
                                (outcome conv) in
  let t := start_update job_id relative index :: trace conv ++ fst after in
  (exists tail, written sel_processed_files t = (index - 1) :: index :: tail
                /\ List.last (index :: tail) 0 = index
                /\ rises Z.le index tail)
  /\ rises Z.le (Z.of_nat (List.length generated)) (written sel_converted t)
  /\ rises prefix errs (written sel_errors t)
  /\ (forall errs' generated',
        snd after = next_file errs' generated' ->
        List.last (written sel_converted t) (Z.of_nat (List.length generated))
        = Z.of_nat (List.length generated')
        /\ List.last (written sel_errors t) errs = errs').
Proof.
  intros Hconv after t. subst t after.
  change (?e :: ?u ++ ?v) with ([e] ++ u ++ v). rewrite !written_app.
  rewrite (written_progress sel_processed_files job_id _ (fun _ => eq_refl) Hconv).
  rewrite (written_progress sel_converted job_id _ (fun _ => eq_refl) Hconv).
  rewrite (written_progress sel_errors job_id _ (fun _ => eq_refl) Hconv).
  unfold after_conversion.
  destruct (outcome conv) as [exc|produced]; [destruct (is_ModuleNotFoundError exc)|];
    cbn [fst snd written assigned flat_map app start_update fatal_update finally_update
         converted_update sel_processed_files sel_converted sel_errors rises List.last].
  - split; [eexists; split; [reflexivity|split; [reflexivity|cbn; lia]]|].
    split; [exact I|]. split; [|discriminate].
    split; [now apply prefix_app_r|]. split; [reflexivity|exact I].
  - split; [eexists; split; [reflexivity|split; [reflexivity|exact I]]|].
    split; [exact I|]. split; [split; [now apply prefix_app_r|exact I]|].
    intros errs' generated' [= <- <-]. split; reflexivity.
  - split; [eexists; split; [reflexivity|split; [reflexivity|exact I]]|].
    split; [split; [rewrite length_app; cbn; lia|exact I]|].
    split; [split; [reflexivity|exact I]|].
    intros errs' generated' [= <- <-]. split; reflexivity.
Qed.

Lemma process_files_written (lib : option (string -> clip)) (job_id : string)
    (upload_dir output_dir : Path) (files : list Path) (index : Z)
    (errs : list string) (generated : list (Path * Path)) :
  let t := trace (process_files lib job_id upload_dir output_dir index files
                                errs generated) in
  rises Z.le (index - 1) (written sel_processed_files t)
  /\ rises Z.le (Z.of_nat (List.length generated)) (written sel_converted t)
  /\ rises prefix errs (written sel_errors t).
Proof.
  revert index errs generated.
  induction files as [|v files IH]; intros index errs generated; [now cbn|].
  cbn [process_files]. cbn zeta. rewrite trace_bind.
  destruct (process_file_cases lib job_id upload_dir output_dir index v errs generated)
    as [[e ->]|(relative & audio_relative & ->)]; [now cbn|].
  cbn [outcome trace].
  destruct (turn_written job_id index relative audio_relative errs generated
              (conversion lib job_id output_dir v audio_relative)
              (video_to_audio_file_progress _ _ _ _))
    as ((tail & Hp & Hlast & Htail) & Hc & He & Hnext).
  destruct (snd _) as [errs1 generated1|] eqn:Hflow.
  - destruct (Hnext _ _ eq_refl) as [Hlc Hle].
    destruct (IH (index + 1) errs1 generated1) as (IHp & IHc & IHe).
    rewrite !written_app. rewrite Hp in *.
    split; [|split].
    + apply rises_app. split; [cbn [rises]; split; [lia|split; [lia|exact Htail]]|].
      rewrite last_cons, (last_cons_default tail index (index - 1) 0), Hlast.
      now replace (index + 1 - 1) with index in IHp by lia.
    + apply rises_app. split; [exact Hc|]. now rewrite Hlc.
    + apply rises_app. split; [exact He|]. now rewrite Hle.
  - cbn [trace ret]. rewrite app_nil_r. rewrite Hp.
    split; [cbn [rises]; split; [lia|split; [lia|exact Htail]]|]. now split.
Qed.

(** X20: what a reader of the status of a newly created job sees never goes
    backwards while the worker runs: from one observable state to a later
    one, [processed_files] and [converted] do not decrease and the error
    list only grows at its end. *)
Theorem counters_never_go_backwards {fs : FileSystem} (lib : option (string -> clip)) (job_id : string)
    (upload_dir output_dir : Path) (files : list Path) (jobs : Jobs)
    (job j1 j2 : ConversionJob) (k1 k2 : nat) :
  let t := trace (_process_job lib job_id upload_dir output_dir files) in
  jobs !! job_id = Some job ->
  newly_created job files ->
  errors job = [] ->
  (k1 <= k2)%nat ->
  run jobs (firstn k1 t) !! job_id = Some j1 ->
  run jobs (firstn k2 t) !! job_id = Some j2 ->
  processed_files j1 <= processed_files j2
  /\ converted j1 <= converted j2
  /\ errors j1 `prefix_of` errors j2.
Proof.
  intros t Hjob (_ & _ & Hconv0 & Hproc0) Herrs0 Hk H1 H2.
  assert (Hj1 : j1 = job_after job_id job (firstn k1 t)).
  { pose proof (run_lookup (firstn k1 t) _ _ _ Hjob) as H. congruence. }
  assert (Hj2 : j2 = job_after job_id job (firstn k2 t)).
  { pose proof (run_lookup (firstn k2 t) _ _ _ Hjob) as H. congruence. }
  subst j1 j2.
  pose proof (_process_job_own lib job_id upload_dir output_dir files) as Hown.
  fold t in Hown.
  destruct (process_files_written lib job_id upload_dir output_dir files 1 [] [])
    as (Hp & Hc & He).
  assert (Ht : t = [initial_update job_id]
                   ++ trace (process_files lib job_id upload_dir output_dir 1 files [] [])
                   ++ match outcome (process_files lib job_id upload_dir output_dir 1 files
                                                   [] []) with
                      | inr (next_file errs generated) =>
                          trace (package job_id output_dir errs generated)
                      | _ => []
                      end).
  { unfold t. now rewrite _process_job_trace. }
  assert (Hpack : forall {A} (sel : change -> option A),
             (forall v, sel (set_status v) = None) ->
             (forall v, sel (set_message v) = None) ->
             (forall v, sel (set_current_file v) = None) ->
             (forall v, sel (set_current_progress v) = None) ->
             (forall v, sel (set_download_path v) = None) ->
             (forall v, sel (set_generated_files v) = None) ->
             written sel
               match outcome (process_files lib job_id upload_dir output_dir 1 files
                                            [] []) with
               | inr (next_file errs generated) =>
                   trace (package job_id output_dir errs generated)
               | _ => []
               end = []).
  { intros A sel S1 S2 S3 S4 S5 S6.
    destruct (outcome _) as [e|[errs [|g generated]|]]; try reflexivity.
    - unfold package, written, assigned.
      cbn [trace call_update_job emit bind outcome app flat_map].
      now rewrite ?S1, ?S2, ?S3, ?S4, ?S5, ?S6.
    - destruct (package_cases job_id output_dir errs g generated)
        as [(exc & _ & ->)|(_ & ->)]; [reflexivity|].
      unfold written, assigned. cbn [trace flat_map app].
      now rewrite ?S1, ?S2, ?S3, ?S4, ?S5, ?S6. }
  split; [|split].
  - apply (observed_rises sel_processed_files processed_files processed_files_setattr
             Z.le job_id t job k1 k2); [intros; lia|intros; lia|exact Hown| |exact Hk].
    rewrite Ht, !written_app, Hpack, app_nil_r by reflexivity.
    cbn [written assigned flat_map initial_update sel_processed_files app].
    rewrite Hproc0. exact Hp.
  - apply (observed_rises sel_converted converted converted_setattr
             Z.le job_id t job k1 k2); [intros; lia|intros; lia|exact Hown| |exact Hk].
    rewrite Ht, !written_app, Hpack, app_nil_r by reflexivity.
    cbn [written assigned flat_map initial_update sel_converted app].
    rewrite Hconv0. exact Hc.
  - apply (observed_rises sel_errors errors errors_setattr
             prefix job_id t job k1 k2);
      [intros; reflexivity|intros x y z; apply transitivity|exact Hown| |exact Hk].
    rewrite Ht, !written_app, Hpack, app_nil_r by reflexivity.
    cbn [written assigned flat_map initial_update sel_errors app rises].
    rewrite Herrs0. split; [reflexivity|exact He].
Qed.

Lemma counters_never_go_backwards_witness :
  let t := trace (_process_job (fs := fs_ok) (Some lib_example) "job-1" upload_dir_example
                    output_dir_example [video_a_example; video_b_example]) in
  let j1 := job_after "job-1" (job_pending_example 2) (firstn 5 t) in
  let j2 := job_after "job-1" (job_pending_example 2) (firstn 15 t) in
  processed_files j1 <= processed_files j2
  /\ converted j1 <= converted j2
  /\ errors j1 `prefix_of` errors j2.
Proof.
  intros t j1 j2.
  apply (counters_never_go_backwards (fs := fs_ok) (Some lib_example) "job-1" upload_dir_example
           output_dir_example [video_a_example; video_b_example] (jobs_example 2)
           (job_pending_example 2) j1 j2 5 15).
  - reflexivity.
  - repeat split.
  - reflexivity.
  - lia.
  - vm_compute. reflexivity.
  - vm_compute. reflexivity.
Defined.

Lemma written_progress_range (job_id : string) (t : list effect) :
  Forall (progress_effect job_id) t ->
  Forall (fun p => 0 <= p <= 100) (written sel_current_progress t).
Proof.
  induction 1 as [|e t He _ IH]; [constructor|].
  change (e :: t) with ([e] ++ t). rewrite written_app. apply Forall_app.
  split; [|exact IH]. destruct e as [i changes| | | |]; try constructor.
  destruct He as (_ & p & -> & Hp). cbn. now repeat constructor.
Qed.

Lemma process_files_progress_range (lib : option (string -> clip)) (job_id : string)
    (upload_dir output_dir : Path) (files : list Path) (index : Z)
    (errs : list string) (generated : list (Path * Path)) :
  Forall (fun p => 0 <= p <= 100)
    (written sel_current_progress
       (trace (process_files lib job_id upload_dir output_dir index files errs generated))).
Proof.
  revert index errs generated.
  induction files as [|v files IH]; intros index errs generated; [constructor|].
  cbn [process_files]. rewrite trace_bind.
  destruct (process_file_cases lib job_id upload_dir output_dir index v errs generated)
    as [[e ->]|(relative & audio_relative & ->)]; [constructor|].
  cbn [outcome trace].
  assert (Hturn : Forall (fun p => 0 <= p <= 100)
                    (written sel_current_progress
                       (start_update job_id relative index
                        :: trace (conversion lib job_id output_dir v audio_relative)
                        ++ fst (after_conversion job_id index relative audio_relative errs
                                  generated
                                  (outcome (conversion lib job_id output_dir v
                                                       audio_relative)))))).
  { change (?e :: ?u ++ ?w) with ([e] ++ u ++ w). rewrite !written_app.
    apply Forall_app. split; [cbn; repeat constructor; lia|].
    apply Forall_app. split; [apply (written_progress_range job_id), video_to_audio_file_progress|].
    unfold after_conversion.
    destruct (outcome _) as [exc|produced]; [destruct (is_ModuleNotFoundError exc)|];
      cbn; repeat constructor; lia. }
  destruct (snd _) as [errs1 generated1|].
  - rewrite written_app. apply Forall_app. split; [exact Hturn|apply IH].
  - cbn [trace ret]. now rewrite app_nil_r.
Qed.

(** X21: while the worker runs, [current_progress] stays a percentage: at
    every observable state of a job whose progress started in [0, 100] it is
    in [0, 100], whatever the media library reports to the progress
    logger. *)
Theorem progress_stays_a_percentage {fs : FileSystem} (lib : option (string -> clip)) (job_id : string)
    (upload_dir output_dir : Path) (files : list Path) (jobs : Jobs)
    (job : ConversionJob) (seen : Jobs) :
  jobs !! job_id = Some job ->
  0 <= current_progress job <= 100 ->
  observable jobs (trace (_process_job lib job_id upload_dir output_dir files)) seen ->
  exists j, seen !! job_id = Some j /\ 0 <= current_progress j <= 100.
Proof.
  intros Hjob Hrange [k ->]. eexists. split; [apply (run_lookup _ _ _ _ Hjob)|].
  apply (observed_all sel_current_progress current_progress current_progress_setattr
           (fun p => 0 <= p <= 100) job_id);
    [apply _process_job_own|exact Hrange|].
  rewrite _process_job_trace. change (?e :: ?u ++ ?w) with ([e] ++ u ++ w).
  rewrite !written_app. apply Forall_app. split; [cbn; repeat constructor; lia|].
  apply Forall_app. split; [apply process_files_progress_range|].
  destruct (outcome _) as [e|[errs [|g generated]|]]; [now constructor| | |now constructor].
  - unfold package. cbn. repeat constructor; lia.
  - destruct (package_cases job_id output_dir errs g generated)
      as [(exc & _ & ->)|(_ & ->)]; [now constructor|].
    cbn. repeat constructor; lia.
Qed.

Lemma progress_stays_a_percentage_witness :
  let t := trace (_process_job (fs := fs_ok) (Some lib_example) "job-1" upload_dir_example
                    output_dir_example [video_a_example; video_b_example]) in
  exists j, run (jobs_example 2) (firstn 5 t) !! "job-1" = Some j
            /\ 0 <= current_progress j <= 100.
Proof.
  intros t.
  apply (progress_stays_a_percentage (fs := fs_ok) (Some lib_example) "job-1" upload_dir_example
           output_dir_example [video_a_example; video_b_example] (jobs_example 2)
           (job_pending_example 2)).
  - reflexivity.
  - cbn. lia.
  - exists 5%nat. reflexivity.
Defined.
